(** * Private-IP bandwidth statistics: a shallow embedding of
      [private_ip_statistics.py] and the properties of its core.

    The development follows the script leaf-first: the Python builtins it
    relies on ([str.strip], [str.upper], [str.split], [int], [float], the
    [re] matcher, f-string formatting), then [is_private_ip],
    [convert_bandwidth_to_bytes], [format_bandwidth],
    [parse_awstats_monthly_page] and [fetch_and_save_monthly_data].

    Text is modelled as [string] (one [ascii] per character).  The model is
    the one of ASCII text: characters from 128 up are taken to be neither
    digits, nor blanks, nor cased letters. *)

From Stdlib Require Import ZArith List String Ascii Bool Lia Arith Permutation.
Import ListNotations.

Local Open Scope string_scope.
Local Open Scope Z_scope.

(** ** Exceptions and results *)

Inductive exn : Type :=
| ValueError          (* float("1.2.3"), int(nan) *)
| OverflowError       (* int(inf), int / int too large for a float *)
| RequestException.   (* requests.get / raise_for_status *)

Inductive result (A : Type) : Type :=
| Ok (a : A)
| Raise (e : exn).

Arguments Ok {A} a.
Arguments Raise {A} e.

Definition bind {A B} (x : result A) (f : A -> result B) : result B :=
  match x with
  | Ok a => f a
  | Raise e => Raise e
  end.

Notation "x <- c1 ;; c2" := (bind c1 (fun x => c2))
  (at level 61, c1 at next level, right associativity).

(** ** Characters and strings *)

Module Str.

Definition code (c : ascii) : nat := nat_of_ascii c.

Definition in_range (lo hi : nat) (c : ascii) : bool :=
  (lo <=? code c)%nat && (code c <=? hi)%nat.

(** [\d] and [str.isdigit] on ASCII. *)
Definition is_digit (c : ascii) : bool := in_range 48 57 c.

(** [\s] and [str.isspace] on ASCII: TAB, LF, VT, FF, CR, FS, GS, RS, US
    and the space. *)
Definition is_space (c : ascii) : bool :=
  in_range 9 13 c || in_range 28 32 c.

Definition is_lower (c : ascii) : bool := in_range 97 122 c.

Definition upper_char (c : ascii) : ascii :=
  if is_lower c then ascii_of_nat (code c - 32) else c.

(** [s.upper()] *)
Fixpoint upper (s : string) : string :=
  match s with
  | EmptyString => EmptyString
  | String c t => String (upper_char c) (upper t)
  end.

Definition is_empty (s : string) : bool :=
  match s with
  | EmptyString => true
  | String _ _ => false
  end.

Fixpoint lstrip (s : string) : string :=
  match s with
  | EmptyString => EmptyString
  | String c t => if is_space c then lstrip t else s
  end.

Fixpoint rstrip (s : string) : string :=
  match s with
  | EmptyString => EmptyString
  | String c t =>
      let t' := rstrip t in
      if is_space c && is_empty t' then EmptyString else String c t'
  end.

(** [s.strip()] *)
Definition strip (s : string) : string := rstrip (lstrip s).

(** [s.split(sep)] for a one-character separator: always at least one
    piece, empty pieces kept. *)
Fixpoint split (sep : ascii) (s : string) : list string :=
  match s with
  | EmptyString => [EmptyString]
  | String c t =>
      if Ascii.eqb c sep then EmptyString :: split sep t
      else match split sep t with
           | h :: r => String c h :: r
           | [] => [String c EmptyString]
           end
  end.

Fixpoint all (p : ascii -> bool) (s : string) : bool :=
  match s with
  | EmptyString => true
  | String c t => p c && all p t
  end.

Fixpoint count (p : ascii -> bool) (s : string) : nat :=
  match s with
  | EmptyString => O
  | String c t => ((if p c then 1 else 0) + count p t)%nat
  end.

Fixpoint prefixb (p s : string) : bool :=
  match p, s with
  | EmptyString, _ => true
  | String a p', String b s' => Ascii.eqb a b && prefixb p' s'
  | String _ _, EmptyString => false
  end.

Fixpoint take (n : nat) (s : string) : string :=
  match n, s with
  | S n', String c t => String c (take n' t)
  | _, _ => EmptyString
  end.

Fixpoint drop (n : nat) (s : string) : string :=
  match n, s with
  | S n', String _ t => drop n' t
  | _, _ => s
  end.

(** Number of leading characters that satisfy [p]. *)
Fixpoint span_len (p : ascii -> bool) (s : string) : nat :=
  match s with
  | EmptyString => O
  | String c t => if p c then S (span_len p t) else O
  end.

(** Decimal digits of a string, most significant first; [None] when a
    character is not a digit.  [acc] is the value read so far. *)
Fixpoint digits_value (acc : Z) (s : string) : option Z :=
  match s with
  | EmptyString => Some acc
  | String c t =>
      if is_digit c then digits_value (10 * acc + Z.of_nat (code c - 48)) t
      else None
  end.

Definition digit_char (d : Z) : ascii := ascii_of_nat (48 + Z.to_nat d).

(** Decimal rendering of a non-negative integer, prepended to [acc]. *)
Fixpoint digits_of (fuel : nat) (n : Z) (acc : string) : string :=
  let acc' := String (digit_char (n mod 10)) acc in
  match fuel with
  | O => acc'
  | S f => if n <? 10 then acc' else digits_of f (n / 10) acc'
  end.

(** The decimal text of an integer: a minus sign for a negative one, then
    its digits. *)
Definition of_int (n : Z) : string :=
  if n <? 0
  then String "-" (digits_of (Z.to_nat (Z.log2 (- n))) (- n) EmptyString)
  else digits_of (Z.to_nat (Z.log2 n)) n EmptyString.

(** CPython writes no integer of more than 4300 digits (the default of
    [sys.set_int_max_str_digits]): the first integer it refuses. *)
Definition int_limit : Z := 10 ^ 4300.

(** [str(n)], that is [f"{n}"], for an integer: its decimal text, or
    ValueError beyond the limit of digits. *)
Definition str_int (n : Z) : result string :=
  if int_limit <=? Z.abs n then Raise ValueError else Ok (of_int n).

(** [f"{n:02d}"] for a non-negative integer: at least two digits. *)
Definition of_int_02d (n : Z) : string :=
  if n <? 10 then String "0" (of_int n) else of_int n.

End Str.

(** ** The [re] matcher

    A backtracking matcher in continuation-passing style, with the
    priorities of Python's [re]: alternatives left to right, repetitions
    greedy.  A state is the text still to read, the number of characters
    already read, and the groups captured so far. *)

Module Re.

Inductive regex : Type :=
| Eps
| Chr (p : ascii -> bool)
| Seq (r1 r2 : regex)
| Alt (r1 r2 : regex)
| Star (r : regex)
| Repeat (lo hi : nat) (r : regex)
| Group (i : nat) (r : regex)
| Bol
| Eol.

Record mstate : Type := MState {
  pos : nat;
  rest : string;
  groups : list (nat * string)
}.

Definition advance (st : mstate) (t : string) : mstate :=
  MState (S (pos st)) t (groups st).

Definition capture (i : nat) (st st' : mstate) : mstate :=
  MState (pos st') (rest st')
         ((i, Str.take (pos st' - pos st) (rest st)) :: groups st').

(** [$] without MULTILINE: the end of the text, or just before a newline
    that is its last character. *)
Definition at_eol (s : string) : bool :=
  match s with
  | EmptyString => true
  | String c EmptyString => Ascii.eqb c "010"%char
  | _ => false
  end.

Definition orelse {A} (x y : option A) : option A :=
  match x with
  | Some a => Some a
  | None => y
  end.

(** The greedy loop of [r*]: one more round of [m] first, provided it
    reads something, then the continuation. *)
Fixpoint star_loop {A} (m : mstate -> (mstate -> option A) -> option A)
  (k : mstate -> option A) (fuel : nat) (st0 : mstate) : option A :=
  match fuel with
  | O => k st0
  | S fuel' =>
      orelse
        (m st0 (fun st1 =>
           if (pos st0 <? pos st1)%nat then star_loop m k fuel' st1 else None))
        (k st0)
  end.

(** The greedy loop of [r{lo,hi}]. *)
Fixpoint rep_loop {A} (m : mstate -> (mstate -> option A) -> option A)
  (k : mstate -> option A) (lo hi : nat) (st0 : mstate) : option A :=
  match hi with
  | O => match lo with O => k st0 | S _ => None end
  | S hi' =>
      orelse
        (m st0 (fun st1 => rep_loop m k (Nat.pred lo) hi' st1))
        (match lo with O => k st0 | S _ => None end)
  end.

Fixpoint exec {A} (r : regex) (st : mstate) (k : mstate -> option A)
  {struct r} : option A :=
  match r with
  | Eps => k st
  | Chr p =>
      match rest st with
      | String c t => if p c then k (advance st t) else None
      | EmptyString => None
      end
  | Seq r1 r2 => exec r1 st (fun st1 => exec r2 st1 k)
  | Alt r1 r2 => orelse (exec r1 st k) (exec r2 st k)
  | Star r1 => star_loop (exec r1) k (String.length (rest st)) st
  | Repeat lo hi r1 => rep_loop (exec r1) k lo hi st
  | Group i r1 => exec r1 st (fun st1 => k (capture i st st1))
  | Bol => if (pos st =? 0)%nat then k st else None
  | Eol => if at_eol (rest st) then k st else None
  end.

Definition lit (c : ascii) : regex := Chr (Ascii.eqb c).

Fixpoint text (s : string) : regex :=
  match s with
  | EmptyString => Eps
  | String c EmptyString => lit c
  | String c t => Seq (lit c) (text t)
  end.

Definition Plus (r : regex) : regex := Seq r (Star r).

(** [re.match(r, s)]: anchored at the start of [s]; the groups of the
    first match in priority order. *)
Definition rmatch (r : regex) (s : string) : option (list (nat * string)) :=
  exec r (MState 0 s []) (fun st => Some (groups st)).

Fixpoint group (i : nat) (gs : list (nat * string)) : string :=
  match gs with
  | [] => EmptyString
  | (j, s) :: gs' => if (i =? j)%nat then s else group i gs'
  end.

End Re.

(** ** [int(...)] on the pieces of a matched address

    [int] skips surrounding blanks and then reads decimal digits.  The
    other spellings [int] accepts (a sign, underscores between digits)
    need a character that the address pattern excludes. *)

Definition int_of_str (s : string) : result Z :=
  let t := Str.strip s in
  if Str.is_empty t then Raise ValueError
  else match Str.digits_value 0 t with
       | Some n => Ok n
       | None => Raise ValueError
       end.

Fixpoint map_result {A B} (f : A -> result B) (l : list A) : result (list B) :=
  match l with
  | [] => Ok []
  | a :: l' => b <- f a ;; bs <- map_result f l' ;; Ok (b :: bs)
  end.

(** ** [is_private_ip] *)

(** [r'^(\d{1,3}\.){3}\d{1,3}$'] *)
Definition ip_pattern : Re.regex :=
  Re.Seq Re.Bol
    (Re.Seq (Re.Repeat 3 3
               (Re.Group 1 (Re.Seq (Re.Repeat 1 3 (Re.Chr Str.is_digit))
                                   (Re.lit "."))))
       (Re.Seq (Re.Repeat 1 3 (Re.Chr Str.is_digit)) Re.Eol)).

Definition is_private_ip (ip : string) : result bool :=
  match Re.rmatch ip_pattern ip with
  | None => Ok false
  | Some _ =>
      parts <- map_result int_of_str (Str.split "." ip) ;;
      let p0 := nth 0 parts 0 in
      let p1 := nth 1 parts 0 in
      if p0 =? 10 then Ok true
      else if (p0 =? 172) && (16 <=? p1) && (p1 <=? 31) then Ok true
      else if (p0 =? 192) && (p1 =? 168) then Ok true
      else Ok false
  end.

(** ** Python's [float]

    A [float] is an IEEE 754 binary64 number.  The script builds floats
    only from unsigned literals, from quotients of positive integers and
    from products of those, so the model keeps the non-negative ones:
    [Finite m e] is [m * 2^e] with [0 <= m < 2^53], next to infinity and
    NaN.
    Every operation rounds its exact result to nearest, ties to even, with
    53 bits of precision, gradual underflow below [2^-1022] and overflow to
    infinity from [2^1024]. *)

Module Float.

Inductive float : Type :=
| Finite (m e : Z)
| Infinity
| NaN.

(** [a / b] rounded to the nearest integer, ties to even ([0 <= a], [0 < b]). *)
Definition rhe (a b : Z) : Z :=
  let q := a / b in
  let r := a mod b in
  if 2 * r <? b then q
  else if b <? 2 * r then q + 1
  else if Z.even q then q else q + 1.

(** [floor (log2 (n / d))] for [0 < n] and [0 < d]. *)
Definition ilog2 (n d : Z) : Z :=
  let g := Z.log2 n - Z.log2 d in
  if (if 0 <=? g then d * 2 ^ g <=? n else d <=? n * 2 ^ (- g))
  then g else g - 1.

(** The double nearest to the rational [n / d] ([0 <= n], [0 < d]): the
    quotient is rounded at the exponent [e] of its last significant bit,
    which is 52 below its leading bit and never below -1074; a mantissa
    rounded up to [2^53] is renormalised. *)
Definition round_ratio (n d : Z) : float :=
  if n =? 0 then Finite 0 0
  else
    let e := Z.max (ilog2 n d - 52) (-1074) in
    let m := if 0 <=? e then rhe n (d * 2 ^ e) else rhe (n * 2 ^ (- e)) d in
    let (m, e) := if m =? 2 ^ 53 then (2 ^ 52, e + 1) else (m, e) in
    if 1024 <=? Z.log2 m + e then Infinity else Finite m e.

Definition of_dyadic (m e : Z) : float :=
  if 0 <=? e then round_ratio (m * 2 ^ e) 1 else round_ratio m (2 ^ (- e)).

(** [float(n)] for an integer [0 <= n], as the operand conversion of
    [float * int] does it. *)
Definition of_int (n : Z) : result float :=
  match round_ratio n 1 with
  | Infinity => Raise OverflowError
  | f => Ok f
  end.

(** [a / b] on integers ([0 <= a], [0 < b]): the quotient correctly
    rounded, OverflowError when it is too large for a float. *)
Definition truediv (a b : Z) : result float :=
  match round_ratio a b with
  | Infinity => Raise OverflowError
  | f => Ok f
  end.

(** [x * y] on floats; overflow gives infinity, not an exception. *)
Definition mul (x y : float) : float :=
  match x, y with
  | NaN, _ | _, NaN => NaN
  | Finite m1 e1, Finite m2 e2 => of_dyadic (m1 * m2) (e1 + e2)
  | Infinity, Finite m _ | Finite m _, Infinity =>
      if m =? 0 then NaN else Infinity
  | Infinity, Infinity => Infinity
  end.

(** [int(x)]: truncation toward zero. *)
Definition to_int (x : float) : result Z :=
  match x with
  | Finite m e => Ok (if 0 <=? e then m * 2 ^ e else m / 2 ^ (- e))
  | Infinity => Raise OverflowError
  | NaN => Raise ValueError
  end.

(** [float(s)] on a token of the class [[0-9.]]: digits with at most one
    dot and at least one digit; the value is the decimal correctly
    rounded.  The other spellings [float] accepts (sign, exponent, inf,
    nan, underscores, blanks) need a character outside that class. *)
Definition of_str (s : string) : result float :=
  match Str.split "." s with
  | [ip] =>
      if Str.is_empty ip then Raise ValueError
      else match Str.digits_value 0 ip with
           | Some n => Ok (round_ratio n 1)
           | None => Raise ValueError
           end
  | [ip; fp] =>
      if Str.is_empty ip && Str.is_empty fp then Raise ValueError
      else match Str.digits_value 0 (ip ++ fp) with
           | Some n => Ok (round_ratio n (10 ^ Z.of_nat (String.length fp)))
           | None => Raise ValueError
           end
  | _ => Raise ValueError
  end.

(** [f"{x:.2f}"]: the exact value rounded to hundredths, ties to even. *)
Definition format_2f (x : float) : string :=
  match x with
  | Finite m e =>
      let n := if 0 <=? e then 100 * m * 2 ^ e else rhe (100 * m) (2 ^ (- e)) in
      Str.of_int (n / 100) ++ "." ++ Str.of_int_02d (n mod 100)
  | Infinity => "inf"
  | NaN => "nan"
  end.

End Float.

(** ** [convert_bandwidth_to_bytes] *)

Definition is_digit_or_dot (c : ascii) : bool :=
  Str.is_digit c || Ascii.eqb c ".".

(** [r'([\d\.]+)\s*(TB|GB|MB|KB|B)'] *)
Definition bandwidth_pattern : Re.regex :=
  Re.Seq (Re.Group 1 (Re.Plus (Re.Chr is_digit_or_dot)))
    (Re.Seq (Re.Star (Re.Chr Str.is_space))
       (Re.Group 2
          (Re.Alt (Re.text "TB")
             (Re.Alt (Re.text "GB")
                (Re.Alt (Re.text "MB")
                   (Re.Alt (Re.text "KB") (Re.text "B"))))))).

(** [int(value * n)] for a float [value] and an integer [n]. *)
Definition int_of_scaled (value : Float.float) (n : Z) : result Z :=
  f <- Float.of_int n ;;
  Float.to_int (Float.mul value f).

Definition convert_bandwidth_to_bytes (bandwidth_str : string) : result Z :=
  let bandwidth_str := Str.upper (Str.strip bandwidth_str) in
  match Re.rmatch bandwidth_pattern bandwidth_str with
  | Some m =>
      value <- Float.of_str (Re.group 1 m) ;;
      let unit := Re.group 2 m in
      if String.eqb unit "KB" then int_of_scaled value 1024
      else if String.eqb unit "MB" then int_of_scaled value (1024 ^ 2)
      else if String.eqb unit "GB" then int_of_scaled value (1024 ^ 3)
      else if String.eqb unit "TB" then int_of_scaled value (1024 ^ 4)
      else if String.eqb unit "B" then Float.to_int value
      else Ok 0
  | None => Ok 0
  end.

(** ** [format_bandwidth] *)

Definition format_bandwidth (size_in_bytes : Z) : result string :=
  if 1024 ^ 4 <=? size_in_bytes then
    q <- Float.truediv size_in_bytes (1024 ^ 4) ;;
    Ok (Float.format_2f q ++ " TB")
  else if 1024 ^ 3 <=? size_in_bytes then
    q <- Float.truediv size_in_bytes (1024 ^ 3) ;;
    Ok (Float.format_2f q ++ " GB")
  else if 1024 ^ 2 <=? size_in_bytes then
    q <- Float.truediv size_in_bytes (1024 ^ 2) ;;
    Ok (Float.format_2f q ++ " MB")
  else if 1024 <=? size_in_bytes then
    q <- Float.truediv size_in_bytes 1024 ;;
    Ok (Float.format_2f q ++ " KB")
  else
    s <- Str.str_int size_in_bytes ;;
    Ok (s ++ " B").

(** ** The outside world

    What the script does to the outside is recorded as a trace of events,
    in the order they happen.  A computation yields its trace and either a
    value or the exception that stopped it. *)

Definition table : Type := list (list string).

Inductive event : Type :=
| Get (url : string)                 (* requests.get(url) *)
| Print (line : string)              (* print(...) *)
| WriteCsv (rows : list (list string)).  (* the rows written to the CSV file *)

Definition M (A : Type) : Type := (list event * result A)%type.

Definition ret {A} (a : A) : M A := ([], Ok a).

Definition emit (e : event) : M unit := ([e], Ok tt).

Definition lift {A} (r : result A) : M A := ([], r).

Definition bindM {A B} (m : M A) (f : A -> M B) : M B :=
  match m with
  | (t, Ok a) => let (t', r) := f a in ((t ++ t')%list, r)
  | (t, Raise e) => (t, Raise e)
  end.

Notation "x <~ c1 ;; c2" := (bindM c1 (fun x => c2))
  (at level 61, c1 at next level, right associativity).
Notation "c1 ;;; c2" := (bindM c1 (fun _ => c2))
  (at level 61, right associativity).

(** The answer of the statistics server to one GET, as the script sees
    it: the request fails ([requests.get] raises, or [raise_for_status]
    does on an error status), or a page arrives, in which
    [soup.find('table', {'border': '1'})] finds a table or not.  A table is
    the list of its [tr] rows, each the list of the texts of its [td]
    cells. *)
Inductive response : Type :=
| Failed
| Page (tbl : option table).

(** ** [parse_awstats_monthly_page] *)

(** The loop over the rows, [total] being the sum so far. *)
Fixpoint sum_rows (rows : table) (total : Z) : result Z :=
  match rows with
  | [] => Ok total
  | cols :: rows' =>
      if (List.length cols <? 6)%nat then sum_rows rows' total
      else
        let ip := Str.strip (nth 0 cols "") in
        private <- is_private_ip ip ;;
        if negb private && negb (String.eqb ip "Others")
        then sum_rows rows' total
        else
          let bandwidth_str := Str.strip (nth 5 cols "") in
          bandwidth_in_bytes <- convert_bandwidth_to_bytes bandwidth_str ;;
          sum_rows rows' (total + bandwidth_in_bytes)
  end.

(** The part of the function after the page has been fetched. *)
Definition extract_private_bandwidth (tbl : option table) : M Z :=
  match tbl with
  | None =>
      emit (Print "Unable to find the data table. Adjust your selector.") ;;;
      ret 0
  | Some rows => lift (sum_rows (skipn 2 rows) 0)
  end.

Section Crawler.

Variable server : string -> response.

Definition parse_awstats_monthly_page (url : string) : M Z :=
  emit (Get url) ;;;
  match server url with
  | Failed => lift (Raise RequestException)
  | Page tbl => extract_private_bandwidth tbl
  end.

(** ** [fetch_and_save_monthly_data] *)

(** The dictionary [monthly_bandwidth]: keys in insertion order; storing
    under a key already present replaces its value in place. *)
Definition dict : Type := list (string * Z).

Fixpoint dict_set (k : string) (v : Z) (d : dict) : dict :=
  match d with
  | [] => [(k, v)]
  | (k', v') :: d' =>
      if String.eqb k' k then (k, v) :: d' else (k', v') :: dict_set k v d'
  end.

(** The key [f"{year}-{month:02d}"] of a period.  The year is written with
    [Str.of_int]: years are taken within the limit of digits of
    [Str.str_int]. *)
Definition period_key (year month : Z) : string :=
  Str.of_int year ++ "-" ++ Str.of_int_02d month.

Definition period_url (year month : Z) : string :=
  "https://glua.ua.pt/awstats/cgi-bin/awstats.pl?databasebreak=month&month="
  ++ Str.of_int_02d month ++ "&year=" ++ Str.of_int year
  ++ "&config=http&framename=mainright&output=urldetail".

(** The body of the inner loop for one period. *)
Definition process_month (year month : Z) (monthly_bandwidth : dict) : M dict :=
  let month_str := Str.of_int_02d month in
  let url := period_url year month in
  emit (Print ("Processing " ++ Str.of_int year ++ "-" ++ month_str ++ "...")) ;;;
  bandwidth_in_bytes <~ parse_awstats_monthly_page url ;;
  formatted_bandwidth <~ lift (format_bandwidth bandwidth_in_bytes) ;;
  emit (Print ("Total bandwidth for " ++ Str.of_int year ++ "-" ++ month_str
               ++ ": " ++ formatted_bandwidth)) ;;;
  ret (dict_set (Str.of_int year ++ "-" ++ month_str) bandwidth_in_bytes
         monthly_bandwidth).

(** [range(lo, hi)] as a list: [lo], [lo + 1], ..., [hi - 1]. *)
Definition range (lo hi : Z) : list Z :=
  map (fun i => lo + Z.of_nat i) (seq 0 (Z.to_nat (hi - lo))).

Section Loops.

Variables start_year start_month end_year end_month : Z.

(** [for month in range(1, 13)], with its [continue] and its [break]. *)
Fixpoint month_loop (year : Z) (months : list Z) (monthly_bandwidth : dict)
  : M dict :=
  match months with
  | [] => ret monthly_bandwidth
  | month :: months' =>
      if (year =? start_year) && (month <? start_month)
      then month_loop year months' monthly_bandwidth
      else if (year =? end_year) && (end_month <? month)
      then ret monthly_bandwidth
      else
        d <~ process_month year month monthly_bandwidth ;;
        month_loop year months' d
  end.

(** [for year in range(start_year, end_year + 1)] *)
Fixpoint year_loop (years : list Z) (monthly_bandwidth : dict) : M dict :=
  match years with
  | [] => ret monthly_bandwidth
  | year :: years' =>
      d <~ month_loop year (range 1 13) monthly_bandwidth ;;
      year_loop years' d
  end.

(** The rows of the CSV file: the header, then a key and a total per
    entry.  A total that was formatted is far below the limit of digits of
    [Str.str_int], and is written with [Str.of_int]. *)
Definition csv_rows (monthly_bandwidth : dict) : list (list string) :=
  ["Year-Month"; "Bandwidth (Bytes)"]
  :: map (fun kv => [fst kv; Str.of_int (snd kv)]) monthly_bandwidth.

Definition fetch_and_save_monthly_data : M dict :=
  monthly_bandwidth <~ year_loop (range start_year (end_year + 1)) [] ;;
  emit (WriteCsv (csv_rows monthly_bandwidth)) ;;;
  ret monthly_bandwidth.

End Loops.

End Crawler.

Definition nl : string := String "010" EmptyString.

(** * Notions used in the statements *)

(** ** Bandwidth literals *)

(** The units, in the order of the alternation of the pattern. *)
Definition units : list string := ["TB"; "GB"; "MB"; "KB"; "B"].

(** The first unit that [s] starts with. *)
Definition find_unit (s : string) : option string :=
  find (fun u => Str.prefixb u s) units.

(** What the pattern finds at the start of [s]: the longest run of digits
    and dots, blanks, and the first unit that fits. *)
Definition scan_bandwidth (s : string) : option (string * string) :=
  let j := Str.span_len is_digit_or_dot s in
  if (j =? 0)%nat then None
  else
    let r := Str.drop j s in
    match find_unit (Str.drop (Str.span_len Str.is_space r) r) with
    | Some u => Some (Str.take j s, u)
    | None => None
    end.

(** The conversion once the number token and the unit are known. *)
Definition convert_parts (num unit : string) : result Z :=
  value <- Float.of_str num ;;
  if String.eqb unit "KB" then int_of_scaled value 1024
  else if String.eqb unit "MB" then int_of_scaled value (1024 ^ 2)
  else if String.eqb unit "GB" then int_of_scaled value (1024 ^ 3)
  else if String.eqb unit "TB" then int_of_scaled value (1024 ^ 4)
  else if String.eqb unit "B" then Float.to_int value
  else Ok 0.

(** ** Addresses *)

(** Length of the leading run of at most three digits. *)
Definition octet_len (s : string) : nat :=
  Nat.min 3 (Str.span_len Str.is_digit s).

(** One to three digits and a dot: what is left after them. *)
Definition octet_dot (s : string) : option string :=
  let j := octet_len s in
  if (1 <=? j)%nat then
    match Str.drop j s with
    | String c r => if Ascii.eqb "." c then Some r else None
    | EmptyString => None
    end
  else None.

(** One to three digits and the end of the text as [$] sees it. *)
Definition last_octet (s : string) : bool :=
  let j := octet_len s in
  (1 <=? j)%nat && Re.at_eol (Str.drop j s).

(** Three times digits and a dot, then digits and the end of the text. *)
Definition ip_shape (s : string) : bool :=
  match octet_dot s with
  | Some r1 =>
      match octet_dot r1 with
      | Some r2 =>
          match octet_dot r2 with
          | Some r3 => last_octet r3
          | None => false
          end
      | None => false
      end
  | None => false
  end.

(** Whether an optional value is present. *)
Definition is_some {A} (o : option A) : bool :=
  match o with
  | Some _ => true
  | None => false
  end.

(** One to three decimal digits. *)
Definition octet_text (a : string) : bool :=
  (1 <=? String.length a)%nat && (String.length a <=? 3)%nat
  && Str.all Str.is_digit a.

(** Four groups joined by dots. *)
Definition quad (a b c d : string) : string :=
  a ++ "." ++ b ++ "." ++ c ++ "." ++ d.

(** Four dot-separated groups of one to three digits, and nothing else. *)
Definition dotted_quad (s : string) : bool :=
  match Str.split "." s with
  | [a; b; c; d] => octet_text a && octet_text b && octet_text c && octet_text d
  | _ => false
  end.

(** The number a group of digits spells. *)
Definition number (a : string) : Z :=
  match Str.digits_value 0 a with
  | Some n => n
  | None => 0
  end.

(** A well-formed IPv4 address: four dot-separated decimal octets, each
    in the range 0..255. *)
Definition well_formed_ipv4 (s : string) : bool :=
  match Str.split "." s with
  | [a; b; c; d] =>
      forallb (fun x => negb (Str.is_empty x) && Str.all Str.is_digit x
                        && (number x <=? 255)) [a; b; c; d]
  | _ => false
  end.

(** The private ranges, on the first two octets: 10/8, 172.16/12,
    192.168/16. *)
Definition private_octets (p0 p1 : Z) : bool :=
  (p0 =? 10) || ((p0 =? 172) && (16 <=? p1) && (p1 <=? 31))
  || ((p0 =? 192) && (p1 =? 168)).

(** The last character is a line feed. *)
Fixpoint ends_with_newline (s : string) : bool :=
  match s with
  | EmptyString => false
  | String c EmptyString => Ascii.eqb c "010"
  | String _ t => ends_with_newline t
  end.

(** [is_private_ip] as a plain boolean (it never raises). *)
Definition is_private (ip : string) : bool :=
  match is_private_ip ip with
  | Ok b => b
  | Raise _ => false
  end.

(** ** Rows of the table *)

(** The address-or-category token of a row, and its bandwidth literal. *)
Definition token (cols : list string) : string := Str.strip (nth 0 cols "").

Definition bandwidth_cell (cols : list string) : string :=
  Str.strip (nth 5 cols "").

(** The rows that count: six cells at least, and a token that is the
    word Others or a private address. *)
Definition included (cols : list string) : bool :=
  (6 <=? List.length cols)%nat
  && (String.eqb (token cols) "Others" || is_private (token cols)).

(** The sum of a list of integers. *)
Definition zsum (l : list Z) : Z := fold_right Z.add 0 l.

(** ** Periods *)

(** The periods the loops visit, as the loops find them. *)
Fixpoint months_of (start_year start_month end_year end_month year : Z)
  (months : list Z) : list (Z * Z) :=
  match months with
  | [] => []
  | month :: months' =>
      if (year =? start_year) && (month <? start_month)
      then months_of start_year start_month end_year end_month year months'
      else if (year =? end_year) && (end_month <? month)
      then []
      else (year, month)
           :: months_of start_year start_month end_year end_month year months'
  end.

(** The periods of the two nested loops, in the order of the visits. *)
Definition loop_periods (start_year start_month end_year end_month : Z)
  : list (Z * Z) :=
  flat_map (fun year => months_of start_year start_month end_year end_month
                          year (range 1 13))
    (range start_year (end_year + 1)).

(** One loop over a list of periods. *)
Fixpoint process_periods (server : string -> response) (ps : list (Z * Z))
  (monthly_bandwidth : dict) : M dict :=
  match ps with
  | [] => ret monthly_bandwidth
  | (year, month) :: ps' =>
      d <~ process_month server year month monthly_bandwidth ;;
      process_periods server ps' d
  end.

(** The month after [(year, month)]. *)
Definition next_period (p : Z * Z) : Z * Z :=
  let (y, m) := p in
  if m =? 12 then (y + 1, 1) else (y, m + 1).

(** [n] consecutive calendar months, the first being [p]. *)
Fixpoint periods_from (n : nat) (p : Z * Z) : list (Z * Z) :=
  match n with
  | O => []
  | S n' => p :: periods_from n' (next_period p)
  end.

(** Every calendar month from [(start_year, start_month)] to
    [(end_year, end_month)], both included, in calendar order. *)
Definition period_range (start_year start_month end_year end_month : Z)
  : list (Z * Z) :=
  periods_from
    (Z.to_nat (12 * (end_year - start_year) + (end_month - start_month) + 1))
    (start_year, start_month).

(** ** Scaling and rendering *)

(** [floor (m * 2^e * s)]: the value of a double, scaled by an integer and
    truncated. *)
Definition scaled_floor (m e s : Z) : Z :=
  if 0 <=? e then m * 2 ^ e * s else m * s / 2 ^ (- e).

(** The power of 1024 a unit stands for. *)
Definition unit_exponent (u : string) : Z :=
  if String.eqb u "KB" then 1
  else if String.eqb u "MB" then 2
  else if String.eqb u "GB" then 3
  else if String.eqb u "TB" then 4
  else 0.

(** Two decimal digits, zero-padded. *)
Definition two_digits (m : Z) : string :=
  String (Str.digit_char (m / 10)) (String (Str.digit_char (m mod 10)) "").

(** The text of a double rounded to hundredths: [n / 100] with two
    decimals. *)
Definition render_hundredths (n : Z) : string :=
  Str.of_int (n / 100) ++ "." ++ two_digits (n mod 100).

(** The unit [format_bandwidth] picks: thresholds from the largest down. *)
Definition unit_of (x : Z) : string :=
  if 1024 ^ 4 <=? x then "TB"
  else if 1024 ^ 3 <=? x then "GB"
  else if 1024 ^ 2 <=? x then "MB"
  else if 1024 <=? x then "KB"
  else "B".

(** Formatting, then parsing what was formatted. *)
Definition round_trip (x : Z) : result Z :=
  s <- format_bandwidth x ;; convert_bandwidth_to_bytes s.

(** ** Servers *)


(** The key of a period. *)
Definition key_of (p : Z * Z) : string := period_key (fst p) (snd p).

(** A server on which the request for one period fails, and every other
    page comes without a table. *)
Definition failing_at (year month : Z) (url : string) : response :=
  if String.eqb url (period_url year month) then Failed else Page None.

(** ** Decimals *)

(** The decimal a number token spells, as a fraction: the integer of its
    digits over the power of ten of its decimals.  Tokens with more than
    one dot, or with no digit, spell none. *)
Definition decimal_of (num : string) : option (Z * Z) :=
  match Str.split "." num with
  | [ip] =>
      if Str.is_empty ip then None
      else match Str.digits_value 0 ip with
           | Some n => Some (n, 1)
           | None => None
           end
  | [ip; fp] =>
      if Str.is_empty ip && Str.is_empty fp then None
      else match Str.digits_value 0 (ip ++ fp) with
           | Some n => Some (n, 10 ^ Z.of_nat (String.length fp))
           | None => None
           end
  | _ => None
  end.

(** The outcome of the conversion of the decimal [n / d] with the scale
    [S], against the decimal itself.  A result [r] is the double nearest
    to [n / d] times [S], truncated; it is the floor of [n * S / d] up to
    a relative error of [2^-53], and that floor when [n / d] is a double
    [m * 2^e].  An exception is OverflowError, with a product of [2^1023]
    at least. *)
Definition near_floor (n d S : Z) (outcome : result Z) : Prop :=
  match outcome with
  | Ok r =>
      (exists m e,
          Float.round_ratio n d = Float.Finite m e /\ r = scaled_floor m e S)
      /\ 2 ^ 53 * (r * d - n * S) <= d * (r + 1)
      /\ 2 ^ 53 * (n * S - (r + 1) * d) < d * (r + 1)
      /\ (forall m e,
             0 < m < 2 ^ 53 -> -1074 <= e ->
             n * 2 ^ 1074 = d * (m * 2 ^ (e + 1074)) ->
             r = n * S / d)
  | Raise e => e = OverflowError /\ 2 ^ 1023 * d <= n * S
  end.

(** ** Notions of the further properties *)

(** The dots of a text. *)
Definition dots (s : string) : nat :=
  Str.count (fun c => Ascii.eqb c ".") s.

(** Two outcomes agree: the same total, or an exception on both sides. *)
Definition same_total (r r' : result Z) : Prop :=
  match r, r' with
  | Ok a, Ok b => a = b
  | Raise _, Raise _ => True
  | _, _ => False
  end.

(** The URL of a period. *)
Definition url_of (p : Z * Z) : string := period_url (fst p) (snd p).

(** The total of the page of a period. *)
Definition page_total (server : string -> response) (p : Z * Z) : result Z :=
  snd (parse_awstats_monthly_page server (url_of p)).

(** The URLs requested in a trace, in order. *)
Definition requested (t : list event) : list string :=
  flat_map (fun ev => match ev with Get u => [u] | _ => [] end) t.

(** A server whose every page is the same table. *)
Definition same_page (rows : table) (url : string) : response :=
  Page (Some rows).

(** * Properties *)

(** ** The matcher on character classes

    When the continuation cannot succeed right before a character of the
    class, giving characters back never helps: the greedy choice is the
    only one that can match. *)

Module ReFacts.
Import Re.

Lemma orelse_none_r {A} (x : option A) : orelse x None = x.
Proof. destruct x; reflexivity. Qed.

Section Equations.
Context {A : Type} (st : mstate) (k : mstate -> option A).

Lemma exec_Seq r1 r2 :
  exec (Seq r1 r2) st k = exec r1 st (fun st1 => exec r2 st1 k).
Proof. reflexivity. Qed.

Lemma exec_Group i r :
  exec (Group i r) st k = exec r st (fun st1 => k (capture i st st1)).
Proof. reflexivity. Qed.

Lemma exec_Alt r1 r2 :
  exec (Alt r1 r2) st k = orelse (exec r1 st k) (exec r2 st k).
Proof. reflexivity. Qed.

Lemma exec_Repeat lo hi r :
  exec (Repeat lo hi r) st k = rep_loop (exec r) k lo hi st.
Proof. reflexivity. Qed.

Lemma exec_Bol :
  exec Bol st k = if (pos st =? 0)%nat then k st else None.
Proof. reflexivity. Qed.

Lemma exec_Eol :
  exec Eol st k = if at_eol (rest st) then k st else None.
Proof. reflexivity. Qed.

End Equations.

Lemma exec_Chr {A} p n s g (k : mstate -> option A) :
  exec (Chr p) (MState n s g) k
  = match s with
    | String c t => if p c then k (MState (S n) t g) else None
    | EmptyString => None
    end.
Proof. reflexivity. Qed.

Definition blocked {A} (p : ascii -> bool) (k : mstate -> option A) : Prop :=
  forall n c t g, p c = true -> k (MState n (String c t) g) = None.

Lemma star_loop_class {A} (p : ascii -> bool) (k : mstate -> option A) :
  blocked p k ->
  forall fuel s n g,
    (String.length s <= fuel)%nat ->
    star_loop (exec (Chr p)) k fuel (MState n s g)
    = k (MState (n + Str.span_len p s) (Str.drop (Str.span_len p s) s) g).
Proof.
  intros Hk fuel; induction fuel as [|fuel IH]; intros s n g Hlen.
  - destruct s; simpl in Hlen; [|lia].
    simpl. now rewrite Nat.add_0_r.
  - destruct s as [|c t].
    + simpl. now rewrite Nat.add_0_r.
    + simpl. destruct (p c) eqn:Hp.
      * unfold advance; simpl.
        replace (n <? S n)%nat with true by (symmetry; apply Nat.ltb_lt; lia).
        rewrite IH by (simpl in Hlen; lia).
        rewrite Nat.add_succ_r. simpl.
        rewrite (Hk n c t g Hp). apply orelse_none_r.
      * simpl. now rewrite Nat.add_0_r.
Qed.

Lemma exec_star_class {A} (p : ascii -> bool) (k : mstate -> option A) :
  blocked p k ->
  forall s n g,
    exec (Star (Chr p)) (MState n s g) k
    = k (MState (n + Str.span_len p s) (Str.drop (Str.span_len p s) s) g).
Proof.
  intros Hk s n g. simpl. now apply star_loop_class.
Qed.

Lemma rep_loop_class {A} (p : ascii -> bool) (k : mstate -> option A) :
  blocked p k ->
  forall hi lo s n g,
    rep_loop (exec (Chr p)) k lo hi (MState n s g)
    = let j := Nat.min hi (Str.span_len p s) in
      if (lo <=? j)%nat then k (MState (n + j) (Str.drop j s) g) else None.
Proof.
  intros Hk hi; induction hi as [|hi IH]; intros lo s n g.
  - simpl. rewrite Nat.add_0_r. destruct lo; reflexivity.
  - destruct s as [|c t].
    + simpl. rewrite Nat.add_0_r. destruct lo; reflexivity.
    + simpl. destruct (p c) eqn:Hp.
      * unfold advance; simpl. rewrite IH. simpl.
        rewrite Nat.add_succ_r.
        destruct lo as [|lo]; simpl.
        -- rewrite (Hk n c t g Hp). apply orelse_none_r.
        -- apply orelse_none_r.
      * simpl. rewrite Nat.add_0_r. destruct lo; reflexivity.
Qed.

End ReFacts.

(** ** The bandwidth pattern, read directly

    [scan_bandwidth] reads a text the way the pattern does when no
    backtracking is needed: the longest run of digits and dots, then
    blanks, then the first unit in the order of the alternation. *)

Module BandwidthPattern.
Import Re ReFacts.

Lemma exec_text {A} (u : string) :
  forall s n g (k : mstate -> option A),
    exec (text u) (MState n s g) k
    = if Str.prefixb u s
      then k (MState (n + String.length u) (Str.drop (String.length u) s) g)
      else None.
Proof.
  induction u as [|a u IH]; intros s n g k.
  - simpl. now rewrite Nat.add_0_r.
  - assert (Hseq : exec (Seq (lit a) (text u)) (MState n s g) k
                   = if Str.prefixb (String a u) s
                     then k (MState (n + String.length (String a u))
                               (Str.drop (String.length (String a u)) s) g)
                     else None).
    { simpl. destruct s as [|c t]; [reflexivity|].
      destruct (Ascii.eqb a c); [|reflexivity].
      unfold advance; simpl. rewrite IH.
      now rewrite Nat.add_succ_r. }
    destruct u as [|b u']; [|exact Hseq].
    simpl. destruct s as [|c t]; [reflexivity|].
    destruct (Ascii.eqb a c); [|reflexivity].
    unfold advance; simpl. rewrite Nat.add_1_r.
    destruct t; reflexivity.
Qed.

Definition unit_alternation : regex :=
  Alt (text "TB") (Alt (text "GB") (Alt (text "MB") (Alt (text "KB") (text "B")))).

(** A class character is no blank and starts no unit. *)
Lemma digit_or_dot_other (c : ascii) :
  is_digit_or_dot c = true ->
  Str.is_space c = false /\
  forall t, find_unit (String c t) = None.
Proof.
  destruct c as [[] [] [] [] [] [] [] []]; intros H; try discriminate H;
    (split; [reflexivity | intros t; reflexivity]).
Qed.

Lemma space_no_unit (c : ascii) :
  Str.is_space c = true -> forall t, find_unit (String c t) = None.
Proof.
  destruct c as [[] [] [] [] [] [] [] []]; intros H; try discriminate H;
    intros t; reflexivity.
Qed.

Lemma exec_units (s : string) (n : nat) (g : list (nat * string))
  (k : mstate -> list (nat * string)) :
  exec unit_alternation (MState n s g) (fun st => Some (k st))
  = match find_unit s with
    | Some u => Some (k (MState (n + String.length u)
                           (Str.drop (String.length u) s) g))
    | None => None
    end.
Proof.
  unfold unit_alternation.
  rewrite !exec_Alt, !exec_text.
  unfold find_unit, units. cbn [find].
  destruct (Str.prefixb "TB" s); [reflexivity|].
  destruct (Str.prefixb "GB" s); [reflexivity|].
  destruct (Str.prefixb "MB" s); [reflexivity|].
  destruct (Str.prefixb "KB" s); [reflexivity|].
  destruct (Str.prefixb "B" s); reflexivity.
Qed.

Lemma take_length_prefix (u s : string) :
  Str.prefixb u s = true -> Str.take (String.length u) s = u.
Proof.
  revert s; induction u as [|a u IH]; intros s H.
  - destruct s; reflexivity.
  - destruct s as [|c t]; [discriminate|].
    simpl in H. apply andb_prop in H as [Hc Ht].
    apply Ascii.eqb_eq in Hc. subst c. simpl. now rewrite IH.
Qed.

Lemma find_unit_prefix (s u : string) :
  find_unit s = Some u -> Str.prefixb u s = true.
Proof.
  unfold find_unit. intros H. now apply find_some in H as [_ H].
Qed.

Lemma take_span_cons (p : ascii -> bool) (c : ascii) (t : string) :
  p c = true ->
  Str.take (S (Str.span_len p t)) (String c t)
  = Str.take (Str.span_len p (String c t)) (String c t).
Proof. intros H. simpl. now rewrite H. Qed.

(** The part of the pattern after the number: [\s*(TB|GB|MB|KB|B)]. *)
Definition unit_part : regex :=
  Seq (Star (Chr Str.is_space)) (Group 2 unit_alternation).

Lemma exec_unit_part (n : nat) (s : string) (g : list (nat * string)) :
  exec unit_part (MState n s g) (fun st => Some (groups st))
  = match find_unit (Str.drop (Str.span_len Str.is_space s) s) with
    | Some u => Some ((2%nat, u) :: g)
    | None => None
    end.
Proof.
  unfold unit_part. rewrite exec_Seq.
  assert (Hgroup : forall n0 s0 g0,
            exec (Group 2 unit_alternation) (MState n0 s0 g0)
              (fun st => Some (groups st))
            = match find_unit s0 with
              | Some u => Some ((2%nat, u) :: g0)
              | None => None
              end).
  { intros n0 s0 g0. rewrite exec_Group.
    rewrite (exec_units _ _ _ (fun st1 => groups (capture 2 _ st1))).
    destruct (find_unit s0) as [u|] eqn:Hu; [|reflexivity].
    unfold capture. cbn [groups pos rest].
    replace (n0 + String.length u - n0)%nat with (String.length u) by lia.
    now rewrite (take_length_prefix _ _ (find_unit_prefix _ _ Hu)). }
  rewrite exec_star_class.
  - apply Hgroup.
  - intros n1 c1 t1 g1 H1. rewrite Hgroup.
    now rewrite (space_no_unit c1 H1).
Qed.

(** The pattern and the direct reading agree on every text. *)
Lemma rmatch_bandwidth (s : string) :
  rmatch bandwidth_pattern s
  = match scan_bandwidth s with
    | Some (num, u) => Some [(2%nat, u); (1%nat, num)]
    | None => None
    end.
Proof.
  unfold rmatch, bandwidth_pattern, Plus.
  change (Seq (Star (Chr Str.is_space)) _) with unit_part.
  rewrite exec_Seq, exec_Group, exec_Seq, exec_Chr.
  unfold scan_bandwidth.
  destruct s as [|c t]; [reflexivity|].
  cbn [Str.span_len].
  destruct (is_digit_or_dot c) eqn:Hc; [|reflexivity].
  cbn [Nat.eqb].
  rewrite exec_star_class.
  - unfold capture. cbn [pos rest groups].
    rewrite exec_unit_part.
    replace (1 + Str.span_len is_digit_or_dot t - 0)%nat
      with (S (Str.span_len is_digit_or_dot t)) by lia.
    destruct (find_unit _) as [u|]; reflexivity.
  - intros n1 c1 t1 g1 H1. unfold capture. cbn [pos rest groups].
    rewrite exec_unit_part.
    destruct (digit_or_dot_other c1 H1) as [Hsp Hun].
    cbn [Str.span_len]. rewrite Hsp. cbn [Str.drop].
    now rewrite Hun.
Qed.

End BandwidthPattern.

(** ** Strings: stripping, upper-casing, scanning *)

Module StrFacts.
Import Str.

Lemma append_assoc (a b c : string) : (a ++ b) ++ c = a ++ b ++ c.
Proof. induction a as [|x a IH]; simpl; [reflexivity | now rewrite IH]. Qed.

Lemma append_nil_r (a : string) : a ++ "" = a.
Proof. induction a as [|x a IH]; simpl; [reflexivity | now rewrite IH]. Qed.

Lemma length_append (a b : string) :
  String.length (a ++ b) = (String.length a + String.length b)%nat.
Proof. induction a as [|x a IH]; simpl; [reflexivity | now rewrite IH]. Qed.

Lemma upper_append (a b : string) : upper (a ++ b) = upper a ++ upper b.
Proof. induction a as [|x a IH]; simpl; [reflexivity | now rewrite IH]. Qed.

Lemma upper_char_class (c : ascii) :
  is_digit_or_dot c = true -> upper_char c = c.
Proof.
  destruct c as [[] [] [] [] [] [] [] []]; intros H; try discriminate H;
    reflexivity.
Qed.

Lemma upper_char_space (c : ascii) : is_space c = true -> upper_char c = c.
Proof.
  destruct c as [[] [] [] [] [] [] [] []]; intros H; try discriminate H;
    reflexivity.
Qed.

Lemma upper_char_not_class (c : ascii) :
  is_digit_or_dot c = false -> is_digit_or_dot (upper_char c) = false.
Proof.
  destruct c as [[] [] [] [] [] [] [] []]; intros H; try discriminate H;
    reflexivity.
Qed.

Lemma class_not_space (c : ascii) :
  is_digit_or_dot c = true -> is_space c = false.
Proof.
  destruct c as [[] [] [] [] [] [] [] []]; intros H; try discriminate H;
    reflexivity.
Qed.

Lemma digit_is_class (c : ascii) : is_digit c = true -> is_digit_or_dot c = true.
Proof. intros H. unfold is_digit_or_dot. now rewrite H. Qed.

Lemma upper_fixed (p : ascii -> bool) (s : string) :
  (forall c, p c = true -> upper_char c = c) ->
  all p s = true -> upper s = s.
Proof.
  intros Hp. induction s as [|c t IH]; simpl; intros H; [reflexivity|].
  apply andb_prop in H as [Hc Ht]. now rewrite (Hp c Hc), IH.
Qed.

Lemma all_append (p : ascii -> bool) (a b : string) :
  all p (a ++ b) = all p a && all p b.
Proof.
  induction a as [|x a IH]; simpl; [reflexivity|].
  now rewrite IH, andb_assoc.
Qed.

(** The leading run of a class stops where its members stop. *)
Lemma span_len_all (p : ascii -> bool) (a r : string) :
  all p a = true ->
  match r with String c _ => p c = false | EmptyString => True end ->
  span_len p (a ++ r) = String.length a.
Proof.
  intros Ha Hr. induction a as [|x a IH]; simpl in *.
  - destruct r as [|c t]; simpl; [reflexivity | now rewrite Hr].
  - apply andb_prop in Ha as [Hx Ha]. now rewrite Hx, IH.
Qed.

Lemma take_append (a r : string) : take (String.length a) (a ++ r) = a.
Proof. induction a as [|x a IH]; simpl; [now destruct r | now rewrite IH]. Qed.

Lemma drop_append (a r : string) : drop (String.length a) (a ++ r) = r.
Proof. induction a as [|x a IH]; simpl; [now destruct r | exact IH]. Qed.

Lemma lstrip_nonspace (c : ascii) (t : string) :
  is_space c = false -> lstrip (String c t) = String c t.
Proof. intros H. simpl. now rewrite H. Qed.

Lemma lstrip_spaces (a r : string) :
  all is_space a = true -> lstrip (a ++ r) = lstrip r.
Proof.
  induction a as [|x a IH]; simpl; intros H; [reflexivity|].
  apply andb_prop in H as [Hx Ha]. now rewrite Hx, IH.
Qed.

(** Stripping on the right leaves everything up to a character that is
    not a blank. *)
Lemma rstrip_append (a : string) (c : ascii) (b : string) :
  is_space c = false ->
  rstrip (a ++ String c b) = a ++ String c (rstrip b).
Proof.
  intros Hc. induction a as [|x a IH].
  - simpl. now rewrite Hc.
  - change (rstrip (String x (a ++ String c b))
            = String x (a ++ String c (rstrip b))).
    cbn [rstrip]. rewrite IH.
    destruct (a ++ String c (rstrip b)) eqn:E.
    + destruct a; discriminate E.
    + cbn [is_empty]. now rewrite andb_false_r.
Qed.

Lemma strip_append (a : string) (c : ascii) (b : string) (x : ascii) (a' : string) :
  a = String x a' -> is_space x = false -> is_space c = false ->
  strip (a ++ String c b) = a ++ String c (rstrip b).
Proof.
  intros -> Hx Hc. unfold strip.
  change (String x a' ++ String c b) with (String x (a' ++ String c b)).
  rewrite lstrip_nonspace by assumption.
  change (String x (a' ++ String c b)) with (String x a' ++ String c b).
  now apply rstrip_append.
Qed.

End StrFacts.

(** ** Bandwidth literals

    A literal is a number token, blanks, a unit in any letter case, and
    whatever follows. *)

Module Literal.
Import Str StrFacts.

Lemma convert_scan (s : string) :
  convert_bandwidth_to_bytes s
  = match scan_bandwidth (upper (strip s)) with
    | Some (num, u) => convert_parts num u
    | None => Ok 0
    end.
Proof.
  unfold convert_bandwidth_to_bytes.
  rewrite BandwidthPattern.rmatch_bandwidth.
  destruct (scan_bandwidth _) as [[num u]|]; reflexivity.
Qed.

Lemma space_not_class (c : ascii) :
  is_space c = true -> is_digit_or_dot c = false.
Proof.
  intros H. destruct (is_digit_or_dot c) eqn:E; [|reflexivity].
  apply class_not_space in E. congruence.
Qed.

Lemma unit_head (U T : string) :
  In U units ->
  exists c r, U ++ T = String c r
              /\ is_digit_or_dot c = false /\ is_space c = false.
Proof.
  unfold units. simpl.
  intros [<-|[<-|[<-|[<-|[<-|[]]]]]]; simpl; eauto.
Qed.

Lemma find_unit_here (U T : string) :
  In U units -> find_unit (U ++ T) = Some U.
Proof.
  unfold units. simpl.
  intros [<-|[<-|[<-|[<-|[<-|[]]]]]]; reflexivity.
Qed.

Lemma scan_literal (num ws U T : string) :
  num <> "" ->
  all is_digit_or_dot num = true ->
  all is_space ws = true ->
  In U units ->
  scan_bandwidth (num ++ ws ++ U ++ T) = Some (num, U).
Proof.
  intros Hne Hnum Hws HU.
  destruct (unit_head U T HU) as (c & r & Hcr & Hc1 & Hc2).
  unfold scan_bandwidth.
  assert (Hspan : span_len is_digit_or_dot (num ++ ws ++ U ++ T)
                  = String.length num).
  { apply span_len_all; [assumption|].
    destruct ws as [|w ws']; simpl.
    - now rewrite Hcr.
    - simpl in Hws. apply andb_prop in Hws as [Hw _].
      now apply space_not_class. }
  rewrite Hspan.
  destruct num as [|x num']; [congruence|].
  cbn [String.length Nat.eqb].
  change (S (String.length num')) with (String.length (String x num')).
  rewrite take_append, drop_append.
  rewrite span_len_all; [| assumption | now rewrite Hcr].
  rewrite drop_append.
  now rewrite find_unit_here.
Qed.

Lemma upper_char_B (c : ascii) :
  upper_char c = "B"%char -> is_space c = false.
Proof.
  intros H. destruct (is_space c) eqn:E; [|reflexivity].
  rewrite (upper_char_space c E) in H. subst c. discriminate E.
Qed.

(** A unit in any letter case ends in a [b] or a [B]. *)
Lemma unit_text_last (u : string) :
  In (upper u) units ->
  exists u0 c, u = u0 ++ String c "" /\ is_space c = false.
Proof.
  unfold units.
  destruct u as [|c1 [|c2 [|c3 u']]]; simpl;
    intros [H|[H|[H|[H|[H|[]]]]]]; try discriminate H.
  - exists "", c1. split; [reflexivity|]. injection H as H. now apply upper_char_B.
  - exists (String c1 ""), c2. split; [reflexivity|].
    injection H as _ H. now apply upper_char_B.
  - exists (String c1 ""), c2. split; [reflexivity|].
    injection H as _ H. now apply upper_char_B.
  - exists (String c1 ""), c2. split; [reflexivity|].
    injection H as _ H. now apply upper_char_B.
  - exists (String c1 ""), c2. split; [reflexivity|].
    injection H as _ H. now apply upper_char_B.
Qed.

(** What the conversion makes of a literal, whatever follows the unit. *)
Lemma convert_literal (num ws u trailing : string) :
  num <> "" ->
  all is_digit_or_dot num = true ->
  all is_space ws = true ->
  In (upper u) units ->
  convert_bandwidth_to_bytes (num ++ ws ++ u ++ trailing)
  = convert_parts num (upper u).
Proof.
  intros Hne Hnum Hws HU.
  rewrite convert_scan.
  destruct (unit_text_last u HU) as (u0 & cb & -> & Hcb).
  destruct num as [|x num'] eqn:En; [congruence|]. rewrite <- En in *.
  assert (Hx : is_space x = false).
  { apply class_not_space. rewrite En in Hnum. simpl in Hnum.
    now apply andb_prop in Hnum as [Hx _]. }
  replace (num ++ ws ++ (u0 ++ String cb "") ++ trailing)
    with ((num ++ ws ++ u0) ++ String cb trailing)
    by (now rewrite !append_assoc).
  rewrite (strip_append (num ++ ws ++ u0) cb trailing x (num' ++ ws ++ u0));
    [| now rewrite En | assumption | assumption].
  replace ((num ++ ws ++ u0) ++ String cb (rstrip trailing))
    with (num ++ ws ++ (u0 ++ String cb "") ++ rstrip trailing)
    by (now rewrite !append_assoc).
  rewrite (upper_append num), (upper_append ws), (upper_append (u0 ++ _)).
  rewrite (upper_fixed is_digit_or_dot num upper_char_class Hnum).
  rewrite (upper_fixed is_space ws upper_char_space Hws).
  now rewrite scan_literal.
Qed.

(** A first character outside the class, after the leading blanks, leaves
    nothing to match. *)
Lemma convert_no_match (lead : string) (c : ascii) (t : string) :
  all is_space lead = true ->
  is_space c = false ->
  is_digit_or_dot c = false ->
  convert_bandwidth_to_bytes (lead ++ String c t) = Ok 0.
Proof.
  intros Hlead Hsp Hc.
  rewrite convert_scan. unfold strip.
  rewrite lstrip_spaces by assumption.
  rewrite lstrip_nonspace by assumption.
  change (String c t) with ("" ++ String c t).
  rewrite (rstrip_append "" c t Hsp).
  cbn [append upper]. unfold scan_bandwidth. cbn [span_len].
  now rewrite (upper_char_not_class c Hc).
Qed.

Lemma convert_empty (lead : string) :
  all is_space lead = true -> convert_bandwidth_to_bytes lead = Ok 0.
Proof.
  intros Hlead. rewrite convert_scan. unfold strip.
  replace lead with (lead ++ "") by apply append_nil_r.
  rewrite lstrip_spaces by assumption. reflexivity.
Qed.

End Literal.

(** ** The address pattern, read directly *)

Module IpPattern.
Import Re ReFacts.

Definition octet : regex := Repeat 1 3 (Chr Str.is_digit).

Lemma exec_octet {A} (k : mstate -> option A) :
  blocked Str.is_digit k ->
  forall n s g,
    exec octet (MState n s g) k
    = if (1 <=? octet_len s)%nat
      then k (MState (n + octet_len s) (Str.drop (octet_len s) s) g)
      else None.
Proof.
  intros Hk n s g. unfold octet. rewrite exec_Repeat.
  now rewrite rep_loop_class.
Qed.

Lemma digit_not_dot (c : ascii) :
  Str.is_digit c = true -> Ascii.eqb "." c = false.
Proof.
  destruct c as [[] [] [] [] [] [] [] []]; intros H; try discriminate H;
    reflexivity.
Qed.

Lemma digit_not_eol (c : ascii) (t : string) :
  Str.is_digit c = true -> at_eol (String c t) = false.
Proof.
  destruct c as [[] [] [] [] [] [] [] []]; intros H; try discriminate H;
    destruct t; reflexivity.
Qed.

(** One round of [(\d{1,3}\.)]. *)
Lemma exec_octet_dot {A} (k : mstate -> option A) (n : nat) (s : string)
  (g : list (nat * string)) :
  exec (Group 1 (Seq octet (lit "."))) (MState n s g) k
  = match octet_dot s with
    | Some r =>
        k (MState (S (n + octet_len s)) r
             ((1%nat, Str.take (S (n + octet_len s) - n) s) :: g))
    | None => None
    end.
Proof.
  rewrite exec_Group, exec_Seq. rewrite exec_octet.
  - unfold octet_dot. destruct (1 <=? octet_len s)%nat; [|reflexivity].
    unfold lit. rewrite exec_Chr.
    destruct (Str.drop (octet_len s) s) as [|c r]; [reflexivity|].
    destruct (Ascii.eqb "." c); reflexivity.
  - intros n1 c1 t1 g1 H1. unfold lit. rewrite exec_Chr.
    now rewrite (digit_not_dot c1 H1).
Qed.

Lemma exec_last_octet (n : nat) (s : string) (g : list (nat * string)) :
  exec (Seq octet Eol) (MState n s g) (fun st => Some (groups st))
  = if last_octet s then Some g else None.
Proof.
  rewrite exec_Seq. rewrite exec_octet.
  - unfold last_octet. destruct (1 <=? octet_len s)%nat; [|reflexivity].
    rewrite exec_Eol. cbn [rest groups andb].
    destruct (at_eol _); reflexivity.
  - intros n1 c1 t1 g1 H1. rewrite exec_Eol. cbn [rest].
    now rewrite (digit_not_eol c1 t1 H1).
Qed.

Lemma rep_loop_S {A} m (k : mstate -> option A) lo hi st :
  rep_loop m k (S lo) (S hi) st = m st (fun st1 => rep_loop m k lo hi st1).
Proof. simpl. apply orelse_none_r. Qed.

(** The pattern matches exactly the texts of the direct reading. *)
Lemma rmatch_ip (s : string) : is_some (rmatch ip_pattern s) = ip_shape s.
Proof.
  unfold rmatch, ip_pattern.
  change (Repeat 1 3 (Chr Str.is_digit)) with octet.
  rewrite exec_Seq, exec_Bol. cbn [pos Nat.eqb].
  rewrite exec_Seq, exec_Repeat.
  rewrite rep_loop_S, exec_octet_dot. unfold ip_shape.
  destruct (octet_dot s) as [r1|]; [|reflexivity].
  rewrite rep_loop_S, exec_octet_dot.
  destruct (octet_dot r1) as [r2|]; [|reflexivity].
  rewrite rep_loop_S, exec_octet_dot.
  destruct (octet_dot r2) as [r3|]; [|reflexivity].
  cbn [rep_loop]. rewrite exec_last_octet.
  destruct (last_octet r3); reflexivity.
Qed.

End IpPattern.

(** ** Dotted quads *)

Module Quad.
Import Str StrFacts.

Lemma take_drop (j : nat) (s : string) : take j s ++ drop j s = s.
Proof.
  revert s; induction j as [|j IH]; intros [|c t]; simpl; try reflexivity.
  now rewrite IH.
Qed.

Lemma take_span (p : ascii -> bool) (j : nat) (s : string) :
  (j <= span_len p s)%nat ->
  all p (take j s) = true /\ String.length (take j s) = j.
Proof.
  revert s; induction j as [|j IH]; intros [|c t] H; simpl in *;
    try (split; [reflexivity | lia]).
  destruct (p c) eqn:Hc; [|lia].
  destruct (IH t) as [H1 H2]; [lia|]. now rewrite H1, H2.
Qed.

Lemma octet_len_take (s : string) :
  (1 <= octet_len s)%nat -> octet_text (take (octet_len s) s) = true.
Proof.
  intros H. unfold octet_text.
  destruct (take_span is_digit (octet_len s) s) as [H1 H2].
  { unfold octet_len. lia. }
  rewrite H1, H2.
  replace (1 <=? octet_len s)%nat with true by (symmetry; apply Nat.leb_le; lia).
  replace (octet_len s <=? 3)%nat with true
    by (symmetry; apply Nat.leb_le; unfold octet_len; lia).
  reflexivity.
Qed.

Lemma octet_text_facts (a : string) :
  octet_text a = true ->
  (1 <= String.length a <= 3)%nat /\ all is_digit a = true.
Proof.
  unfold octet_text. intros H.
  apply andb_prop in H as [H H3]. apply andb_prop in H as [H1 H2].
  apply Nat.leb_le in H1, H2. auto.
Qed.

Lemma octet_len_append (a r : string) :
  octet_text a = true ->
  match r with String c _ => is_digit c = false | EmptyString => True end ->
  octet_len (a ++ r) = String.length a.
Proof.
  intros Ha Hr. apply octet_text_facts in Ha as [Hlen Hall].
  unfold octet_len. rewrite span_len_all by assumption. lia.
Qed.

Lemma octet_dot_spec (s r : string) :
  octet_dot s = Some r ->
  exists a, s = a ++ "." ++ r /\ octet_text a = true.
Proof.
  unfold octet_dot. destruct (1 <=? octet_len s)%nat eqn:Hj; [|discriminate].
  apply Nat.leb_le in Hj.
  destruct (drop (octet_len s) s) as [|c r'] eqn:Hd; [discriminate|].
  destruct (Ascii.eqb_spec "." c) as [<-|]; [|discriminate].
  intros [= ->]. exists (take (octet_len s) s). split.
  - simpl. rewrite <- Hd. symmetry. apply take_drop.
  - now apply octet_len_take.
Qed.

Lemma octet_dot_intro (a r : string) :
  octet_text a = true -> octet_dot (a ++ "." ++ r) = Some r.
Proof.
  intros Ha. unfold octet_dot.
  rewrite octet_len_append; [| assumption | reflexivity].
  destruct (octet_text_facts a Ha) as [Hlen _].
  replace (1 <=? String.length a)%nat with true
    by (symmetry; apply Nat.leb_le; lia).
  now rewrite drop_append.
Qed.

Lemma at_eol_spec (e : string) : Re.at_eol e = true -> e = "" \/ e = nl.
Proof.
  destruct e as [|c [|c' e']]; simpl; intros H; try discriminate; auto.
  apply Ascii.eqb_eq in H. subst c. now right.
Qed.

Lemma last_octet_spec (s : string) :
  last_octet s = true ->
  exists d e, s = d ++ e /\ octet_text d = true /\ (e = "" \/ e = nl).
Proof.
  unfold last_octet. intros H. apply andb_prop in H as [Hj He].
  apply Nat.leb_le in Hj.
  exists (take (octet_len s) s), (drop (octet_len s) s). repeat split.
  - symmetry. apply take_drop.
  - now apply octet_len_take.
  - now apply at_eol_spec.
Qed.

Lemma last_octet_intro (d e : string) :
  octet_text d = true -> e = "" \/ e = nl -> last_octet (d ++ e) = true.
Proof.
  intros Hd He. unfold last_octet.
  rewrite octet_len_append;
    [| assumption | destruct He as [->| ->]; [exact I | reflexivity]].
  destruct (octet_text_facts d Hd) as [Hlen _].
  replace (1 <=? String.length d)%nat with true
    by (symmetry; apply Nat.leb_le; lia).
  rewrite drop_append. destruct He as [->| ->]; reflexivity.
Qed.

(** The texts the pattern accepts: a dotted quad, or a dotted quad and
    one newline. *)
Lemma ip_shape_spec (s : string) :
  ip_shape s = true <->
  exists a b c d e,
    s = quad a b c d ++ e
    /\ octet_text a = true /\ octet_text b = true
    /\ octet_text c = true /\ octet_text d = true
    /\ (e = "" \/ e = nl).
Proof.
  unfold ip_shape, quad. split.
  - destruct (octet_dot s) as [r1|] eqn:H1; [|discriminate].
    destruct (octet_dot r1) as [r2|] eqn:H2; [|discriminate].
    destruct (octet_dot r2) as [r3|] eqn:H3; [|discriminate].
    intros H4.
    apply octet_dot_spec in H1 as (a & -> & Ha).
    apply octet_dot_spec in H2 as (b & -> & Hb).
    apply octet_dot_spec in H3 as (c & -> & Hc).
    apply last_octet_spec in H4 as (d & e & -> & Hd & He).
    exists a, b, c, d, e. repeat split; try assumption.
    now rewrite !append_assoc.
  - intros (a & b & c & d & e & -> & Ha & Hb & Hc & Hd & He).
    rewrite !append_assoc.
    rewrite (octet_dot_intro a _ Ha).
    rewrite (octet_dot_intro b _ Hb).
    rewrite (octet_dot_intro c _ Hc).
    now apply last_octet_intro.
Qed.

End Quad.

(** ** [is_private_ip] on the texts its pattern accepts *)

Module PrivateIp.
Import Str StrFacts Quad.

Definition nodot (s : string) : bool :=
  all (fun c => negb (Ascii.eqb c ".")) s.

Lemma digit_nodot (c : ascii) : is_digit c = true -> Ascii.eqb c "." = false.
Proof.
  destruct c as [[] [] [] [] [] [] [] []]; intros H; try discriminate H;
    reflexivity.
Qed.

Lemma digits_nodot (a : string) : all is_digit a = true -> nodot a = true.
Proof.
  unfold nodot. induction a as [|c t IH]; simpl; intros H; [reflexivity|].
  apply andb_prop in H as [Hc Ht]. now rewrite (digit_nodot c Hc), IH.
Qed.

Lemma split_nodot (a : string) : nodot a = true -> split "." a = [a].
Proof.
  unfold nodot. induction a as [|c t IH]; simpl; intros H; [reflexivity|].
  apply andb_prop in H as [Hc Ht]. apply negb_true_iff in Hc.
  now rewrite Hc, IH.
Qed.

Lemma split_cons (a r : string) :
  nodot a = true -> split "." (a ++ String "." r) = a :: split "." r.
Proof.
  unfold nodot. induction a as [|c t IH]; intros H.
  - reflexivity.
  - cbn [all] in H. apply andb_prop in H as [Hc Ht].
    apply negb_true_iff in Hc.
    cbn [append split]. now rewrite Hc, IH.
Qed.

Lemma nodot_append (a b : string) : nodot (a ++ b) = nodot a && nodot b.
Proof. apply all_append. Qed.

Lemma split_quad (a b c d : string) :
  nodot a = true -> nodot b = true -> nodot c = true -> nodot d = true ->
  split "." (quad a b c d) = [a; b; c; d].
Proof.
  intros Ha Hb Hc Hd. unfold quad.
  change (a ++ "." ++ b ++ "." ++ c ++ "." ++ d)
    with (a ++ String "." (b ++ String "." (c ++ String "." d))).
  now rewrite !split_cons, split_nodot.
Qed.

Lemma octet_nodot (a : string) : octet_text a = true -> nodot a = true.
Proof. intros H. apply digits_nodot. now apply octet_text_facts in H. Qed.

Lemma dotted_quad_intro (a b c d : string) :
  octet_text a = true -> octet_text b = true ->
  octet_text c = true -> octet_text d = true ->
  dotted_quad (quad a b c d) = true.
Proof.
  intros Ha Hb Hc Hd. unfold dotted_quad.
  rewrite split_quad by now apply octet_nodot.
  now rewrite Ha, Hb, Hc, Hd.
Qed.

Lemma ends_with_newline_append (a : string) :
  ends_with_newline (a ++ nl) = true.
Proof.
  induction a as [|c t IH]; [reflexivity|].
  cbn [append ends_with_newline]. rewrite IH.
  destruct (t ++ nl) eqn:E; [destruct t; discriminate E | reflexivity].
Qed.

(** *** [int] on the pieces *)

Lemma digits_value_total (a : string) :
  all is_digit a = true -> forall acc, exists n, digits_value acc a = Some n.
Proof.
  induction a as [|c t IH]; simpl; intros H acc; [eauto|].
  apply andb_prop in H as [Hc Ht]. rewrite Hc. now apply IH.
Qed.

Lemma digits_value_number (a : string) :
  all is_digit a = true -> digits_value 0 a = Some (number a).
Proof.
  intros H. unfold number.
  destruct (digits_value_total a H 0) as [n Hn]. now rewrite Hn.
Qed.

Lemma digit_not_space (c : ascii) : is_digit c = true -> is_space c = false.
Proof. intros H. apply class_not_space. now apply digit_is_class. Qed.

Lemma rstrip_digits (a e : string) :
  all is_digit a = true -> e = "" \/ e = nl -> rstrip (a ++ e) = a.
Proof.
  intros Ha He. induction a as [|c t IH].
  - destruct He as [->| ->]; reflexivity.
  - cbn [all] in Ha. apply andb_prop in Ha as [Hc Ht].
    cbn [append rstrip]. rewrite (IH Ht), (digit_not_space c Hc).
    reflexivity.
Qed.

Lemma int_of_octet (a e : string) :
  octet_text a = true -> e = "" \/ e = nl ->
  int_of_str (a ++ e) = Ok (number a).
Proof.
  intros Ha He. destruct (octet_text_facts a Ha) as [Hlen Hall].
  unfold int_of_str, strip.
  destruct a as [|c t]; [simpl in Hlen; lia|].
  assert (Hc : is_space c = false).
  { apply digit_not_space. simpl in Hall. now apply andb_prop in Hall as [Hc _]. }
  change (String c t ++ e) with (String c (t ++ e)).
  rewrite lstrip_nonspace by assumption.
  change (String c (t ++ e)) with (String c t ++ e).
  rewrite rstrip_digits by assumption.
  cbn [is_empty]. now rewrite digits_value_number.
Qed.

(** The if-chain of the function is the membership in the three ranges. *)
Lemma is_private_quad (a b c d e : string) :
  octet_text a = true -> octet_text b = true ->
  octet_text c = true -> octet_text d = true ->
  e = "" \/ e = nl ->
  is_private_ip (quad a b c d ++ e)
  = Ok (private_octets (number a) (number b)).
Proof.
  intros Ha Hb Hc Hd He.
  assert (Hshape : ip_shape (quad a b c d ++ e) = true).
  { apply ip_shape_spec. exists a, b, c, d, e. auto 10. }
  rewrite <- IpPattern.rmatch_ip in Hshape.
  unfold is_private_ip.
  destruct (Re.rmatch ip_pattern _); [clear Hshape | discriminate].
  assert (Hsplit : split "." (quad a b c d ++ e) = [a; b; c; d ++ e]).
  { unfold quad. rewrite !append_assoc.
    change (a ++ "." ++ b ++ "." ++ c ++ "." ++ d ++ e)
      with (a ++ String "." (b ++ String "." (c ++ String "." (d ++ e)))).
    rewrite !split_cons by now apply octet_nodot.
    rewrite split_nodot; [reflexivity|].
    rewrite nodot_append, (octet_nodot d Hd).
    destruct He as [->| ->]; reflexivity. }
  rewrite Hsplit. cbn [map_result].
  rewrite <- (append_nil_r a), (int_of_octet a "") by auto.
  rewrite <- (append_nil_r b), (int_of_octet b "") by auto.
  rewrite <- (append_nil_r c), (int_of_octet c "") by auto.
  rewrite (int_of_octet d e) by auto.
  cbn [bind nth]. rewrite !append_nil_r.
  unfold private_octets.
  destruct (number a =? 10); [reflexivity|].
  destruct ((number a =? 172) && (16 <=? number b) && (number b <=? 31));
    [reflexivity|].
  destruct ((number a =? 192) && (number b =? 168)); reflexivity.
Qed.

(** The function never raises: [int] only sees what the pattern let
    through. *)
Lemma is_private_ip_total (s : string) : exists b, is_private_ip s = Ok b.
Proof.
  destruct (ip_shape s) eqn:Hshape.
  - apply ip_shape_spec in Hshape
      as (a & b & c & d & e & -> & Ha & Hb & Hc & Hd & He).
    eexists. now apply is_private_quad.
  - rewrite <- IpPattern.rmatch_ip in Hshape.
    unfold is_private_ip.
    destruct (Re.rmatch ip_pattern s); [discriminate | eauto].
Qed.

(** Outside the accepted texts the answer is [False]. *)
Lemma is_private_ip_no_shape (s : string) :
  ip_shape s = false -> is_private_ip s = Ok false.
Proof.
  intros Hshape. rewrite <- IpPattern.rmatch_ip in Hshape.
  unfold is_private_ip.
  destruct (Re.rmatch ip_pattern s); [discriminate | reflexivity].
Qed.

End PrivateIp.

(** ** Decimal rendering of integers *)

Module Decimal.
Import Str StrFacts.

Lemma digit_cases (d : Z) :
  0 <= d < 10 ->
  d = 0 \/ d = 1 \/ d = 2 \/ d = 3 \/ d = 4 \/ d = 5 \/ d = 6 \/ d = 7
  \/ d = 8 \/ d = 9.
Proof. lia. Qed.

Lemma digit_char_spec (d : Z) :
  0 <= d < 10 ->
  is_digit (digit_char d) = true /\ Z.of_nat (code (digit_char d) - 48) = d.
Proof.
  intros H.
  destruct (digit_cases d H) as [->|[->|[->|[->|[->|[->|[->|[->|[->| ->]]]]]]]]];
    split; reflexivity.
Qed.

Lemma digits_value_append (s1 s2 : string) :
  forall a,
    digits_value a (s1 ++ s2)
    = match digits_value a s1 with
      | Some v => digits_value v s2
      | None => None
      end.
Proof.
  induction s1 as [|c t IH]; intros a; simpl; [reflexivity|].
  destruct (is_digit c); [apply IH | reflexivity].
Qed.

(** With enough fuel, the rendering is the digits of [n], most
    significant first. *)
Lemma digits_of_spec (fuel : nat) :
  forall n acc,
    0 <= n < 10 ^ Z.of_nat (S fuel) ->
    exists ds,
      digits_of fuel n acc = ds ++ acc
      /\ all is_digit ds = true
      /\ (1 <= String.length ds)%nat
      /\ forall a,
           digits_value a ds = Some (a * 10 ^ Z.of_nat (String.length ds) + n).
Proof.
  assert (Hone : forall n acc, 0 <= n < 10 ->
            exists ds,
              String (digit_char (n mod 10)) acc = ds ++ acc
              /\ all is_digit ds = true
              /\ (1 <= String.length ds)%nat
              /\ forall a, digits_value a ds
                           = Some (a * 10 ^ Z.of_nat (String.length ds) + n)).
  { intros n acc Hn. exists (String (digit_char n) "").
    rewrite Z.mod_small by lia.
    destruct (digit_char_spec n Hn) as [H1 H2].
    repeat split.
    - cbn [all]. now rewrite H1.
    - cbn [String.length]. lia.
    - intros a. cbn [digits_value String.length]. rewrite H1, H2. f_equal.
      change (Z.of_nat 1) with 1. lia. }
  induction fuel as [|f IH]; intros n acc Hn.
  - cbn [digits_of]. apply Hone. change (10 ^ Z.of_nat 1) with 10 in Hn. lia.
  - cbn [digits_of]. destruct (Z.ltb_spec n 10) as [Hlt|Hge].
    + apply Hone. lia.
    + assert (Hdiv : 0 <= n / 10 < 10 ^ Z.of_nat (S f)).
      { split; [apply Z.div_pos; lia|].
        apply Z.div_lt_upper_bound; [lia|].
        replace (10 * 10 ^ Z.of_nat (S f)) with (10 ^ Z.of_nat (S (S f)));
          [lia|].
        rewrite (Nat2Z.inj_succ (S f)), Z.pow_succ_r by lia. reflexivity. }
      destruct (IH (n / 10) (String (digit_char (n mod 10)) acc) Hdiv)
        as (ds & Hds & Hall & Hlen & Hval).
      assert (Hmod : 0 <= n mod 10 < 10) by (apply Z.mod_pos_bound; lia).
      destruct (digit_char_spec _ Hmod) as [H1 H2].
      exists (ds ++ String (digit_char (n mod 10)) ""). repeat split.
      * rewrite Hds. now rewrite append_assoc.
      * rewrite all_append, Hall. cbn [all]. now rewrite H1.
      * rewrite length_append. cbn [String.length]. lia.
      * intros a. rewrite digits_value_append, Hval. cbn [digits_value].
        rewrite H1, H2. f_equal.
        rewrite length_append. cbn [String.length].
        rewrite Nat2Z.inj_add, Z.pow_add_r by lia.
        change (Z.of_nat 1) with 1. rewrite Z.pow_1_r.
        pose proof (Z.div_mod n 10). lia.
Qed.

Lemma log2_fuel (n : Z) : 0 <= n -> n < 10 ^ Z.of_nat (S (Z.to_nat (Z.log2 n))).
Proof.
  intros Hn. rewrite Nat2Z.inj_succ, Z2Nat.id by apply Z.log2_nonneg.
  destruct (Z.eq_dec n 0) as [->|Hnz]; [reflexivity|].
  pose proof (Z.log2_spec n ltac:(lia)) as [_ Hlt].
  eapply Z.lt_le_trans; [exact Hlt|].
  apply Z.pow_le_mono_l. lia.
Qed.

(** [str(n)] for [0 <= n]: digits only, at least one, spelling [n]. *)
Lemma of_int_spec (n : Z) :
  0 <= n ->
  all is_digit (of_int n) = true
  /\ (1 <= String.length (of_int n))%nat
  /\ forall a,
       digits_value a (of_int n)
       = Some (a * 10 ^ Z.of_nat (String.length (of_int n)) + n).
Proof.
  intros Hn. unfold of_int.
  replace (n <? 0) with false by (symmetry; apply Z.ltb_ge; lia).
  destruct (digits_of_spec _ n "" (conj Hn (log2_fuel n Hn)))
    as (ds & Hds & Hall & Hlen & Hval).
  rewrite Hds, append_nil_r. auto.
Qed.

Lemma of_int_value (n : Z) : 0 <= n -> digits_value 0 (of_int n) = Some n.
Proof.
  intros Hn. destruct (of_int_spec n Hn) as (_ & _ & H). now rewrite H.
Qed.

Lemma of_int_neg (n : Z) : n < 0 -> of_int n = String "-" (of_int (- n)).
Proof.
  intros Hn. unfold of_int.
  replace (n <? 0) with true by (symmetry; apply Z.ltb_lt; lia).
  replace (- n <? 0) with false by (symmetry; apply Z.ltb_ge; lia).
  reflexivity.
Qed.

(** Different integers are spelt differently. *)
Lemma of_int_inj (a b : Z) : of_int a = of_int b -> a = b.
Proof.
  assert (Hpos : forall x y, 0 <= x -> 0 <= y -> of_int x = of_int y -> x = y).
  { intros x y Hx Hy E.
    pose proof (of_int_value x Hx) as H1. rewrite E, of_int_value in H1 by lia.
    congruence. }
  assert (Hmix : forall x y, 0 <= x -> y < 0 -> of_int x = of_int y -> False).
  { intros x y Hx Hy E. rewrite (of_int_neg y Hy) in E.
    destruct (of_int_spec x Hx) as (Hall & _ & _).
    rewrite E in Hall. cbn [all] in Hall.
    change (is_digit "-") with false in Hall. discriminate Hall. }
  intros E.
  destruct (Z.lt_ge_cases a 0) as [Ha|Ha], (Z.lt_ge_cases b 0) as [Hb|Hb].
  - rewrite (of_int_neg a Ha), (of_int_neg b Hb) in E. injection E as E.
    apply Hpos in E; lia.
  - exfalso. symmetry in E. eapply Hmix; eauto.
  - exfalso. eapply Hmix; eauto.
  - now apply Hpos.
Qed.

End Decimal.

(** ** The extractor *)

Module Extractor.

Lemma is_private_ip_is_private (s : string) :
  is_private_ip s = Ok (is_private s).
Proof.
  unfold is_private. destruct (PrivateIp.is_private_ip_total s) as [b ->].
  reflexivity.
Qed.

Lemma sum_rows_spec (rows : table) :
  forall total,
    sum_rows rows total
    = (vals <- map_result convert_bandwidth_to_bytes
                 (map bandwidth_cell (filter included rows)) ;;
       Ok (total + zsum vals)).
Proof.
  induction rows as [|cols rows IH]; intros total.
  - simpl. now rewrite Z.add_0_r.
  - cbn [sum_rows filter]. unfold included at 1.
    destruct (Nat.ltb_spec (List.length cols) 6) as [Hlt|Hge].
    + replace (6 <=? List.length cols)%nat with false
        by (symmetry; apply Nat.leb_gt; lia).
      cbn [andb]. apply IH.
    + replace (6 <=? List.length cols)%nat with true
        by (symmetry; apply Nat.leb_le; lia).
      cbn [andb]. fold (token cols).
      rewrite is_private_ip_is_private. cbn [bind].
      destruct (is_private (token cols)) eqn:Hp;
        destruct (String.eqb (token cols) "Others") eqn:Ho; cbn [negb andb orb].
      * cbn [map map_result]. fold (bandwidth_cell cols).
        destruct (convert_bandwidth_to_bytes (bandwidth_cell cols)) as [b|e];
          cbn [bind]; [|reflexivity].
        rewrite IH. destruct (map_result _ _) as [vals|e]; cbn [bind zsum fold_right];
          [|reflexivity].
        f_equal. unfold zsum. lia.
      * cbn [map map_result]. fold (bandwidth_cell cols).
        destruct (convert_bandwidth_to_bytes (bandwidth_cell cols)) as [b|e];
          cbn [bind]; [|reflexivity].
        rewrite IH. destruct (map_result _ _) as [vals|e]; cbn [bind zsum fold_right];
          [|reflexivity].
        f_equal. unfold zsum. lia.
      * cbn [map map_result]. fold (bandwidth_cell cols).
        destruct (convert_bandwidth_to_bytes (bandwidth_cell cols)) as [b|e];
          cbn [bind]; [|reflexivity].
        rewrite IH. destruct (map_result _ _) as [vals|e]; cbn [bind zsum fold_right];
          [|reflexivity].
        f_equal. unfold zsum. lia.
      * apply IH.
Qed.

End Extractor.

(** ** The aggregator: from two nested loops to one list of periods *)

Module Loops.

Lemma bindM_ret_l {A B} (a : A) (f : A -> M B) : bindM (ret a) f = f a.
Proof. unfold bindM, ret. destruct (f a). reflexivity. Qed.

Lemma bindM_ret_r {A} (m : M A) : bindM m ret = m.
Proof.
  destruct m as [t [a|e]]; simpl; [|reflexivity].
  now rewrite app_nil_r.
Qed.

Lemma bindM_assoc {A B C} (m : M A) (f : A -> M B) (g : B -> M C) :
  bindM (bindM m f) g = bindM m (fun a => bindM (f a) g).
Proof.
  destruct m as [t [a|e]]; simpl; [|reflexivity].
  destruct (f a) as [t1 [b|e]]; simpl; [|reflexivity].
  destruct (g b) as [t2 r]. now rewrite app_assoc.
Qed.

Section WithServer.
Variable server : string -> response.

Lemma process_periods_app (ps qs : list (Z * Z)) :
  forall d,
    process_periods server (ps ++ qs) d
    = bindM (process_periods server ps d) (process_periods server qs).
Proof.
  induction ps as [|[y m] ps IH]; intros d.
  - cbn [app process_periods]. now rewrite bindM_ret_l.
  - cbn [app process_periods]. rewrite bindM_assoc.
    destruct (process_month server y m d) as [t [a|e]]; cbn [bindM];
      [|reflexivity].
    now rewrite IH.
Qed.

Variables start_year start_month end_year end_month : Z.

Lemma month_loop_flat (year : Z) (months : list Z) :
  forall d,
    month_loop server start_year start_month end_year end_month year months d
    = process_periods server
        (months_of start_year start_month end_year end_month year months) d.
Proof.
  induction months as [|month months IH]; intros d; [reflexivity|].
  cbn [month_loop months_of].
  destruct ((year =? start_year) && (month <? start_month)); [apply IH|].
  destruct ((year =? end_year) && (end_month <? month)); [reflexivity|].
  cbn [process_periods].
  destruct (process_month server year month d) as [t [a|e]]; cbn [bindM];
    [|reflexivity].
  now rewrite IH.
Qed.

Lemma year_loop_flat (years : list Z) :
  forall d,
    year_loop server start_year start_month end_year end_month years d
    = process_periods server
        (flat_map (fun year =>
                     months_of start_year start_month end_year end_month
                       year (range 1 13)) years) d.
Proof.
  induction years as [|year years IH]; intros d; [reflexivity|].
  cbn [year_loop flat_map]. rewrite process_periods_app, month_loop_flat.
  destruct (process_periods server _ d) as [t [a|e]]; cbn [bindM];
    [|reflexivity].
  now rewrite IH.
Qed.

(** The whole function: the periods in order, then the CSV file. *)
Lemma fetch_and_save_flat :
  fetch_and_save_monthly_data server start_year start_month end_year end_month
  = (monthly_bandwidth <~
       process_periods server
         (loop_periods start_year start_month end_year end_month) [] ;;
     emit (WriteCsv (csv_rows monthly_bandwidth)) ;;;
     ret monthly_bandwidth).
Proof.
  unfold fetch_and_save_monthly_data, loop_periods.
  now rewrite year_loop_flat.
Qed.

End WithServer.

End Loops.

(** ** Calendar months from a start to an end *)

Module Calendar.

Lemma range_nil (lo hi : Z) : hi <= lo -> range lo hi = [].
Proof.
  intros H. unfold range.
  replace (Z.to_nat (hi - lo)) with O by lia. reflexivity.
Qed.

Lemma range_cons (lo hi : Z) : lo < hi -> range lo hi = lo :: range (lo + 1) hi.
Proof.
  intros H. unfold range.
  replace (Z.to_nat (hi - lo)) with (S (Z.to_nat (hi - (lo + 1)))) by lia.
  cbn [seq map]. f_equal; [lia|].
  rewrite <- seq_shift, map_map.
  apply map_ext. intros i. lia.
Qed.

Lemma range_app (a b c : Z) :
  a <= b -> b <= c -> range a c = (range a b ++ range b c)%list.
Proof.
  intros Hab Hbc.
  remember (Z.to_nat (b - a)) as k eqn:Hk.
  revert a Hab Hk. induction k as [|k IH]; intros a Hab Hk.
  - assert (a = b) by lia. subst a. now rewrite (range_nil b b) by lia.
  - rewrite (range_cons a c), (range_cons a b) by lia.
    cbn [app]. f_equal. apply IH; lia.
Qed.

Lemma range_one (a : Z) : range a (a + 1) = [a].
Proof. rewrite range_cons by lia. now rewrite range_nil by lia. Qed.

Lemma in_range (x lo hi : Z) : In x (range lo hi) -> lo <= x < hi.
Proof.
  unfold range. intros H. apply in_map_iff in H as (i & <- & Hi).
  apply in_seq in Hi. lia.
Qed.

Lemma flat_map_ext_in {A B} (f g : A -> list B) (l : list A) :
  (forall a, In a l -> f a = g a) -> flat_map f l = flat_map g l.
Proof.
  induction l as [|a l IH]; intros H; [reflexivity|].
  cbn [flat_map]. rewrite (H a (or_introl eq_refl)), IH; [reflexivity|].
  intros b Hb. apply H. now right.
Qed.

(** The months of one year, from [lo] to [hi]. *)
Definition year_months (y lo hi : Z) : list (Z * Z) :=
  map (pair y) (range lo (hi + 1)).

Lemma month_cases (m : Z) :
  1 <= m <= 12 ->
  m = 1 \/ m = 2 \/ m = 3 \/ m = 4 \/ m = 5 \/ m = 6 \/ m = 7 \/ m = 8
  \/ m = 9 \/ m = 10 \/ m = 11 \/ m = 12.
Proof. lia. Qed.

(** What the inner loop visits from month [a] on. *)
Lemma months_of_from (sy sm ey em y : Z) (k : nat) :
  1 <= sm <= 12 -> 1 <= em <= 12 ->
  forall a,
    1 <= a -> a + Z.of_nat k = 13 ->
    months_of sy sm ey em y (range a 13)
    = year_months y (Z.max a (if y =? sy then sm else 1))
        (if y =? ey then em else 12).
Proof.
  intros Hsm Hem. unfold year_months.
  set (lo := if y =? sy then sm else 1).
  set (hi := if y =? ey then em else 12).
  assert (Hlo : 1 <= lo <= 12) by (unfold lo; destruct (y =? sy); lia).
  assert (Hhi : 1 <= hi <= 12) by (unfold hi; destruct (y =? ey); lia).
  induction k as [|k IH]; intros a Ha Hk.
  - rewrite !range_nil by lia. reflexivity.
  - rewrite (range_cons a 13) by lia. cbn [months_of].
    assert (Hskip : (y =? sy) && (a <? sm) = (a <? lo)).
    { unfold lo. destruct (y =? sy); cbn [andb]; [reflexivity|].
      symmetry. apply Z.ltb_ge. lia. }
    assert (Hbreak : (y =? ey) && (em <? a) = (hi <? a)).
    { unfold hi. destruct (y =? ey); cbn [andb]; [reflexivity|].
      symmetry. apply Z.ltb_ge. lia. }
    rewrite Hskip, Hbreak, IH by lia.
    destruct (Z.ltb_spec a lo) as [H1|H1].
    + do 2 f_equal. lia.
    + destruct (Z.ltb_spec hi a) as [H2|H2].
      * rewrite range_nil by lia. reflexivity.
      * rewrite (range_cons (Z.max a lo)) by lia. cbn [map].
        f_equal; [f_equal; lia|]. do 2 f_equal. lia.
Qed.

(** What the inner loop visits in one year. *)
Lemma months_of_year (sy sm ey em y : Z) :
  1 <= sm <= 12 -> 1 <= em <= 12 ->
  months_of sy sm ey em y (range 1 13)
  = year_months y (if y =? sy then sm else 1) (if y =? ey then em else 12).
Proof.
  intros Hsm Hem.
  rewrite (months_of_from sy sm ey em y 12 Hsm Hem 1) by lia.
  f_equal. destruct (y =? sy); lia.
Qed.

Fixpoint steps (k : nat) (p : Z * Z) : Z * Z :=
  match k with
  | O => p
  | S k' => steps k' (next_period p)
  end.

Lemma periods_from_app (a b : nat) :
  forall p,
    periods_from (a + b) p
    = (periods_from a p ++ periods_from b (steps a p))%list.
Proof.
  induction a as [|a IH]; intros p; [reflexivity|].
  cbn [Nat.add periods_from steps app]. now rewrite IH.
Qed.

Lemma periods_from_year (k : nat) :
  forall y m,
    1 <= m <= 12 -> m + Z.of_nat k <= 13 ->
    periods_from k (y, m) = year_months y m (m + Z.of_nat k - 1)
    /\ steps k (y, m) = if m + Z.of_nat k =? 13 then (y + 1, 1)
                        else (y, m + Z.of_nat k).
Proof.
  unfold year_months.
  induction k as [|k IH]; intros y m Hm Hk.
  - cbn [periods_from steps]. rewrite range_nil by lia.
    replace (m + Z.of_nat 0 =? 13) with false by (symmetry; apply Z.eqb_neq; lia).
    split; [reflexivity | f_equal; lia].
  - cbn [periods_from steps next_period].
    rewrite (range_cons m) by lia. cbn [map].
    destruct (Z.eqb_spec m 12) as [->|Hne].
    + assert (k = O) by lia. subst k. cbn [periods_from steps].
      rewrite range_nil by lia. split; reflexivity.
    + destruct (IH y (m + 1)) as [H1 H2]; [lia | lia |].
      rewrite H1, H2. split.
      * do 3 f_equal. lia.
      * replace (m + 1 + Z.of_nat k) with (m + Z.of_nat (S k)) by lia.
        reflexivity.
Qed.

Lemma whole_years (em : Z) (n : nat) :
  1 <= em <= 12 ->
  forall y,
    (flat_map (fun y' => year_months y' 1 12) (range y (y + Z.of_nat n))
     ++ year_months (y + Z.of_nat n) 1 em)%list
    = periods_from (12 * n + Z.to_nat em) (y, 1).
Proof.
  intros Hem. induction n as [|n IH]; intros y.
  - rewrite range_nil by lia. cbn [flat_map app Nat.mul Nat.add].
    destruct (periods_from_year (Z.to_nat em) y 1) as [H _]; [lia | lia |].
    rewrite H. f_equal; lia.
  - rewrite range_cons by lia. cbn [flat_map].
    rewrite <- app_assoc.
    replace (y + Z.of_nat (S n)) with (y + 1 + Z.of_nat n) by lia.
    rewrite IH.
    replace (12 * S n + Z.to_nat em)%nat with (12 + (12 * n + Z.to_nat em))%nat
      by lia.
    rewrite (periods_from_app 12).
    destruct (periods_from_year 12 y 1) as [H1 H2]; [lia | lia |].
    rewrite H1, H2. reflexivity.
Qed.

(** The loops visit exactly the calendar months of the range. *)
Lemma loop_periods_range (sy sm ey em : Z) :
  1 <= sm <= 12 -> 1 <= em <= 12 ->
  sy < ey \/ (sy = ey /\ sm <= em) ->
  loop_periods sy sm ey em = period_range sy sm ey em.
Proof.
  intros Hsm Hem Hord. unfold loop_periods, period_range.
  rewrite (flat_map_ext _ _ (fun y => months_of_year sy sm ey em y Hsm Hem)).
  destruct Hord as [Hlt | [<- Hle]].
  - rewrite (range_cons sy) by lia. cbn [flat_map].
    rewrite (range_app (sy + 1) ey (ey + 1)) by lia.
    rewrite range_one, flat_map_app. cbn [flat_map].
    rewrite app_nil_r.
    rewrite !Z.eqb_refl.
    replace (sy =? ey) with false by (symmetry; apply Z.eqb_neq; lia).
    replace (ey =? sy) with false by (symmetry; apply Z.eqb_neq; lia).
    rewrite (flat_map_ext_in _ (fun y' => year_months y' 1 12)).
    2:{ intros y Hy. apply in_range in Hy.
        replace (y =? sy) with false by (symmetry; apply Z.eqb_neq; lia).
        replace (y =? ey) with false by (symmetry; apply Z.eqb_neq; lia).
        reflexivity. }
    pose proof (whole_years em (Z.to_nat (ey - sy - 1)) Hem (sy + 1)) as Hw.
    replace (sy + 1 + Z.of_nat (Z.to_nat (ey - sy - 1))) with ey in Hw by lia.
    rewrite Hw.
    destruct (periods_from_year (Z.to_nat (13 - sm)) sy sm) as [H1 H2];
      [lia | lia |].
    replace (sm + Z.of_nat (Z.to_nat (13 - sm)) - 1) with 12 in H1 by lia.
    replace (sm + Z.of_nat (Z.to_nat (13 - sm)) =? 13) with true in H2
      by (symmetry; apply Z.eqb_eq; lia).
    rewrite <- H1, <- H2, <- periods_from_app.
    f_equal. lia.
  - rewrite range_one. cbn [flat_map]. rewrite app_nil_r, Z.eqb_refl.
    destruct (periods_from_year (Z.to_nat (em - sm + 1)) sy sm) as [H1 _];
      [lia | lia |].
    replace (12 * (sy - sy) + (em - sm) + 1) with (em - sm + 1) by lia.
    rewrite H1. f_equal. lia.
Qed.

End Calendar.

(** ** Period keys *)

Module Keys.
Import Str StrFacts.

Lemma append_inj_tail (a : string) :
  forall b s1 s2,
    a ++ s1 = b ++ s2 -> String.length s1 = String.length s2 ->
    a = b /\ s1 = s2.
Proof.
  induction a as [|c a IH]; intros [|c' b] s1 s2 E Hlen.
  - auto.
  - exfalso. cbn [append] in E. subst s1.
    cbn [String.length] in Hlen. rewrite length_append in Hlen. lia.
  - exfalso. cbn [append] in E. subst s2.
    cbn [String.length] in Hlen. rewrite length_append in Hlen. lia.
  - cbn [append] in E. injection E as -> E.
    destruct (IH b s1 s2 E Hlen) as [-> ->]. auto.
Qed.

Lemma of_int_02d_month (m : Z) : 1 <= m <= 12 -> of_int_02d m = two_digits m.
Proof.
  intros H.
  destruct (Calendar.month_cases m H)
    as [->|[->|[->|[->|[->|[->|[->|[->|[->|[->|[->| ->]]]]]]]]]]];
    reflexivity.
Qed.

Lemma two_digits_inj (m1 m2 : Z) :
  1 <= m1 <= 12 -> 1 <= m2 <= 12 -> two_digits m1 = two_digits m2 -> m1 = m2.
Proof.
  intros H1 H2.
  destruct (Calendar.month_cases m1 H1)
    as [->|[->|[->|[->|[->|[->|[->|[->|[->|[->|[->| ->]]]]]]]]]]];
  destruct (Calendar.month_cases m2 H2)
    as [->|[->|[->|[->|[->|[->|[->|[->|[->|[->|[->| ->]]]]]]]]]]];
  intros E; try reflexivity; discriminate E.
Qed.

Lemma period_key_format (y m : Z) :
  1 <= m <= 12 -> period_key y m = of_int y ++ "-" ++ two_digits m.
Proof. intros H. unfold period_key. now rewrite of_int_02d_month. Qed.

Lemma period_key_inj (y1 m1 y2 m2 : Z) :
  1 <= m1 <= 12 -> 1 <= m2 <= 12 ->
  period_key y1 m1 = period_key y2 m2 -> y1 = y2 /\ m1 = m2.
Proof.
  intros H1 H2 E. rewrite !period_key_format in E by assumption.
  apply append_inj_tail in E as [Ey Em]; [|reflexivity].
  injection Em as Em1 Em2.
  split; [now apply Decimal.of_int_inj|].
  apply two_digits_inj; try assumption. unfold two_digits. congruence.
Qed.

(** Months stay in 1..12 along a run of consecutive periods, and the
    month count [12 * year + month] grows by one at each step. *)
Definition month_index (p : Z * Z) : Z := 12 * fst p + snd p.

Lemma periods_from_valid (n : nat) :
  forall p q,
    1 <= snd p <= 12 -> In q (periods_from n p) ->
    1 <= snd q <= 12 /\ month_index p <= month_index q.
Proof.
  induction n as [|n IH]; intros [y m] q Hp Hq; [contradiction|].
  cbn [periods_from] in Hq. destruct Hq as [<-|Hq]; [split; [assumption|lia]|].
  cbn [snd] in Hp.
  apply IH in Hq.
  - destruct Hq as [Hq1 Hq2]. split; [assumption|].
    unfold next_period, month_index in *. cbn [fst snd] in *.
    destruct (Z.eqb_spec m 12); cbn [fst snd] in Hq2; lia.
  - unfold next_period. destruct (Z.eqb_spec m 12); cbn [snd]; lia.
Qed.

Lemma periods_from_keys_nodup (n : nat) :
  forall p,
    1 <= snd p <= 12 ->
    NoDup (map (fun q => period_key (fst q) (snd q)) (periods_from n p)).
Proof.
  induction n as [|n IH]; intros [y m] Hp; [constructor|].
  cbn [periods_from map]. cbn [snd] in Hp.
  assert (Hnext : 1 <= snd (next_period (y, m)) <= 12).
  { unfold next_period. destruct (Z.eqb_spec m 12); cbn [snd]; lia. }
  constructor; [|now apply IH].
  intros Hin. apply in_map_iff in Hin as ([y' m'] & Hk & Hq).
  apply periods_from_valid in Hq as [Hm' Hidx]; [|assumption].
  cbn [fst snd] in *.
  apply period_key_inj in Hk as [-> ->]; [| assumption | assumption].
  unfold next_period, month_index in Hidx.
  destruct (Z.eqb_spec m 12); cbn [fst snd] in Hidx; lia.
Qed.

End Keys.

(** ** Traces of the aggregator *)

Module Trace.

Section WithServer.
Variable server : string -> response.

(** An event that is neither a failed request nor a write to the CSV
    file. *)
Definition quiet (ev : event) : Prop :=
  match ev with
  | Get u => server u <> Failed
  | Print _ => True
  | WriteCsv _ => False
  end.

Definition clean (t : list event) : Prop := Forall quiet t.

(** A clean trace that ends with a failed request. *)
Definition stopped (t : list event) : Prop :=
  exists t0 u, t = (t0 ++ [Get u])%list /\ clean t0 /\ server u = Failed.

(** A computation stops at the first failed request, with its exception,
    and writes nothing. *)
Definition fail_stop {A} (c : M A) : Prop :=
  match c with
  | (t, Ok _) => clean t
  | (t, Raise e) => clean t \/ (stopped t /\ e = RequestException)
  end.

Lemma clean_app (t1 t2 : list event) : clean t1 -> clean t2 -> clean (t1 ++ t2).
Proof. intros H1 H2. apply Forall_app. auto. Qed.

Lemma stopped_app (t1 t2 : list event) :
  clean t1 -> stopped t2 -> stopped (t1 ++ t2).
Proof.
  intros H1 (t0 & u & -> & H0 & Hu).
  exists (t1 ++ t0)%list, u. rewrite app_assoc.
  auto using clean_app.
Qed.

Lemma fail_stop_bind {A B} (m : M A) (f : A -> M B) :
  fail_stop m -> (forall a, fail_stop (f a)) -> fail_stop (bindM m f).
Proof.
  destruct m as [t [a|e]]; cbn [bindM fail_stop]; intros Hm Hf; [|exact Hm].
  specialize (Hf a). destruct (f a) as [t' [b|e]]; cbn [fail_stop] in *.
  - now apply clean_app.
  - destruct Hf as [Hc | [Hs ->]].
    + left. now apply clean_app.
    + right. split; [now apply stopped_app | reflexivity].
Qed.

Lemma fail_stop_ret {A} (a : A) : fail_stop (ret a).
Proof. constructor. Qed.

Lemma fail_stop_print (line : string) : fail_stop (emit (Print line)).
Proof. repeat constructor. Qed.

Lemma fail_stop_lift {A} (r : result A) : fail_stop (lift r).
Proof. destruct r; [constructor | left; constructor]. Qed.

Lemma fail_stop_page (url : string) :
  fail_stop (parse_awstats_monthly_page server url).
Proof.
  unfold parse_awstats_monthly_page, emit. cbn [bindM].
  destruct (server url) as [|tbl] eqn:Hs.
  - cbn [lift app]. right. split; [|reflexivity].
    exists [], url. repeat split; [constructor | assumption].
  - assert (Hq : quiet (Get url)) by (cbn [quiet]; congruence).
    destruct tbl as [rows|]; cbn [extract_private_bandwidth].
    + unfold lift. destruct (sum_rows _ _); cbn [app fail_stop].
      * repeat constructor; assumption.
      * left. repeat constructor; assumption.
    + cbn [emit bindM ret app fail_stop].
      repeat constructor; assumption.
Qed.

Lemma fail_stop_process_month (y m : Z) (d : dict) :
  fail_stop (process_month server y m d).
Proof.
  unfold process_month.
  apply fail_stop_bind; [apply fail_stop_print | intros _].
  apply fail_stop_bind; [apply fail_stop_page | intros bw].
  apply fail_stop_bind; [apply fail_stop_lift | intros s].
  apply fail_stop_bind; [apply fail_stop_print | intros _].
  apply fail_stop_ret.
Qed.

Lemma fail_stop_process_periods (ps : list (Z * Z)) :
  forall d, fail_stop (process_periods server ps d).
Proof.
  induction ps as [|[y m] ps IH]; intros d; cbn [process_periods].
  - apply fail_stop_ret.
  - apply fail_stop_bind; [apply fail_stop_process_month | apply IH].
Qed.

Lemma clean_no_failed_get (t : list event) (u : string) :
  clean t -> In (Get u) t -> server u <> Failed.
Proof.
  intros Hc Hin. unfold clean in Hc. rewrite Forall_forall in Hc.
  exact (Hc _ Hin).
Qed.

Lemma clean_no_write (t : list event) (rows : list (list string)) :
  clean t -> ~ In (WriteCsv rows) t.
Proof.
  intros Hc Hin. unfold clean in Hc. rewrite Forall_forall in Hc.
  exact (Hc _ Hin).
Qed.

Lemma stopped_no_write (t : list event) (rows : list (list string)) :
  stopped t -> ~ In (WriteCsv rows) t.
Proof.
  intros (t0 & u & -> & Hc & _) Hin. apply in_app_or in Hin as [Hin|Hin].
  - now apply (clean_no_write t0 rows).
  - destruct Hin as [Hin|[]]. discriminate Hin.
Qed.

(** A failed request is the last event, and its exception is the
    outcome. *)
Lemma fail_stop_last {A} (t : list event) (r : result A)
  (t1 : list event) (u : string) (t2 : list event) :
  fail_stop (t, r) ->
  t = (t1 ++ Get u :: t2)%list -> server u = Failed ->
  t2 = [] /\ r = Raise RequestException.
Proof.
  intros Hfs Ht Hu.
  assert (Hin : In (Get u) t) by (rewrite Ht; apply in_elt).
  assert (Hnc : ~ clean t)
    by (intros Hc; now apply (clean_no_failed_get t u Hc Hin)).
  destruct r as [a|e]; cbn [fail_stop] in Hfs; [contradiction|].
  destruct Hfs as [Hc | [(t0 & u' & Ht0 & Hc0 & Hu') ->]]; [contradiction|].
  split; [|reflexivity].
  destruct t2 as [|x t2']; [reflexivity | exfalso].
  destruct (exists_last (l := x :: t2')) as (t2'' & z & E); [discriminate|].
  rewrite E in Ht. rewrite Ht in Ht0.
  change (t1 ++ Get u :: t2'' ++ [z])%list
    with (t1 ++ (Get u :: t2'') ++ [z])%list in Ht0.
  rewrite app_assoc in Ht0. apply app_inj_tail in Ht0 as [Ht0 _].
  apply (clean_no_failed_get t0 u Hc0); [|assumption].
  rewrite <- Ht0. apply in_elt.
Qed.

(** A run that returns has requested every period of its list. *)
Lemma process_month_get (y m : Z) (d d' : dict) (t : list event) :
  process_month server y m d = (t, Ok d') ->
  In (Get (period_url y m)) t
  /\ exists bw, d' = dict_set (period_key y m) bw d.
Proof.
  unfold process_month, parse_awstats_monthly_page, emit. cbn [bindM].
  destruct (match server (period_url y m) with
            | Failed => lift (Raise RequestException)
            | Page tbl => extract_private_bandwidth tbl
            end) as [t1 [bw|e]]; cbn [bindM app]; [|discriminate].
  unfold lift. destruct (format_bandwidth bw) as [s|e]; cbn [bindM app ret];
    [|rewrite app_nil_r; discriminate].
  intros [= <- <-]. split; [right; left; reflexivity | eauto].
Qed.

Lemma process_periods_gets (ps : list (Z * Z)) :
  forall d d' t,
    process_periods server ps d = (t, Ok d') ->
    forall y m, In (y, m) ps -> In (Get (period_url y m)) t.
Proof.
  induction ps as [|[y0 m0] ps IH]; intros d d' t H y m Hin; [contradiction|].
  cbn [process_periods] in H.
  destruct (process_month server y0 m0 d) as [t1 [d1|e]] eqn:H1;
    cbn [bindM] in H; [|discriminate].
  destruct (process_periods server ps d1) as [t2 r2] eqn:H2.
  injection H as <- ->.
  apply in_or_app. destruct Hin as [[= -> ->]|Hin].
  - left. now apply process_month_get in H1 as [H1 _].
  - right. eapply IH; eauto.
Qed.

(** The keys of the dictionary: the old ones, then one per period, in
    the order of the list. *)
Lemma dict_set_fresh (k : string) (v : Z) (d : dict) :
  ~ In k (map fst d) -> dict_set k v d = (d ++ [(k, v)])%list.
Proof.
  induction d as [|[k' v'] d IH]; cbn [dict_set map fst app In]; intros H;
    [reflexivity|].
  destruct (String.eqb_spec k' k) as [->|Hne]; [tauto|].
  rewrite IH by tauto. reflexivity.
Qed.


Variables start_year start_month end_year end_month : Z.

Let ps := loop_periods start_year start_month end_year end_month.
Let run :=
  fetch_and_save_monthly_data server start_year start_month end_year end_month.

(** The two ways a run can end. *)
Lemma run_cases :
  (exists t0 d,
      run = ((t0 ++ [WriteCsv (csv_rows d)])%list, Ok d)
      /\ process_periods server ps [] = (t0, Ok d)
      /\ clean t0)
  \/ (exists t0 e,
         run = (t0, Raise e)
         /\ (clean t0 \/ (stopped t0 /\ e = RequestException))).
Proof.
  unfold run. rewrite Loops.fetch_and_save_flat. fold ps.
  pose proof (fail_stop_process_periods ps []) as Hfs.
  destruct (process_periods server ps []) as [t0 [d|e]]; cbn [fail_stop] in Hfs.
  - left. exists t0, d. cbn [bindM emit ret app]. auto.
  - right. exists t0, e. cbn [bindM]. auto.
Qed.

End WithServer.

End Trace.

(** ** Rounding: the arithmetic of [round_ratio] *)

Module Rounding.
Import Float.

(** Doubles are integer multiples of [2^-1074]; values are compared after
    scaling by [B = 2^1074]. *)
Definition B : Z := 2 ^ 1074.

Lemma B_pos : 0 < B.
Proof. reflexivity. Qed.

Lemma pow2_pos (a : Z) : 0 <= a -> 0 < 2 ^ a.
Proof. intros H. apply Z.pow_pos_nonneg; lia. Qed.

Lemma pow2_add (a b : Z) : 0 <= a -> 0 <= b -> 2 ^ (a + b) = 2 ^ a * 2 ^ b.
Proof. intros Ha Hb. now apply Z.pow_add_r. Qed.

Lemma pow2_le (a b : Z) : 0 <= a <= b -> 2 ^ a <= 2 ^ b.
Proof. intros H. apply Z.pow_le_mono_r; lia. Qed.

Lemma pow2_lt_inv (a b : Z) : 0 <= a -> 0 <= b -> 2 ^ a < 2 ^ b -> a < b.
Proof. intros Ha Hb H. apply (Z.pow_lt_mono_r_iff 2); lia. Qed.

Lemma rhe_bounds (a b : Z) :
  0 <= a -> 0 < b -> - b <= 2 * (rhe a b * b - a) <= b.
Proof.
  intros Ha Hb. unfold rhe.
  pose proof (Z.div_mod a b ltac:(lia)) as Hdm.
  pose proof (Z.mod_pos_bound a b Hb) as Hr.
  set (q := a / b) in *. set (r := a mod b) in *.
  destruct (Z.ltb_spec (2 * r) b); [nia|].
  destruct (Z.ltb_spec b (2 * r)); [nia|].
  destruct (Z.even q); nia.
Qed.

Lemma rhe_nonneg (a b : Z) : 0 <= a -> 0 < b -> 0 <= rhe a b.
Proof.
  intros Ha Hb. unfold rhe.
  pose proof (Z.div_pos a b Ha Hb).
  destruct (2 * (a mod b) <? b); [lia|].
  destruct (b <? 2 * (a mod b)); [lia|].
  destruct (Z.even (a / b)); lia.
Qed.

Lemma rhe_exact (q b : Z) : 0 < b -> rhe (q * b) b = q.
Proof.
  intros Hb. unfold rhe. rewrite Z.div_mul, Z.mod_mul by lia.
  replace (2 * 0 <? b) with true by (symmetry; apply Z.ltb_lt; lia).
  reflexivity.
Qed.

Lemma rhe_scale (a b c : Z) : 0 < b -> 0 < c -> rhe (a * c) (b * c) = rhe a b.
Proof.
  intros Hb Hc. unfold rhe.
  rewrite Z.div_mul_cancel_r, Z.mul_mod_distr_r by lia.
  set (r := a mod b).
  replace (2 * (r * c) <? b * c) with (2 * r <? b).
  2:{ destruct (Z.ltb_spec (2 * r) b), (Z.ltb_spec (2 * (r * c)) (b * c));
      try reflexivity; nia. }
  replace (b * c <? 2 * (r * c)) with (b <? 2 * r).
  2:{ destruct (Z.ltb_spec b (2 * r)), (Z.ltb_spec (b * c) (2 * (r * c)));
      try reflexivity; nia. }
  reflexivity.
Qed.

Lemma rhe_le (a b k : Z) : 0 <= a -> 0 < b -> a <= k * b -> rhe a b <= k.
Proof.
  intros Ha Hb H. pose proof (rhe_bounds a b Ha Hb). nia.
Qed.

Lemma rhe_ge (a b k : Z) : 0 <= a -> 0 < b -> k * b <= a -> k <= rhe a b.
Proof.
  intros Ha Hb H. pose proof (rhe_bounds a b Ha Hb). nia.
Qed.

(** [ilog2 n d] is the exponent of the leading bit of [n / d]. *)
Lemma ilog2_lower (n d : Z) :
  0 < n -> 0 < d ->
  let g := ilog2 n d in
  (0 <= g -> d * 2 ^ g <= n) /\ (g < 0 -> d <= n * 2 ^ (- g)).
Proof.
  intros Hn Hd. unfold ilog2.
  pose proof (Z.log2_spec n Hn) as [Hn1 Hn2].
  pose proof (Z.log2_spec d Hd) as [Hd1 Hd2].
  pose proof (Z.log2_nonneg n) as Ha. pose proof (Z.log2_nonneg d) as Hb.
  set (a := Z.log2 n) in *. set (b := Z.log2 d) in *.
  clearbody a b. unfold Z.succ in *.
  destruct (Z.leb_spec 0 (a - b)) as [Hg|Hg].
  - destruct (Z.leb_spec (d * 2 ^ (a - b)) n) as [Ht|Ht]; cbv zeta.
    + split; [intros _; exact Ht | lia].
    + split; intros Hs.
      * assert (E : 2 ^ a = 2 ^ (b + 1) * 2 ^ (a - b - 1))
          by (rewrite <- pow2_add by lia; f_equal; lia).
        pose proof (pow2_pos (a - b - 1) ltac:(lia)). nia.
      * assert (a = b) by lia.
        replace (- (a - b - 1)) with 1 by lia.
        rewrite pow2_add in Hd2 by lia. change (2 ^ 1) with 2 in *.
        replace b with a in * by lia. lia.
  - destruct (Z.leb_spec d (n * 2 ^ (- (a - b)))) as [Ht|Ht]; cbv zeta.
    + split; [lia | intros _; exact Ht].
    + split; [lia | intros _].
      assert (E : 2 ^ (b + 1) = 2 ^ a * 2 ^ (- (a - b - 1)))
        by (rewrite <- pow2_add by lia; f_equal; lia).
      pose proof (pow2_pos (- (a - b - 1)) ltac:(lia)). nia.
Qed.

Lemma ilog2_upper (n d : Z) :
  0 < n -> 0 < d ->
  let g := ilog2 n d in
  (0 <= g + 1 -> n < d * 2 ^ (g + 1))
  /\ (g + 1 < 0 -> n * 2 ^ (- (g + 1)) < d).
Proof.
  intros Hn Hd. unfold ilog2.
  pose proof (Z.log2_spec n Hn) as [Hn1 Hn2].
  pose proof (Z.log2_spec d Hd) as [Hd1 Hd2].
  pose proof (Z.log2_nonneg n) as Ha. pose proof (Z.log2_nonneg d) as Hb.
  set (a := Z.log2 n) in *. set (b := Z.log2 d) in *.
  clearbody a b. unfold Z.succ in *.
  destruct (Z.leb_spec 0 (a - b)) as [Hg|Hg].
  - destruct (Z.leb_spec (d * 2 ^ (a - b)) n) as [Ht|Ht]; cbv zeta.
    + split; [intros _ | lia].
      assert (E : 2 ^ (a + 1) = 2 ^ b * 2 ^ (a - b + 1))
        by (rewrite <- pow2_add by lia; f_equal; lia).
      pose proof (pow2_pos (a - b + 1) ltac:(lia)). nia.
    + split; [intros _ | lia].
      replace (a - b - 1 + 1) with (a - b) by lia. exact Ht.
  - destruct (Z.leb_spec d (n * 2 ^ (- (a - b)))) as [Ht|Ht]; cbv zeta.
    + split; intros Hs.
      * assert (b = a + 1) by lia. subst b.
        replace (a - (a + 1) + 1) with 0 by lia. change (2 ^ 0) with 1. lia.
      * assert (E : 2 ^ b = 2 ^ (a + 1) * 2 ^ (- (a - b + 1)))
          by (rewrite <- pow2_add by lia; f_equal; lia).
        pose proof (pow2_pos (- (a - b + 1)) ltac:(lia)). nia.
    + split; [lia | intros _].
      replace (- (a - b - 1 + 1)) with (- (a - b)) by lia. exact Ht.
Qed.

(** The exponent, the unit in the last place (scaled by [B]) and the
    mantissa that [round_ratio] computes before it renormalises. *)
Definition exp0 (n d : Z) : Z := Z.max (ilog2 n d - 52) (-1074).
Definition ulp0 (n d : Z) : Z := 2 ^ (exp0 n d + 1074).
Definition mant0 (n d : Z) : Z := rhe (n * B) (d * ulp0 n d).

Lemma exp0_ge (n d : Z) : -1074 <= exp0 n d.
Proof. unfold exp0. lia. Qed.

Lemma ulp0_pos (n d : Z) : 0 < ulp0 n d.
Proof. unfold ulp0. apply pow2_pos. pose proof (exp0_ge n d). lia. Qed.

Lemma mant0_eq (n d : Z) :
  0 < n -> 0 < d ->
  (if 0 <=? exp0 n d then rhe n (d * 2 ^ exp0 n d)
   else rhe (n * 2 ^ (- exp0 n d)) d)
  = mant0 n d.
Proof.
  intros Hn Hd. unfold mant0, ulp0.
  pose proof (exp0_ge n d) as He. set (e := exp0 n d) in *. clearbody e.
  destruct (Z.leb_spec 0 e) as [H|H].
  - rewrite <- (rhe_scale n (d * 2 ^ e) B) by
      (pose proof (pow2_pos e H); pose proof B_pos; nia).
    f_equal. unfold B. rewrite pow2_add by lia. ring.
  - rewrite <- (rhe_scale (n * 2 ^ (- e)) d (2 ^ (e + 1074)))
      by (try apply pow2_pos; lia).
    f_equal. unfold B. rewrite <- Z.mul_assoc, <- pow2_add by lia.
    do 2 f_equal. lia.
Qed.

Lemma core_upper (n d : Z) :
  0 < n -> 0 < d -> n * B < d * 2 ^ 53 * ulp0 n d.
Proof.
  intros Hn Hd. unfold ulp0, exp0, B.
  destruct (ilog2_upper n d Hn Hd) as [H1 H2].
  set (g := ilog2 n d) in *. clearbody g.
  set (t := Z.max (g - 52) (-1074) + 1074).
  assert (Ht : 0 <= t /\ g + 1 + 1074 <= 53 + t) by (unfold t; lia).
  clearbody t.
  rewrite <- Z.mul_assoc, <- pow2_add by lia.
  destruct (Z.le_gt_cases 0 (g + 1)) as [Hs|Hs].
  - specialize (H1 Hs).
    assert (E : 2 ^ (53 + t) = 2 ^ (g + 1) * 2 ^ 1074 * 2 ^ (53 + t - (g + 1 + 1074))).
    { rewrite <- !pow2_add by lia. f_equal. lia. }
    rewrite E.
    pose proof (pow2_pos (53 + t - (g + 1 + 1074)) ltac:(lia)).
    pose proof (pow2_pos 1074 ltac:(lia)).
    pose proof (pow2_pos (g + 1) Hs).
    nia.
  - specialize (H2 Hs).
    destruct (Z.le_gt_cases 1074 (- (g + 1))) as [Hbig|Hsmall].
    + pose proof (pow2_le 1074 (- (g + 1)) ltac:(lia)).
      pose proof (pow2_pos (53 + t) ltac:(lia)).
      pose proof (pow2_pos 1074 ltac:(lia)). nia.
    + assert (E1 : 2 ^ 1074 = 2 ^ (- (g + 1)) * 2 ^ (1074 + (g + 1)))
        by (rewrite <- pow2_add by lia; f_equal; lia).
      pose proof (pow2_le (1074 + (g + 1)) (53 + t) ltac:(lia)).
      pose proof (pow2_pos (1074 + (g + 1)) ltac:(lia)).
      pose proof (pow2_pos (- (g + 1)) ltac:(lia)).
      rewrite E1. nia.
Qed.

Lemma core_lower (n d : Z) :
  0 < n -> 0 < d -> -1074 < exp0 n d -> d * 2 ^ 52 * ulp0 n d <= n * B.
Proof.
  intros Hn Hd. unfold ulp0, exp0, B.
  destruct (ilog2_lower n d Hn Hd) as [H1 H2].
  set (g := ilog2 n d) in *. clearbody g. intros He.
  replace (Z.max (g - 52) (-1074)) with (g - 52) by lia.
  rewrite <- Z.mul_assoc, <- pow2_add by lia.
  replace (52 + (g - 52 + 1074)) with (g + 1074) by lia.
  destruct (Z.le_gt_cases 0 g) as [Hs|Hs].
  - specialize (H1 Hs). rewrite pow2_add by lia.
    pose proof (pow2_pos 1074 ltac:(lia)). nia.
  - specialize (H2 Hs).
    assert (E : 2 ^ 1074 = 2 ^ (- g) * 2 ^ (g + 1074))
      by (rewrite <- pow2_add by lia; f_equal; lia).
    rewrite E. pose proof (pow2_pos (g + 1074) ltac:(lia)). nia.
Qed.

Lemma mant0_bounds (n d : Z) :
  0 < n -> 0 < d ->
  0 <= mant0 n d <= 2 ^ 53
  /\ (-1074 < exp0 n d -> 2 ^ 52 <= mant0 n d)
  /\ Z.abs (d * (mant0 n d * ulp0 n d) - n * B) * 2 <= d * ulp0 n d.
Proof.
  intros Hn Hd. unfold mant0.
  pose proof (ulp0_pos n d) as Hu. pose proof B_pos as HB.
  pose proof (core_upper n d Hn Hd) as Hup.
  assert (Hnum : 0 <= n * B) by nia.
  assert (Hden : 0 < d * ulp0 n d) by nia.
  repeat split.
  - now apply rhe_nonneg.
  - apply rhe_le; try assumption. nia.
  - intros He. pose proof (core_lower n d Hn Hd He).
    apply rhe_ge; try assumption. nia.
  - pose proof (rhe_bounds (n * B) (d * ulp0 n d) Hnum Hden). nia.
Qed.

Lemma round_ratio_unfold (n d : Z) :
  0 < n -> 0 < d ->
  round_ratio n d
  = let (m, e) := if mant0 n d =? 2 ^ 53 then (2 ^ 52, exp0 n d + 1)
                  else (mant0 n d, exp0 n d) in
    if 1024 <=? Z.log2 m + e then Infinity else Finite m e.
Proof.
  intros Hn Hd. unfold round_ratio.
  replace (n =? 0) with false by (symmetry; apply Z.eqb_neq; lia).
  fold (exp0 n d). cbv zeta. now rewrite mant0_eq.
Qed.

Lemma log2_lt_53 (m : Z) : 0 <= m < 2 ^ 53 -> Z.log2 m < 53.
Proof.
  intros H. destruct (Z.eq_dec m 0) as [->|Hm]; [reflexivity|].
  apply Z.log2_lt_pow2; lia.
Qed.

Lemma finite_lt (m e : Z) :
  0 <= m -> -1074 <= e -> Z.log2 m + e < 1024 ->
  m * 2 ^ (e + 1074) < 2 ^ 1024 * B.
Proof.
  intros Hm He Hov. unfold B.
  pose proof (pow2_pos (e + 1074) ltac:(lia)) as Hu.
  destruct (Z.eq_dec m 0) as [->|Hnz].
  - pose proof (pow2_pos 1024 ltac:(lia)). pose proof (pow2_pos 1074 ltac:(lia)).
    nia.
  - pose proof (Z.log2_spec m ltac:(lia)) as [_ Hl2].
    pose proof (Z.log2_nonneg m) as Hl0. unfold Z.succ in Hl2.
    set (L := Z.log2 m) in *. clearbody L.
    assert (H1 : m * 2 ^ (e + 1074) < 2 ^ (L + 1) * 2 ^ (e + 1074))
      by (apply Z.mul_lt_mono_pos_r; lia).
    assert (H2 : 2 ^ (L + 1) * 2 ^ (e + 1074) <= 2 ^ 1024 * 2 ^ 1074)
      by (rewrite <- !pow2_add by lia; apply pow2_le; lia).
    lia.
Qed.

(** What [round_ratio] returns: a 53-bit mantissa, normalised unless the
    value is subnormal, within half a unit in the last place of [n / d];
    infinity only from [2^1023] up. *)
Lemma round_ratio_spec (n d : Z) :
  0 < n -> 0 < d ->
  match round_ratio n d with
  | Finite m e =>
      -1074 <= e /\ 0 <= m < 2 ^ 53
      /\ (-1074 < e -> 2 ^ 52 <= m)
      /\ Z.abs (d * (m * 2 ^ (e + 1074)) - n * B) * 2 <= d * 2 ^ (e + 1074)
      /\ m * 2 ^ (e + 1074) < 2 ^ 1024 * B
  | Infinity => d * 2 ^ 1023 <= n
  | NaN => False
  end.
Proof.
  intros Hn Hd. rewrite round_ratio_unfold by assumption.
  destruct (mant0_bounds n d Hn Hd) as (Hm & Hnorm & Herr).
  pose proof (exp0_ge n d) as He. pose proof (ulp0_pos n d) as Hu.
  assert (Hinf : forall m e, 0 <= m < 2 ^ 53 -> exp0 n d <= e <= exp0 n d + 1 ->
                   (e = exp0 n d + 1 -> -1074 < exp0 n d \/ 2 ^ 52 <= mant0 n d) ->
                   1024 <= Z.log2 m + e -> d * 2 ^ 1023 <= n).
  { intros m e Hm' He' Hren Hov.
    pose proof (log2_lt_53 m Hm').
    assert (Hbig : 971 <= exp0 n d) by lia.
    pose proof (core_lower n d Hn Hd ltac:(lia)) as Hl.
    unfold ulp0 in Hl.
    assert (E : 2 ^ 52 * 2 ^ (exp0 n d + 1074)
                = 2 ^ 1023 * 2 ^ (exp0 n d - 971) * B).
    { unfold B. rewrite <- !pow2_add by lia. f_equal. lia. }
    rewrite <- Z.mul_assoc, E in Hl.
    pose proof (pow2_pos (exp0 n d - 971) ltac:(lia)) as HP.
    pose proof (pow2_pos 1023 ltac:(lia)) as HK.
    pose proof B_pos as HB.
    set (P := 2 ^ (exp0 n d - 971)) in *. set (K := 2 ^ 1023) in *.
    clearbody P K. revert HB Hl. generalize B. intros b HB Hl.
    apply (Z.mul_le_mono_pos_r _ _ b HB).
    eapply Z.le_trans; [|exact Hl].
    replace (d * (K * P * b)) with (d * K * b * P) by ring.
    assert (0 < d * K * b) by nia. nia. }
  destruct (Z.eqb_spec (mant0 n d) (2 ^ 53)) as [Hren|Hren].
  - destruct (Z.leb_spec 1024 (Z.log2 (2 ^ 52) + (exp0 n d + 1))) as [Hov|Hov].
    + apply (Hinf (2 ^ 52) (exp0 n d + 1)); lia.
    + repeat split; try lia; [|apply finite_lt; lia].
      unfold ulp0 in *. rewrite Hren in Herr.
      replace (exp0 n d + 1 + 1074) with (1 + (exp0 n d + 1074)) by lia.
      rewrite pow2_add by lia. change (2 ^ 1) with 2.
      set (u := 2 ^ (exp0 n d + 1074)) in *. clearbody u.
      change (2 ^ 53) with (2 ^ 52 * 2) in Herr. nia.
  - destruct (Z.leb_spec 1024 (Z.log2 (mant0 n d) + exp0 n d)) as [Hov|Hov].
    + apply (Hinf (mant0 n d) (exp0 n d)); lia.
    + repeat split; try lia; [exact Herr | apply finite_lt; lia].
Qed.

(** A quotient that is a double already is returned as it is. *)
Lemma round_ratio_exact (n d m e : Z) :
  0 < n -> 0 < d -> 0 < m < 2 ^ 53 -> -1074 <= e ->
  n * B = d * (m * 2 ^ (e + 1074)) ->
  (m * 2 ^ (e + 1074) < 2 ^ 1024 * B ->
   exists m' e',
     round_ratio n d = Finite m' e' /\ -1074 <= e'
     /\ m' * 2 ^ (e' + 1074) = m * 2 ^ (e + 1074))
  /\ (2 ^ 1024 * B <= m * 2 ^ (e + 1074) -> round_ratio n d = Infinity).
Proof.
  intros Hn Hd Hm He Hval.
  rewrite round_ratio_unfold by assumption.
  pose proof (exp0_ge n d) as He0. pose proof (ulp0_pos n d) as Hu.
  pose proof (core_upper n d Hn Hd) as Hup.
  pose proof (pow2_pos (e + 1074) ltac:(lia)) as Hpe.
  set (V := m * 2 ^ (e + 1074)) in *.
  assert (Hle : exp0 n d <= e).
  { destruct (Z.eq_dec (exp0 n d) (-1074)) as [->|Hne]; [lia|].
    pose proof (core_lower n d Hn Hd ltac:(lia)) as Hl.
    assert (Hlt : ulp0 n d < 2 ^ (e + 1075)).
    { replace (e + 1075) with (1 + (e + 1074)) by lia.
      rewrite pow2_add by lia. change (2 ^ 1) with 2.
      assert (H1 : 2 ^ 52 * ulp0 n d <= V).
      { apply (Z.mul_le_mono_pos_l _ _ d Hd). rewrite <- Hval.
        now rewrite Z.mul_assoc. }
      unfold V in H1. nia. }
    unfold ulp0 in Hlt. apply pow2_lt_inv in Hlt; lia. }
  assert (HV : V = m * 2 ^ (e - exp0 n d) * ulp0 n d).
  { unfold V, ulp0. rewrite <- Z.mul_assoc, <- pow2_add by lia.
    do 2 f_equal. lia. }
  assert (Hm0 : mant0 n d = m * 2 ^ (e - exp0 n d)).
  { unfold mant0. rewrite Hval, HV.
    replace (d * (m * 2 ^ (e - exp0 n d) * ulp0 n d))
      with (m * 2 ^ (e - exp0 n d) * (d * ulp0 n d)) by ring.
    apply rhe_exact. nia. }
  assert (Hlt53 : mant0 n d < 2 ^ 53).
  { rewrite Hval, HV, <- Hm0 in Hup. nia. }
  replace (mant0 n d =? 2 ^ 53) with false by (symmetry; apply Z.eqb_neq; lia).
  assert (Hpos : 0 < mant0 n d).
  { rewrite Hm0. pose proof (pow2_pos (e - exp0 n d) ltac:(lia)). nia. }
  pose proof (Z.log2_spec (mant0 n d) Hpos) as [Hl1 Hl2].
  pose proof (Z.log2_nonneg (mant0 n d)) as Hl0.
  set (L := Z.log2 (mant0 n d)) in *. clearbody L. unfold Z.succ in Hl2.
  assert (HVm : V = mant0 n d * ulp0 n d) by (rewrite Hm0; exact HV).
  unfold B.
  unfold ulp0 in HVm.
  pose proof (pow2_pos (exp0 n d + 1074) ltac:(lia)) as Hu0.
  destruct (Z.leb_spec 1024 (L + exp0 n d)) as [Hov|Hov]; split.
  - intros Hfin. exfalso.
    assert (H1 : 2 ^ L * 2 ^ (exp0 n d + 1074) <= V)
      by (rewrite HVm; apply Z.mul_le_mono_nonneg_r; lia).
    assert (H2 : 2 ^ 1024 * 2 ^ 1074 <= 2 ^ L * 2 ^ (exp0 n d + 1074))
      by (rewrite <- !pow2_add by lia; apply pow2_le; lia).
    lia.
  - reflexivity.
  - intros _. exists (mant0 n d), (exp0 n d).
    repeat split; [assumption|]. lia.
  - intros Hinf. exfalso.
    assert (H1 : V < 2 ^ (L + 1) * 2 ^ (exp0 n d + 1074))
      by (rewrite HVm; apply Z.mul_lt_mono_pos_r; lia).
    assert (H2 : 2 ^ (L + 1) * 2 ^ (exp0 n d + 1074) <= 2 ^ 1024 * 2 ^ 1074)
      by (rewrite <- !pow2_add by lia; apply pow2_le; lia).
    lia.
Qed.

(** [int(x)] is the scaled value divided by [B]. *)
Lemma to_int_fixed (m e : Z) :
  -1074 <= e -> to_int (Finite m e) = Ok (m * 2 ^ (e + 1074) / B).
Proof.
  intros He. unfold to_int, B. f_equal.
  destruct (Z.leb_spec 0 e) as [H|H].
  - rewrite pow2_add, Z.mul_assoc, Z.div_mul by lia. reflexivity.
  - assert (E : 2 ^ 1074 = 2 ^ (- e) * 2 ^ (e + 1074))
      by (rewrite <- pow2_add by lia; f_equal; lia).
    rewrite E. rewrite Z.div_mul_cancel_r; [reflexivity | |];
      apply Z.neq_sym, Z.lt_neq, pow2_pos; lia.
Qed.

(** A quotient of at least one is rounded to a normal double. *)
Lemma round_ratio_normal (n d : Z) :
  0 < d <= n ->
  match round_ratio n d with
  | Finite m e =>
      -1074 < e /\ 2 ^ 52 <= m < 2 ^ 53
      /\ Z.abs (d * (m * 2 ^ (e + 1074)) - n * B) * 2 <= d * 2 ^ (e + 1074)
  | Infinity => d * 2 ^ 1023 <= n
  | NaN => False
  end.
Proof.
  intros [Hd Hn].
  pose proof (round_ratio_spec n d ltac:(lia) Hd) as H.
  destruct (round_ratio n d) as [m e| |]; try exact H.
  destruct H as (He & Hm & Hnorm & Herr & _).
  assert (Hlt : -1074 < e).
  { destruct (Z.eq_dec e (-1074)) as [->|]; [exfalso | lia].
    change (2 ^ (-1074 + 1074)) with 1 in Herr. unfold B in Herr.
    assert (E : 2 ^ 1074 = 2 ^ 53 * 2 ^ 1021) by reflexivity.
    rewrite E in Herr.
    pose proof (pow2_pos 1021 ltac:(lia)) as HP.
    set (P := 2 ^ 1021) in *. clearbody P.
    assert (d * 2 ^ 53 <= n * (2 ^ 53 * P)) by nia.
    nia. }
  repeat split; lia.
Qed.

(** The result of [round_ratio] always has the shape of a double. *)
Definition wf (x : float) : Prop :=
  match x with
  | Finite m e =>
      -1074 <= e /\ 0 <= m < 2 ^ 53 /\ m * 2 ^ (e + 1074) < 2 ^ 1024 * B
  | Infinity => True
  | NaN => False
  end.

Lemma round_ratio_wf (n d : Z) : 0 <= n -> 0 < d -> wf (round_ratio n d).
Proof.
  intros Hn Hd. destruct (Z.eq_dec n 0) as [->|Hnz].
  - unfold round_ratio, wf. cbn [Z.eqb]. repeat split; try lia; reflexivity.
  - pose proof (round_ratio_spec n d ltac:(lia) Hd) as H.
    destruct (round_ratio n d); unfold wf; [| exact I | exact H].
    destruct H as (H1 & H2 & _ & _ & H3). auto.
Qed.

End Rounding.

(** ** Float operations of the script *)

Module FloatOps.
Import Float Rounding.

Lemma scaled_floor_fixed (m e s : Z) :
  -1074 <= e -> scaled_floor m e s = m * 2 ^ (e + 1074) * s / B.
Proof.
  intros He. unfold scaled_floor, B.
  destruct (Z.leb_spec 0 e) as [H|H].
  - rewrite pow2_add by lia.
    replace (m * (2 ^ e * 2 ^ 1074) * s) with (m * 2 ^ e * s * 2 ^ 1074) by ring.
    now rewrite Z.div_mul by lia.
  - assert (E : 2 ^ 1074 = 2 ^ (- e) * 2 ^ (e + 1074))
      by (rewrite <- pow2_add by lia; f_equal; lia).
    rewrite E.
    replace (m * 2 ^ (e + 1074) * s) with (m * s * 2 ^ (e + 1074)) by ring.
    rewrite Z.div_mul_cancel_r; [reflexivity | |];
      apply Z.neq_sym, Z.lt_neq, pow2_pos; lia.
Qed.

(** Multiplying by a power of two only moves the exponent, unless the
    product overflows. *)
Lemma mul_pow2 (m e j : Z) :
  wf (Finite m e) -> 0 <= j ->
  let V := m * 2 ^ (e + 1074) * 2 ^ j in
  (V < 2 ^ 1024 * B ->
   exists m' e',
     mul (Finite m e) (Finite (2 ^ 52) (j - 52)) = Finite m' e'
     /\ -1074 <= e' /\ m' * 2 ^ (e' + 1074) = V)
  /\ (2 ^ 1024 * B <= V ->
      mul (Finite m e) (Finite (2 ^ 52) (j - 52)) = Infinity).
Proof.
  intros (He & Hm & _) Hj V. unfold mul, of_dyadic.
  assert (HV : V = m * 2 ^ (e + j + 1074)).
  { unfold V. rewrite <- Z.mul_assoc, <- pow2_add by lia. do 2 f_equal. lia. }
  destruct (Z.eq_dec m 0) as [->|Hnz].
  - replace V with 0 by (rewrite HV; ring).
    assert (forall d, round_ratio 0 d = Finite 0 0) as H0 by reflexivity.
    rewrite !Z.mul_0_l, !H0. destruct (0 <=? e + (j - 52)); split.
    + intros _. exists 0, 0. repeat split; lia.
    + intros H. exfalso. pose proof B_pos. pose proof (pow2_pos 1024 ltac:(lia)). nia.
    + intros _. exists 0, 0. repeat split; lia.
    + intros H. exfalso. pose proof B_pos. pose proof (pow2_pos 1024 ltac:(lia)). nia.
  - rewrite HV.
    destruct (Z.leb_spec 0 (e + (j - 52))) as [HE|HE].
    + apply round_ratio_exact; [| lia | lia | lia |].
      * pose proof (pow2_pos (e + (j - 52)) HE).
        pose proof (pow2_pos 52 ltac:(lia)). nia.
      * unfold B. rewrite Z.mul_1_l, <- !Z.mul_assoc, <- !pow2_add by lia.
        do 2 f_equal. lia.
    + apply round_ratio_exact; [| | lia | lia |].
      * pose proof (pow2_pos 52 ltac:(lia)). nia.
      * apply pow2_pos. lia.
      * unfold B.
        replace (2 ^ (- (e + (j - 52))) * (m * 2 ^ (e + j + 1074)))
          with (m * (2 ^ (- (e + (j - 52))) * 2 ^ (e + j + 1074))) by ring.
        rewrite <- !Z.mul_assoc, <- !pow2_add by lia.
        do 2 f_equal. lia.
Qed.

Lemma of_int_scale (k : Z) :
  k = 1 \/ k = 2 \/ k = 3 \/ k = 4 ->
  Float.of_int (1024 ^ k) = Ok (Finite (2 ^ 52) (10 * k - 52))
  /\ 1024 ^ k = 2 ^ (10 * k).
Proof. intros [->|[->|[->| ->]]]; split; reflexivity. Qed.

(** [int(value * 1024 ** k)]: the scaled value truncated, OverflowError
    when the product is infinite. *)
Lemma int_of_scaled_spec (m e k : Z) :
  wf (Finite m e) ->
  k = 1 \/ k = 2 \/ k = 3 \/ k = 4 ->
  int_of_scaled (Finite m e) (1024 ^ k)
  = if scaled_floor m e (1024 ^ k) <? 2 ^ 1024
    then Ok (scaled_floor m e (1024 ^ k))
    else Raise OverflowError.
Proof.
  intros Hwf Hk. unfold int_of_scaled.
  destruct (of_int_scale k Hk) as [-> Hpow]. cbn [bind].
  destruct (mul_pow2 m e (10 * k) Hwf ltac:(lia)) as [Hfin Hinf].
  destruct Hwf as (He & Hm & _).
  rewrite scaled_floor_fixed, Hpow by assumption.
  set (V := m * 2 ^ (e + 1074) * 2 ^ (10 * k)) in *.
  pose proof B_pos as HB.
  destruct (Z.ltb_spec (V / B) (2 ^ 1024)) as [Hlt|Hge].
  - destruct Hfin as (m' & e' & -> & He' & HV').
    { apply Z.nle_gt. intros Hc.
      assert (2 ^ 1024 <= V / B) by (apply Z.div_le_lower_bound; lia).
      lia. }
    rewrite to_int_fixed by assumption. now rewrite HV'.
  - rewrite Hinf; [reflexivity|].
    apply Z.nlt_ge. intros Hc.
    assert (V / B < 2 ^ 1024) by (apply Z.div_lt_upper_bound; lia).
    lia.
Qed.

End FloatOps.

(** ** Number tokens and their floats *)

Module Tokens.
Import Str StrFacts Rounding.

Lemma digits_value_nonneg (s : string) :
  forall acc n, 0 <= acc -> digits_value acc s = Some n -> 0 <= n.
Proof.
  induction s as [|c t IH]; intros acc n Hacc H; cbn [digits_value] in H.
  - injection H as <-. exact Hacc.
  - destruct (is_digit c); [|discriminate]. eapply IH; [|exact H]. lia.
Qed.

(** [float] of a token yields a double, finite or infinite. *)
Lemma of_str_wf (s : string) (x : Float.float) : Float.of_str s = Ok x -> wf x.
Proof.
  unfold Float.of_str.
  destruct (split "." s) as [|ip [|fp [|? ?]]]; try discriminate.
  - destruct (is_empty ip); [discriminate|].
    destruct (digits_value 0 ip) as [n|] eqn:Hn; [|discriminate].
    intros [= <-]. apply round_ratio_wf; [|lia].
    eapply digits_value_nonneg; [|exact Hn]. lia.
  - destruct (is_empty ip && is_empty fp); [discriminate|].
    destruct (digits_value 0 (ip ++ fp)) as [n|] eqn:Hn; [|discriminate].
    intros [= <-]. apply round_ratio_wf.
    + eapply digits_value_nonneg; [|exact Hn]. lia.
    + apply Z.pow_pos_nonneg; lia.
Qed.

(** [float] of the decimal text of an integer. *)
Lemma of_str_int (n : Z) :
  0 <= n -> Float.of_str (of_int n) = Ok (Float.round_ratio n 1).
Proof.
  intros Hn. destruct (Decimal.of_int_spec n Hn) as (Hall & Hlen & Hval).
  unfold Float.of_str.
  rewrite PrivateIp.split_nodot by now apply PrivateIp.digits_nodot.
  destruct (of_int n) as [|c t] eqn:E; [simpl in Hlen; lia|].
  cbn [is_empty]. rewrite <- E, Decimal.of_int_value by assumption.
  reflexivity.
Qed.

Lemma two_digits_spec (r : Z) :
  0 <= r < 100 ->
  all is_digit (two_digits r) = true
  /\ forall a, digits_value a (two_digits r) = Some (100 * a + r).
Proof.
  intros Hr. unfold two_digits.
  assert (H1 : 0 <= r / 10 < 10)
    by (split; [apply Z.div_pos; lia | apply Z.div_lt_upper_bound; lia]).
  assert (H0 : 0 <= r mod 10 < 10) by (apply Z.mod_pos_bound; lia).
  destruct (Decimal.digit_char_spec _ H1) as [Hd1 Hv1].
  destruct (Decimal.digit_char_spec _ H0) as [Hd0 Hv0].
  split.
  - cbn [all]. now rewrite Hd1, Hd0.
  - intros a. cbn [digits_value]. rewrite Hd1, Hd0, Hv1, Hv0. f_equal.
    pose proof (Z.div_mod r 10). lia.
Qed.

(** [float] of a text with two decimals reads its hundredths. *)
Lemma of_str_hundredths (n : Z) :
  0 <= n -> Float.of_str (render_hundredths n) = Ok (Float.round_ratio n 100).
Proof.
  intros Hn. unfold render_hundredths.
  assert (Hq : 0 <= n / 100) by (apply Z.div_pos; lia).
  assert (Hr : 0 <= n mod 100 < 100) by (apply Z.mod_pos_bound; lia).
  destruct (Decimal.of_int_spec _ Hq) as (Hall & Hlen & Hval).
  destruct (two_digits_spec _ Hr) as [Hall2 Hval2].
  unfold Float.of_str.
  change (of_int (n / 100) ++ "." ++ two_digits (n mod 100))
    with (of_int (n / 100) ++ String "." (two_digits (n mod 100))).
  rewrite PrivateIp.split_cons by now apply PrivateIp.digits_nodot.
  rewrite PrivateIp.split_nodot by now apply PrivateIp.digits_nodot.
  destruct (of_int (n / 100)) as [|c t] eqn:E; [simpl in Hlen; lia|].
  cbn [is_empty andb]. rewrite <- E.
  rewrite Decimal.digits_value_append, Decimal.of_int_value, Hval2 by assumption.
  replace (100 * (n / 100) + n mod 100) with n
    by (pose proof (Z.div_mod n 100); lia).
  reflexivity.
Qed.

Lemma render_hundredths_class (n : Z) :
  0 <= n ->
  render_hundredths n <> ""
  /\ all is_digit_or_dot (render_hundredths n) = true.
Proof.
  intros Hn. unfold render_hundredths.
  assert (Hq : 0 <= n / 100) by (apply Z.div_pos; lia).
  assert (Hr : 0 <= n mod 100 < 100) by (apply Z.mod_pos_bound; lia).
  destruct (Decimal.of_int_spec _ Hq) as (Hall & Hlen & _).
  destruct (two_digits_spec _ Hr) as [Hall2 _].
  assert (Hcls : forall s, all is_digit s = true -> all is_digit_or_dot s = true).
  { induction s as [|c t IH]; cbn [all]; intros H; [reflexivity|].
    apply andb_prop in H as [Hc Ht]. now rewrite (digit_is_class c Hc), IH. }
  split.
  - destruct (of_int (n / 100)); [simpl in Hlen; lia | discriminate].
  - rewrite !all_append, (Hcls _ Hall), (Hcls _ Hall2). reflexivity.
Qed.

Lemma of_int_class (n : Z) :
  0 <= n -> of_int n <> "" /\ all is_digit_or_dot (of_int n) = true.
Proof.
  intros Hn. destruct (Decimal.of_int_spec n Hn) as (Hall & Hlen & _).
  split.
  - destruct (of_int n); [simpl in Hlen; lia | discriminate].
  - revert Hall. generalize (of_int n).
    induction s as [|c t IH]; cbn [all]; intros H; [reflexivity|].
    apply andb_prop in H as [Hc Ht]. now rewrite (digit_is_class c Hc), IH.
Qed.

Lemma digits_of_small (fuel : nat) (n : Z) (acc : string) :
  n < 10 -> digits_of fuel n acc = String (digit_char (n mod 10)) acc.
Proof.
  intros Hn. destruct fuel; cbn [digits_of]; [reflexivity|].
  replace (n <? 10) with true by (symmetry; apply Z.ltb_lt; lia).
  reflexivity.
Qed.

(** [f"{r:02d}"] below one hundred: exactly two digits. *)
Lemma of_int_02d_two (r : Z) :
  0 <= r < 100 -> of_int_02d r = two_digits r.
Proof.
  intros Hr. unfold of_int_02d, two_digits, Str.of_int.
  replace (r <? 0) with false by (symmetry; apply Z.ltb_ge; lia).
  destruct (Z.ltb_spec r 10) as [Hlt|Hge].
  - rewrite digits_of_small by lia.
    rewrite Z.div_small by lia. reflexivity.
  - assert (Hlog : 3 <= Z.log2 r)
      by (change 3 with (Z.log2 10); apply Z.log2_le_mono; lia).
    destruct (Z.to_nat (Z.log2 r)) as [|f] eqn:Ef; [lia|].
    cbn [digits_of].
    replace (r <? 10) with false by (symmetry; apply Z.ltb_ge; lia).
    assert (Hq : 0 <= r / 10 < 10)
      by (split; [apply Z.div_pos; lia | apply Z.div_lt_upper_bound; lia]).
    rewrite digits_of_small by lia.
    now rewrite (Z.mod_small (r / 10)) by lia.
Qed.

(** The hundredths [f"{x:.2f}"] prints: the scaled value times one
    hundred, rounded to nearest, ties to even. *)
Lemma format_2f_spec (m e : Z) :
  -1074 <= e -> 0 <= m ->
  Float.format_2f (Float.Finite m e)
  = render_hundredths (Float.rhe (100 * (m * 2 ^ (e + 1074))) B)
  /\ 0 <= Float.rhe (100 * (m * 2 ^ (e + 1074))) B.
Proof.
  intros He Hm. pose proof B_pos as HB.
  pose proof (pow2_pos (e + 1074) ltac:(lia)) as Hu.
  assert (Hnn : 0 <= Float.rhe (100 * (m * 2 ^ (e + 1074))) B)
    by (apply rhe_nonneg; [nia | assumption]).
  split; [|exact Hnn].
  unfold Float.format_2f, render_hundredths.
  assert (E : (if 0 <=? e then 100 * m * 2 ^ e
               else Float.rhe (100 * m) (2 ^ (- e)))
              = Float.rhe (100 * (m * 2 ^ (e + 1074))) B).
  { unfold B. destruct (Z.leb_spec 0 e) as [H|H].
    - rewrite pow2_add by lia.
      replace (100 * (m * (2 ^ e * 2 ^ 1074)))
        with (100 * m * 2 ^ e * 2 ^ 1074) by ring.
      now rewrite rhe_exact by lia.
    - assert (E1 : 2 ^ 1074 = 2 ^ (- e) * 2 ^ (e + 1074))
        by (rewrite <- pow2_add by lia; f_equal; lia).
      rewrite E1.
      replace (100 * (m * 2 ^ (e + 1074))) with (100 * m * 2 ^ (e + 1074))
        by ring.
      rewrite rhe_scale; [reflexivity | apply pow2_pos; lia | lia]. }
  rewrite E.
  set (n := Float.rhe (100 * (m * 2 ^ (e + 1074))) B) in *.
  rewrite of_int_02d_two by (apply Z.mod_pos_bound; lia).
  reflexivity.
Qed.

End Tokens.

(** ** [convert_bandwidth_to_bytes] on literals: scale and truncate *)

Module Scaling.
Import Str Rounding FloatOps.

Lemma unit_exponent_cases (U : string) :
  In U units ->
  (U = "B" /\ unit_exponent U = 0)
  \/ (U <> "B" /\ (unit_exponent U = 1 \/ unit_exponent U = 2
                  \/ unit_exponent U = 3 \/ unit_exponent U = 4)).
Proof.
  unfold units. simpl.
  intros [<-|[<-|[<-|[<-|[<-|[]]]]]]; cbn;
    (left; split; [reflexivity | reflexivity])
    || (right; split; [discriminate | tauto]).
Qed.

(** The conversion of a number token that [float] reads as [m * 2^e],
    followed by the unit [U]. *)
Lemma convert_parts_spec (num U : string) (m e : Z) :
  In U units ->
  Float.of_str num = Ok (Float.Finite m e) ->
  convert_parts num U
  = let s := 1024 ^ unit_exponent U in
    if scaled_floor m e s <? 2 ^ 1024
    then Ok (scaled_floor m e s)
    else Raise OverflowError.
Proof.
  intros HU Hnum. pose proof (Tokens.of_str_wf _ _ Hnum) as Hwf.
  unfold convert_parts. rewrite Hnum. cbn [bind]. cbv zeta.
  unfold units in HU. simpl in HU.
  destruct HU as [<-|[<-|[<-|[<-|[<-|[]]]]]]; cbn [String.eqb Ascii.eqb Bool.eqb];
    cbn [unit_exponent String.eqb Ascii.eqb Bool.eqb].
  - change (1024 ^ 4) with (1024 ^ 4). apply (int_of_scaled_spec m e 4); auto.
  - apply (int_of_scaled_spec m e 3); auto.
  - apply (int_of_scaled_spec m e 2); auto.
  - change 1024 with (1024 ^ 1) at 1. apply (int_of_scaled_spec m e 1); auto.
  - destruct Hwf as (He & Hm & Hfin).
    rewrite to_int_fixed, scaled_floor_fixed by assumption.
    change (1024 ^ 0) with 1. rewrite Z.mul_1_r.
    pose proof B_pos as HB.
    replace (m * 2 ^ (e + 1074) / B <? 2 ^ 1024) with true; [reflexivity|].
    symmetry. apply Z.ltb_lt. apply Z.div_lt_upper_bound; lia.
Qed.

End Scaling.

(** ** [format_bandwidth]: the unit and the two decimals *)

Module Format.
Import Str StrFacts Rounding FloatOps.

Lemma unit_of_cases (x : Z) :
  1024 <= x ->
  exists k,
    (k = 1 \/ k = 2 \/ k = 3 \/ k = 4)
    /\ unit_exponent (unit_of x) = k
    /\ In (unit_of x) units
    /\ 1024 ^ k <= x
    /\ (k < 4 -> x < 1024 ^ (k + 1)).
Proof.
  intros Hx. unfold unit_of.
  destruct (Z.leb_spec (1024 ^ 4) x) as [H4|H4].
  { exists 4. cbn. repeat split; auto; lia. }
  destruct (Z.leb_spec (1024 ^ 3) x) as [H3|H3].
  { exists 3. cbn. repeat split; auto; lia. }
  destruct (Z.leb_spec (1024 ^ 2) x) as [H2|H2].
  { exists 2. cbn. repeat split; auto; lia. }
  destruct (Z.leb_spec 1024 x) as [H1|H1]; [|lia].
  exists 1. cbn. repeat split; auto; lia.
Qed.

Lemma int_limit_large : 2 ^ 1100 < int_limit.
Proof. reflexivity. Qed.

Lemma format_below_1024 (x : Z) :
  x < 1024 -> format_bandwidth x = (s <- str_int x ;; Ok (s ++ " B")).
Proof.
  intros Hx. unfold format_bandwidth.
  replace (1024 ^ 4 <=? x) with false by (symmetry; apply Z.leb_gt; lia).
  replace (1024 ^ 3 <=? x) with false by (symmetry; apply Z.leb_gt; lia).
  replace (1024 ^ 2 <=? x) with false by (symmetry; apply Z.leb_gt; lia).
  replace (1024 <=? x) with false by (symmetry; apply Z.leb_gt; lia).
  reflexivity.
Qed.

Lemma format_small (x : Z) :
  - int_limit < x < 1024 -> format_bandwidth x = Ok (of_int x ++ " B").
Proof.
  intros Hx. rewrite format_below_1024 by lia. unfold str_int.
  pose proof int_limit_large.
  replace (int_limit <=? Z.abs x) with false
    by (symmetry; apply Z.leb_gt; lia).
  reflexivity.
Qed.

Lemma format_refused (x : Z) :
  x <= - int_limit -> format_bandwidth x = Raise ValueError.
Proof.
  intros Hx. pose proof int_limit_large.
  rewrite format_below_1024 by lia. unfold str_int.
  replace (int_limit <=? Z.abs x) with true
    by (symmetry; apply Z.leb_le; lia).
  reflexivity.
Qed.

Lemma format_large (x : Z) :
  1024 <= x ->
  format_bandwidth x
  = (q <- Float.truediv x (1024 ^ unit_exponent (unit_of x)) ;;
     Ok (Float.format_2f q ++ " " ++ unit_of x)).
Proof.
  intros Hx. unfold format_bandwidth, unit_of.
  destruct (1024 ^ 4 <=? x); [reflexivity|].
  destruct (1024 ^ 3 <=? x); [reflexivity|].
  destruct (1024 ^ 2 <=? x); [reflexivity|].
  replace (1024 <=? x) with true by (symmetry; apply Z.leb_le; lia).
  reflexivity.
Qed.

(** The quotient of a byte count by its unit: a normal double within
    half a unit in the last place, unless it overflows. *)
Lemma truediv_normal (x S : Z) :
  0 < S <= x ->
  match Float.truediv x S with
  | Ok (Float.Finite m e) =>
      -1074 < e /\ 2 ^ 52 <= m < 2 ^ 53
      /\ Z.abs (S * (m * 2 ^ (e + 1074)) - x * B) * 2 <= S * 2 ^ (e + 1074)
  | Ok _ => False
  | Raise err => err = OverflowError /\ S * 2 ^ 1023 <= x
  end.
Proof.
  intros HS. unfold Float.truediv.
  pose proof (round_ratio_normal x S HS) as H.
  destruct (Float.round_ratio x S); [exact H | auto | exact H].
Qed.

(** What is printed for a byte count of one kilobyte or more. *)
Lemma format_render (x : Z) :
  1024 <= x ->
  let U := unit_of x in
  let S := 1024 ^ unit_exponent U in
  match format_bandwidth x with
  | Ok s =>
      exists m e,
        Float.truediv x S = Ok (Float.Finite m e)
        /\ -1074 < e /\ 2 ^ 52 <= m < 2 ^ 53
        /\ Z.abs (S * (m * 2 ^ (e + 1074)) - x * B) * 2 <= S * 2 ^ (e + 1074)
        /\ 0 <= Float.rhe (100 * (m * 2 ^ (e + 1074))) B
        /\ s = render_hundredths (Float.rhe (100 * (m * 2 ^ (e + 1074))) B)
               ++ " " ++ U
  | Raise err => err = OverflowError /\ S * 2 ^ 1023 <= x
  end.
Proof.
  intros Hx U S. rewrite format_large by assumption. fold U. fold S.
  destruct (unit_of_cases x Hx) as (k & Hk & Hexp & _ & HS & _).
  fold U in Hexp. assert (HSx : 0 < S <= x).
  { unfold S. rewrite Hexp. destruct Hk as [->|[->|[->| ->]]]; lia. }
  pose proof (truediv_normal x S HSx) as H.
  destruct (Float.truediv x S) as [[m e| |]|err]; cbn [bind];
    try contradiction; [|exact H].
  destruct H as (He & Hm & Herr).
  destruct (Tokens.format_2f_spec m e ltac:(lia) ltac:(lia)) as [Hfmt Hnn].
  exists m, e. rewrite Hfmt. repeat split; try lia; assumption.
Qed.

(** *** The arithmetic of the round trip, over the scaled values

    [V1], [V2] are doubles scaled by [B], [u1], [u2] their units in the
    last place, [n] the hundredths printed. *)
Section Arithmetic.
Variables x V1 u1 n V2 u2 B K S : Z.
Hypothesis HS : S = 2 ^ 10 \/ S = 2 ^ 20 \/ S = 2 ^ 30 \/ S = 2 ^ 40.
Hypothesis HB : 0 < B.
Hypothesis Hx : S <= x.
Hypothesis Hu1 : 0 < u1.
Hypothesis H1 : Z.abs (S * V1 - x * B) * 2 <= S * u1.
Hypothesis Hn1 : 2 ^ 52 * u1 <= V1.
Hypothesis Hc : Z.abs (n * B - 100 * V1) * 2 <= B.

Lemma hundredths_accuracy : 2 ^ 45 * (2 * Z.abs (n * S - 100 * x) - S) <= x.
Proof.
  assert (H1' : - (S * u1) <= (S * V1 - x * B) * 2 <= S * u1) by lia.
  assert (Hc' : - B <= (n * B - 100 * V1) * 2 <= B) by lia.
  clear H1 Hc. destruct H1', Hc'.
  assert (2 ^ 45 * (2 * (n * S - 100 * x) - S) * B <= x * B
          /\ 2 ^ 45 * (2 * (100 * x - n * S) - S) * B <= x * B).
  { destruct HS as [->|[->|[->| ->]]]; split; nia. }
  assert (2 ^ 45 * (2 * (n * S - 100 * x) - S) <= x
          /\ 2 ^ 45 * (2 * (100 * x - n * S) - S) <= x)
    by (split; apply (Z.mul_le_mono_pos_r _ _ B HB); tauto).
  lia.
Qed.

Lemma hundredths_bounds : x < K -> 100 <= n < 100 * K.
Proof.
  intros HK.
  assert (H1' : - (S * u1) <= (S * V1 - x * B) * 2 <= S * u1) by lia.
  assert (Hc' : - B <= (n * B - 100 * V1) * 2 <= B) by lia.
  clear H1 Hc. destruct H1', Hc'.
  assert (99 * B < n * B /\ n * B < 100 * K * B).
  { destruct HS as [->|[->|[->| ->]]]; split; nia. }
  split; [| apply (Z.mul_lt_mono_pos_r B); lia].
  assert (99 < n) by (apply (Z.mul_lt_mono_pos_r B); lia). lia.
Qed.

Hypothesis Hu2 : 0 < u2.
Hypothesis H2 : Z.abs (100 * V2 - n * B) * 2 <= 100 * u2.
Hypothesis Hn2 : 2 ^ 52 * u2 <= V2.

Lemma product_bound : x < K -> V2 * S < 2 * K * B.
Proof.
  intros HK.
  assert (H1' : - (S * u1) <= (S * V1 - x * B) * 2 <= S * u1) by lia.
  assert (Hc' : - B <= (n * B - 100 * V1) * 2 <= B) by lia.
  assert (H2' : - (100 * u2) <= (100 * V2 - n * B) * 2 <= 100 * u2) by lia.
  clear H1 Hc H2. destruct H1', Hc', H2'.
  destruct HS as [->|[->|[->| ->]]]; nia.
Qed.

Lemma round_trip_accuracy (r : Z) :
  B * r <= V2 * S < B * r + B ->
  2 ^ 44 * (200 * Z.abs (r - x)) <= 2 ^ 44 * (S + 201) + x.
Proof.
  intros [HR1 HR2].
  assert (H1' : - (S * u1) <= (S * V1 - x * B) * 2 <= S * u1) by lia.
  assert (Hc' : - B <= (n * B - 100 * V1) * 2 <= B) by lia.
  assert (H2' : - (100 * u2) <= (100 * V2 - n * B) * 2 <= 100 * u2) by lia.
  clear H1 Hc H2. destruct H1', Hc', H2'.
  assert (2 ^ 44 * (200 * (r - x)) <= 2 ^ 44 * (S + 201) + x
          /\ 2 ^ 44 * (200 * (x - r)) <= 2 ^ 44 * (S + 201) + x); [|lia].
  destruct HS as [->|[->|[->| ->]]]; split; nia.
Qed.

End Arithmetic.

Lemma scale_pow2 (k : Z) :
  k = 1 \/ k = 2 \/ k = 3 \/ k = 4 ->
  (1024 ^ k = 2 ^ 10 \/ 1024 ^ k = 2 ^ 20 \/ 1024 ^ k = 2 ^ 30
   \/ 1024 ^ k = 2 ^ 40)
  /\ 1024 ^ k = 2 ^ (10 * k).
Proof. intros [->|[->|[->| ->]]]; split; auto. Qed.

(** Below [2^53] the quotient is exact, and what is printed is the byte
    count over the unit, rounded to hundredths, ties to even. *)
Lemma hundredths_exact (x k m e : Z) :
  k = 1 \/ k = 2 \/ k = 3 \/ k = 4 ->
  0 < x < 2 ^ 53 ->
  Float.truediv x (1024 ^ k) = Ok (Float.Finite m e) ->
  Float.rhe (100 * (m * 2 ^ (e + 1074))) B = Float.rhe (100 * x) (1024 ^ k).
Proof.
  intros Hk Hx Hdiv. destruct (scale_pow2 k Hk) as [_ HS]. rewrite HS in *.
  assert (HB : B = 2 ^ (10 * k) * 2 ^ (1074 - 10 * k))
    by (unfold B; rewrite <- pow2_add by lia; f_equal; lia).
  pose proof (pow2_pos (10 * k) ltac:(lia)) as HSpos.
  pose proof (pow2_pos (1074 - 10 * k) ltac:(lia)) as HPpos.
  assert (Heq : x * B = 2 ^ (10 * k) * (x * 2 ^ (- (10 * k) + 1074))).
  { rewrite HB. replace (- (10 * k) + 1074) with (1074 - 10 * k) by lia. ring. }
  destruct (round_ratio_exact x (2 ^ (10 * k)) x (- (10 * k))
              ltac:(lia) HSpos Hx ltac:(lia) Heq) as [Hfin _].
  assert (Hside : x * 2 ^ (- (10 * k) + 1074) < 2 ^ 1024 * B).
  { replace (- (10 * k) + 1074) with (1074 - 10 * k) by lia.
    assert (2 ^ (1074 - 10 * k) <= B) by (unfold B; apply pow2_le; lia).
    assert (E : 2 ^ 1024 = 2 ^ 53 * 2 ^ 971) by reflexivity.
    rewrite E. pose proof (pow2_pos 971 ltac:(lia)). pose proof B_pos.
    set (Q := 2 ^ 971) in *. set (P := 2 ^ (1074 - 10 * k)) in *.
    set (b := B) in *. clearbody Q P b.
    assert (x * P < 2 ^ 53 * P) by nia.
    assert (2 ^ 53 * P <= 2 ^ 53 * b) by lia.
    assert (2 ^ 53 * b * 1 <= 2 ^ 53 * b * Q)
      by (apply Z.mul_le_mono_nonneg_l; lia).
    lia. }
  destruct (Hfin Hside) as (m' & e' & Hr & He' & HV).
  unfold Float.truediv in Hdiv. rewrite Hr in Hdiv. injection Hdiv as <- <-.
  rewrite HV. replace (- (10 * k) + 1074) with (1074 - 10 * k) by lia.
  rewrite HB.
  replace (100 * (x * 2 ^ (1074 - 10 * k)))
    with (100 * x * 2 ^ (1074 - 10 * k)) by ring.
  apply rhe_scale; lia.
Qed.

Lemma upper_unit (U : string) : In U units -> upper U = U.
Proof.
  unfold units. simpl. intros [<-|[<-|[<-|[<-|[<-|[]]]]]]; reflexivity.
Qed.

(** Parsing what [format_bandwidth] printed for a byte count below one
    kilobyte gives the byte count back. *)
Lemma round_trip_small (x : Z) : 0 <= x < 1024 -> round_trip x = Ok x.
Proof.
  intros Hx. unfold round_trip. pose proof int_limit_large.
  rewrite format_small by lia. cbn [bind].
  destruct (Tokens.of_int_class x ltac:(lia)) as [Hne Hcls].
  change (of_int x ++ " B") with (of_int x ++ " " ++ "B" ++ "").
  rewrite Literal.convert_literal;
    [| assumption | assumption | reflexivity
     | unfold units; do 4 right; left; reflexivity].
  unfold convert_parts. rewrite Tokens.of_str_int by lia. cbn [bind].
  change (upper "B") with "B". cbn [String.eqb Ascii.eqb Bool.eqb].
  destruct (Z.eq_dec x 0) as [->|Hnz]; [reflexivity|].
  assert (Heq : x * B = 1 * (x * 2 ^ (0 + 1074))) by (unfold B; cbn [Z.add]; lia).
  destruct (round_ratio_exact x 1 x 0 ltac:(lia) ltac:(lia) ltac:(lia)
              ltac:(lia) Heq) as [Hfin _].
  assert (Hside : x * 2 ^ (0 + 1074) < 2 ^ 1024 * B).
  { change (2 ^ (0 + 1074)) with B. pose proof B_pos.
    apply Z.mul_lt_mono_pos_r; lia. }
  destruct (Hfin Hside) as (m' & e' & -> & He' & HV).
  rewrite to_int_fixed, HV by assumption.
  change (2 ^ (0 + 1074)) with B. rewrite Z.div_mul; [reflexivity|].
  pose proof B_pos. lia.
Qed.

(** Parsing what [format_bandwidth] printed for a larger byte count
    gives it back within half a hundredth of the unit, one byte of
    truncation and the rounding of the two doubles involved. *)
Lemma round_trip_large (x : Z) :
  1024 <= x < 2 ^ 1023 ->
  exists r,
    round_trip x = Ok r
    /\ 2 ^ 44 * (200 * Z.abs (r - x))
       <= 2 ^ 44 * (1024 ^ unit_exponent (unit_of x) + 201) + x.
Proof.
  intros [Hlo Hhi]. unfold round_trip.
  destruct (unit_of_cases x Hlo) as (k & Hk & Hexp & HU & HSx & _).
  pose proof (format_render x Hlo) as Hfmt. cbv zeta in Hfmt.
  rewrite Hexp in *.
  destruct (scale_pow2 k Hk) as [HS2 _].
  assert (HSpos : 1 <= 1024 ^ k) by (destruct Hk as [->|[->|[->| ->]]]; lia).
  set (S := 1024 ^ k) in *.
  destruct (format_bandwidth x) as [s|err].
  2:{ exfalso. destruct Hfmt as [_ Hov]. nia. }
  destruct Hfmt as (m1 & e1 & _ & He1 & Hm1 & Herr1 & Hnn & ->).
  cbn [bind].
  set (u1 := 2 ^ (e1 + 1074)) in *. set (V1 := m1 * u1) in *.
  set (n := Float.rhe (100 * V1) B) in *.
  pose proof B_pos as HB.
  assert (Hu1 : 0 < u1) by (apply pow2_pos; lia).
  assert (Hn1 : 2 ^ 52 * u1 <= V1)
    by (unfold V1; apply Z.mul_le_mono_nonneg_r; lia).
  assert (Hc : Z.abs (n * B - 100 * V1) * 2 <= B).
  { assert (Hnn1 : 0 <= 100 * V1) by (unfold V1; apply Z.mul_nonneg_nonneg; [lia|]; apply Z.mul_nonneg_nonneg; lia).
    pose proof (rhe_bounds (100 * V1) B Hnn1 HB) as Hb. fold n in Hb. lia. }
  destruct (hundredths_bounds x V1 u1 n B (2 ^ 1023) S HS2 HB HSx Hu1 Herr1 Hn1 Hc Hhi)
    as [Hn100 HnK].
  destruct (Tokens.render_hundredths_class n Hnn) as [Hne Hcls].
  replace (render_hundredths n ++ " " ++ unit_of x)
    with (render_hundredths n ++ " " ++ unit_of x ++ "")
    by now rewrite append_nil_r.
  rewrite Literal.convert_literal;
    [| assumption | assumption | reflexivity | now rewrite upper_unit].
  rewrite upper_unit by assumption.
  pose proof (round_ratio_normal n 100 ltac:(lia)) as Hr2.
  destruct (Float.round_ratio n 100) as [m2 e2| |] eqn:Er2;
    [| exfalso; lia | contradiction].
  destruct Hr2 as (He2 & Hm2 & Herr2).
  rewrite (Scaling.convert_parts_spec _ _ m2 e2 HU)
    by (rewrite Tokens.of_str_hundredths by assumption; now rewrite Er2).
  cbv zeta. rewrite Hexp. fold S.
  rewrite scaled_floor_fixed by lia.
  set (u2 := 2 ^ (e2 + 1074)) in *. set (V2 := m2 * u2) in *.
  assert (Hu2 : 0 < u2) by (apply pow2_pos; lia).
  assert (Hn2 : 2 ^ 52 * u2 <= V2)
    by (unfold V2; apply Z.mul_le_mono_nonneg_r; lia).
  pose proof (product_bound x V1 u1 n V2 u2 B (2 ^ 1023) S
                HS2 HB HSx Hu1 Herr1 Hn1 Hc Hu2 Herr2 Hn2 Hhi) as Hprod.
  assert (Hlt : V2 * S / B < 2 ^ 1024).
  { apply Z.div_lt_upper_bound; [assumption|].
    change (2 ^ 1024) with (2 * 2 ^ 1023). lia. }
  replace (V2 * S / B <? 2 ^ 1024) with true
    by (symmetry; now apply Z.ltb_lt).
  eexists. split; [reflexivity|].
  apply (round_trip_accuracy x V1 u1 n V2 u2 B S HS2 HB HSx Hu1 Herr1 Hn1 Hc
           Hu2 Herr2 Hn2).
  split.
  - apply Z.mul_div_le. assumption.
  - pose proof (Z.mul_succ_div_gt (V2 * S) B HB). lia.
Qed.

End Format.

(** ** Runs that succeed *)

Module Success.

Section WithServer.
Variable server : string -> response.



End WithServer.

End Success.

(** ** The largest quotient and the decimal behind a double *)

Module Overflow.
Import Float Rounding.

(** The largest double plus half a unit in its last place: the first
    quotient that rounds to infinity. *)
Definition overflow_threshold : Z := 2 ^ 1024 - 2 ^ 970.

(** At the top of a binade whose last mantissa is odd, a tie goes up. *)
Lemma rhe_top (a b : Z) :
  0 < b -> (2 ^ 53 - 1) * b <= a < 2 ^ 53 * b ->
  (rhe a b = 2 ^ 53 <-> (2 ^ 54 - 1) * b <= 2 * a).
Proof.
  intros Hb [Hlo Hhi].
  assert (Hq : a / b = 2 ^ 53 - 1).
  { symmetry. apply (Z.div_unique a b (2 ^ 53 - 1) (a - (2 ^ 53 - 1) * b)); lia. }
  assert (Hr : a mod b = a - (2 ^ 53 - 1) * b).
  { pose proof (Z.div_mod a b ltac:(lia)) as H. rewrite Hq in H. lia. }
  unfold rhe. rewrite Hq, Hr.
  change (Z.even (2 ^ 53 - 1)) with false.
  destruct (Z.ltb_spec (2 * (a - (2 ^ 53 - 1) * b)) b);
    [|destruct (Z.ltb_spec b (2 * (a - (2 ^ 53 - 1) * b)))]; lia.
Qed.

Lemma round_ratio_overflow (n d : Z) :
  0 < n -> 0 < d ->
  (round_ratio n d = Infinity <-> d * overflow_threshold <= n).
Proof.
  intros Hn Hd. unfold overflow_threshold.
  pose proof (ilog2_lower n d Hn Hd) as [Hl1 Hl2].
  pose proof (ilog2_upper n d Hn Hd) as [Hu1 Hu2].
  cbv zeta in *.
  pose proof (mant0_bounds n d Hn Hd) as (Hm & Hnorm & _).
  pose proof (round_ratio_spec n d Hn Hd) as Hspec.
  rewrite round_ratio_unfold in Hspec |- * by assumption.
  unfold mant0, ulp0, exp0 in *.
  set (g := ilog2 n d) in *. clearbody g.
  pose proof (pow2_pos 970 ltac:(lia)) as H970.
  assert (E1024 : 2 ^ 1024 = 2 ^ 54 * 2 ^ 970) by reflexivity.
  assert (E1023 : 2 ^ 1023 = 2 ^ 53 * 2 ^ 970) by reflexivity.
  assert (E971 : 2 ^ 971 = 2 * 2 ^ 970) by reflexivity.
  destruct (Z.lt_ge_cases g 1023) as [Hg|Hg].
  - (* below 2^1023: finite, and below the threshold *)
    assert (Hlt : n < d * 2 ^ 1023).
    { destruct (Z.le_gt_cases 0 (g + 1)) as [Hs|Hs].
      - specialize (Hu1 Hs).
        assert (2 ^ (g + 1) <= 2 ^ 1023) by (apply pow2_le; lia).
        nia.
      - specialize (Hu2 Hs).
        pose proof (pow2_pos (- (g + 1)) ltac:(lia)).
        pose proof (pow2_pos 1023 ltac:(lia)). nia. }
    split.
    + intros Hinf. exfalso. rewrite Hinf in Hspec. lia.
    + intros Hge. exfalso. rewrite E1024 in Hge. rewrite E1023 in Hlt.
      set (P := 2 ^ 970) in *. clearbody P. nia.
  - destruct (Z.lt_ge_cases 1023 g) as [Hg2|Hg2].
    + (* from 2^1024 up: infinite, and above the threshold *)
      assert (Hge : d * 2 ^ 1024 <= n).
      { specialize (Hl1 ltac:(lia)).
        assert (2 ^ 1024 <= 2 ^ g) by (apply pow2_le; lia). nia. }
      split.
      * intros _. set (P := 2 ^ 970) in *. set (Q := 2 ^ 1024) in *.
        clearbody P Q. nia.
      * intros _. replace (Z.max (g - 52) (-1074)) with (g - 52) in * by lia.
        specialize (Hnorm ltac:(lia)).
        destruct (Z.eqb_spec (rhe (n * B) (d * 2 ^ (g - 52 + 1074))) (2 ^ 53))
          as [Hren|Hren].
        -- change (Z.log2 (2 ^ 52)) with 52.
           now replace (1024 <=? 52 + (g - 52 + 1)) with true
             by (symmetry; apply Z.leb_le; lia).
        -- set (m := rhe (n * B) (d * 2 ^ (g - 52 + 1074))) in *.
           assert (52 <= Z.log2 m) by (apply Z.log2_le_pow2; lia).
           now replace (1024 <=? Z.log2 m + (g - 52)) with true
             by (symmetry; apply Z.leb_le; lia).
    + (* the last binade *)
      assert (g = 1023) by lia. subst g.
      specialize (Hl1 ltac:(lia)). specialize (Hu1 ltac:(lia)).
      change (1023 + 1) with 1024 in Hu1.
      change (Z.max (1023 - 52) (-1074)) with 971 in *.
      specialize (Hnorm ltac:(lia)).
      assert (EB : 2 ^ (971 + 1074) = 2 ^ 971 * B)
        by (unfold B; now rewrite <- pow2_add by lia).
      rewrite EB in *.
      replace (d * (2 ^ 971 * B)) with (d * 2 ^ 971 * B) in * by ring.
      pose proof (pow2_pos 971 ltac:(lia)) as H971.
      rewrite rhe_scale in * by (try apply B_pos; nia).
      set (m := rhe n (d * 2 ^ 971)) in *.
      destruct (Z.le_gt_cases ((2 ^ 53 - 1) * (d * 2 ^ 971)) n) as [Htop|Hlow].
      * assert (Hhi : n < 2 ^ 53 * (d * 2 ^ 971)).
        { rewrite E1024, E971 in *. set (P := 2 ^ 970) in *. clearbody P. nia. }
        pose proof (rhe_top n (d * 2 ^ 971) ltac:(nia) (conj Htop Hhi)) as Ht.
        fold m in Ht.
        assert (Hiff : (2 ^ 54 - 1) * (d * 2 ^ 971) <= 2 * n
                       <-> d * (2 ^ 1024 - 2 ^ 970) <= n).
        { rewrite E1024, E971. set (P := 2 ^ 970) in *. clearbody P.
          split; intros; nia. }
        rewrite <- Hiff, <- Ht.
        destruct (Z.eqb_spec m (2 ^ 53)) as [Hren|Hren].
        -- change (Z.log2 (2 ^ 52)) with 52. cbn. tauto.
        -- assert (Z.log2 m < 53) by (apply log2_lt_53; lia).
           replace (1024 <=? Z.log2 m + 971) with false
             by (symmetry; apply Z.leb_gt; lia).
           split; [discriminate | contradiction].
      * assert (Hm' : m <= 2 ^ 53 - 1).
        { unfold m. apply rhe_le; [lia | nia | lia]. }
        replace (m =? 2 ^ 53) with false by (symmetry; apply Z.eqb_neq; lia).
        assert (Z.log2 m < 53) by (apply log2_lt_53; lia).
        replace (1024 <=? Z.log2 m + 971) with false
          by (symmetry; apply Z.leb_gt; lia).
        split; [discriminate|]. intros Hge. exfalso.
        rewrite E1024, E971 in *. set (P := 2 ^ 970) in *. clearbody P. nia.
Qed.

End Overflow.

Module FormatLimits.
Import Rounding Overflow.

(** The division of a byte count by its unit raises exactly from
    [2^1064 - 2^1010] on: the quotient by [1024^4] then rounds to
    infinity. *)
Lemma format_overflow (x : Z) :
  1024 <= x ->
  (format_bandwidth x = Raise OverflowError <-> 2 ^ 1064 - 2 ^ 1010 <= x)
  /\ forall e, format_bandwidth x = Raise e -> e = OverflowError.
Proof.
  intros Hx. rewrite Format.format_large by assumption.
  destruct (Format.unit_of_cases x Hx) as (k & Hk & Hexp & _ & HSx & Hup).
  rewrite Hexp. unfold Float.truediv.
  assert (HS : 0 < 1024 ^ k) by (destruct Hk as [->|[->|[->| ->]]]; lia).
  pose proof (round_ratio_overflow x (1024 ^ k) ltac:(lia) HS) as Hov.
  pose proof (round_ratio_spec x (1024 ^ k) ltac:(lia) HS) as Hspec.
  unfold overflow_threshold in Hov.
  assert (ET : 1024 ^ 4 * (2 ^ 1024 - 2 ^ 970) = 2 ^ 1064 - 2 ^ 1010)
    by reflexivity.
  destruct (Float.round_ratio x (1024 ^ k)) as [m e| |]; cbn [bind];
    [| |contradiction].
  - split; [|discriminate]. split; [discriminate|]. intros HT. exfalso.
    assert (Hno : ~ 1024 ^ k * (2 ^ 1024 - 2 ^ 970) <= x)
      by (intros H; apply Hov in H; discriminate).
    apply Hno. destruct Hk as [->|[->|[->| ->]]]; lia.
  - split; [|intros e [= <-]; reflexivity].
    split; [intros _ | reflexivity].
    assert (Hge : 1024 ^ k * (2 ^ 1024 - 2 ^ 970) <= x) by now apply Hov.
    destruct Hk as [->|[->|[->| ->]]];
      [exfalso; specialize (Hup ltac:(lia)); lia
      | exfalso; specialize (Hup ltac:(lia)); lia
      | exfalso; specialize (Hup ltac:(lia)); lia
      | lia].
Qed.

End FormatLimits.

Module Magnitude.
Import Rounding.

(** [float] reads a token as the double nearest to its decimal. *)
Lemma of_str_decimal (num : string) :
  Float.of_str num
  = match decimal_of num with
    | Some (n, d) => Ok (Float.round_ratio n d)
    | None => Raise ValueError
    end.
Proof.
  unfold Float.of_str, decimal_of.
  destruct (Str.split "." num) as [|ip [|fp [|? ?]]]; try reflexivity.
  - destruct (Str.is_empty ip); [reflexivity|].
    destruct (Str.digits_value 0 ip); reflexivity.
  - destruct (Str.is_empty ip && Str.is_empty fp); [reflexivity|].
    destruct (Str.digits_value 0 (ip ++ fp)); reflexivity.
Qed.

Lemma decimal_of_sign (num : string) (n d : Z) :
  decimal_of num = Some (n, d) -> 0 <= n /\ 0 < d.
Proof.
  unfold decimal_of.
  destruct (Str.split "." num) as [|ip [|fp [|? ?]]]; try discriminate.
  - destruct (Str.is_empty ip); [discriminate|].
    destruct (Str.digits_value 0 ip) as [k|] eqn:Hk; [|discriminate].
    intros [= <- <-]. split; [|lia].
    now apply (Tokens.digits_value_nonneg ip 0 k).
  - destruct (Str.is_empty ip && Str.is_empty fp); [discriminate|].
    destruct (Str.digits_value 0 (ip ++ fp)) as [k|] eqn:Hk; [|discriminate].
    intros [= <- <-]. split.
    + now apply (Tokens.digits_value_nonneg (ip ++ fp) 0 k).
    + apply Z.pow_pos_nonneg; lia.
Qed.

(** The decimals of the two shapes of a token. *)
Lemma decimal_of_whole (ip : string) :
  ip <> "" -> Str.all Str.is_digit ip = true ->
  decimal_of ip = Some (number ip, 1).
Proof.
  intros Hne Hd. unfold decimal_of, number.
  rewrite PrivateIp.split_nodot by now apply PrivateIp.digits_nodot.
  destruct ip; [congruence|]. cbn [Str.is_empty].
  destruct (PrivateIp.digits_value_total _ Hd 0) as [k ->]. reflexivity.
Qed.

Lemma decimal_of_point (ip fp : string) :
  ip <> "" \/ fp <> "" ->
  Str.all Str.is_digit ip = true -> Str.all Str.is_digit fp = true ->
  decimal_of (ip ++ "." ++ fp)
  = Some (number (ip ++ fp), 10 ^ Z.of_nat (String.length fp)).
Proof.
  intros Hne Hi Hf. unfold decimal_of, number.
  change (ip ++ "." ++ fp) with (ip ++ String "." fp).
  rewrite PrivateIp.split_cons by now apply PrivateIp.digits_nodot.
  rewrite PrivateIp.split_nodot by now apply PrivateIp.digits_nodot.
  replace (Str.is_empty ip && Str.is_empty fp) with false
    by (destruct ip, fp; try reflexivity; destruct Hne; congruence).
  assert (Hb : Str.all Str.is_digit (ip ++ fp) = true)
    by (rewrite StrFacts.all_append, Hi, Hf; reflexivity).
  destruct (PrivateIp.digits_value_total _ Hb 0) as [k ->]. reflexivity.
Qed.

Lemma convert_parts_infinite (num U : string) :
  In U units ->
  Float.of_str num = Ok Float.Infinity ->
  convert_parts num U = Raise OverflowError.
Proof.
  intros HU Hof. unfold convert_parts. rewrite Hof. cbn [bind].
  unfold units in HU. simpl in HU.
  destruct HU as [<-|[<-|[<-|[<-|[<-|[]]]]]]; vm_compute; reflexivity.
Qed.

Lemma unit_scale (U : string) :
  In U units -> 1 <= 1024 ^ unit_exponent U <= 2 ^ 40.
Proof.
  intros HU.
  destruct (Scaling.unit_exponent_cases U HU)
    as [[_ ->]|[_ [->|[->|[->| ->]]]]]; split; try reflexivity; discriminate.
Qed.

(** *** From the double to the decimal

    [V] is the double scaled by [B], [u] its unit in the last place, [r]
    the product with the scale [S], truncated. *)
Section Arithmetic.
Variables n d V u S B r : Z.
Hypothesis Hn : 0 <= n.
Hypothesis Hd : 0 < d.
Hypothesis HB : 2 ^ 93 <= B.
Hypothesis HS : 1 <= S <= 2 ^ 40.
Hypothesis Hu : 0 < u.
Hypothesis HV : 0 <= V.
Hypothesis Herr : Z.abs (d * V - n * B) * 2 <= d * u.
Hypothesis Hnorm : 2 ^ 52 * u <= V \/ (u = 1 /\ V < 2 ^ 52).

Lemma overflow_decimal : 2 ^ 1024 * B <= V * S -> 2 ^ 1023 * d <= n * S.
Proof.
  intros Hov.
  assert (Herr' : - (d * u) <= (d * V - n * B) * 2 <= d * u) by lia.
  clear Herr. destruct Herr' as [_ Hup].
  destruct Hnorm as [Hnm | [-> Hsub]].
  - assert (H1 : (2 ^ 53 - 1) * (d * V) <= 2 ^ 53 * (n * B)) by nia.
    assert (H2 : (2 ^ 53 - 1) * (d * V) * S <= 2 ^ 53 * (n * B) * S)
      by (apply Z.mul_le_mono_nonneg_r; lia).
    assert (H3 : d * (2 ^ 1024 * B) <= d * (V * S))
      by (apply Z.mul_le_mono_nonneg_l; lia).
    assert (H4 : (2 ^ 53 - 1) * (d * (2 ^ 1024 * B))
                 <= (2 ^ 53 - 1) * (d * (V * S)))
      by (apply Z.mul_le_mono_nonneg_l; lia).
    assert (H5 : (2 ^ 53 - 1) * 2 ^ 1024 * d * B <= 2 ^ 53 * (n * S) * B)
      by (replace ((2 ^ 53 - 1) * 2 ^ 1024 * d * B)
            with ((2 ^ 53 - 1) * (d * (2 ^ 1024 * B))) by ring;
          replace (2 ^ 53 * (n * S) * B) with (2 ^ 53 * (n * B) * S) by ring;
          replace ((2 ^ 53 - 1) * (d * (V * S)))
            with ((2 ^ 53 - 1) * (d * V) * S) in H4 by ring;
          lia).
    assert (H6 : (2 ^ 53 - 1) * 2 ^ 1024 * d <= 2 ^ 53 * (n * S))
      by (apply (Z.mul_le_mono_pos_r _ _ B); lia).
    change (2 ^ 1024) with (2 * 2 ^ 1023) in H6.
    set (K := 2 ^ 1023) in *. assert (0 < K) by reflexivity. clearbody K.
    nia.
  - exfalso.
    assert (V * S < 2 ^ 52 * 2 ^ 40) by nia.
    assert (2 ^ 1024 * 2 ^ 93 <= 2 ^ 1024 * B)
      by (apply Z.mul_le_mono_nonneg_l; lia).
    lia.
Qed.

Hypothesis Hr : B * r <= V * S < B * r + B.

Lemma floor_nonneg : 0 <= r.
Proof. assert (0 <= V * S) by nia. nia. Qed.

Lemma floor_above : 2 ^ 53 * (r * d - n * S) <= d * (r + 1).
Proof.
  pose proof floor_nonneg as Hr0.
  assert (Herr' : - (d * u) <= (d * V - n * B) * 2 <= d * u) by lia.
  clear Herr. destruct Herr' as [_ Hup].
  destruct Hnorm as [Hnm | [-> Hsub]].
  - assert (H1 : d * (B * r) <= d * (V * S))
      by (apply Z.mul_le_mono_nonneg_l; lia).
    assert (H2 : (d * V - n * B) * 2 * S <= d * u * S)
      by (apply Z.mul_le_mono_nonneg_r; lia).
    assert (H3 : 2 ^ 52 * u * S <= V * S)
      by (apply Z.mul_le_mono_nonneg_r; lia).
    assert (H4 : d * (2 ^ 52 * u * S) <= d * (B * r + B))
      by (apply Z.mul_le_mono_nonneg_l; lia).
    apply (Z.mul_le_mono_pos_r _ _ B); [lia|].
    set (a := d * (B * r)) in *. set (b := d * (V * S)) in *.
    replace (2 ^ 53 * (r * d - n * S) * B)
      with (2 ^ 53 * a - 2 ^ 53 * (n * B * S)) by (unfold a; ring).
    replace ((d * V - n * B) * 2 * S) with (2 * b - 2 * (n * B * S)) in H2
      by (unfold b; ring).
    replace (d * (2 ^ 52 * u * S)) with (2 ^ 52 * (d * u * S)) in H4 by ring.
    replace (d * (r + 1) * B) with (d * (B * r + B)) by ring.
    lia.
  - assert (r = 0).
    { assert (V * S < 2 ^ 52 * 2 ^ 40) by nia. nia. }
    subst r. assert (0 <= n * S) by nia. lia.
Qed.

Lemma floor_below : 2 ^ 53 * (n * S - (r + 1) * d) < d * (r + 1).
Proof.
  pose proof floor_nonneg as Hr0.
  assert (Herr' : - (d * u) <= (d * V - n * B) * 2 <= d * u) by lia.
  clear Herr. destruct Herr' as [Hlo _].
  destruct Hnorm as [Hnm | [-> Hsub]].
  - assert (H1 : d * (V * S) < d * (B * r + B))
      by (apply Z.mul_lt_mono_pos_l; lia).
    assert (H2 : - (d * u) * S <= (d * V - n * B) * 2 * S)
      by (apply Z.mul_le_mono_nonneg_r; lia).
    assert (H3 : 2 ^ 52 * u * S <= V * S)
      by (apply Z.mul_le_mono_nonneg_r; lia).
    assert (H4 : d * (2 ^ 52 * u * S) <= d * (B * r + B))
      by (apply Z.mul_le_mono_nonneg_l; lia).
    apply (Z.mul_lt_mono_pos_r B); [lia|].
    set (c := d * (B * r + B)) in *. set (b := d * (V * S)) in *.
    replace (2 ^ 53 * (n * S - (r + 1) * d) * B)
      with (2 ^ 53 * (n * B * S) - 2 ^ 53 * c) by (unfold c; ring).
    replace ((d * V - n * B) * 2 * S) with (2 * b - 2 * (n * B * S)) in H2
      by (unfold b; ring).
    replace (- (d * u) * S) with (- (d * u * S)) in H2 by ring.
    replace (d * (2 ^ 52 * u * S)) with (2 ^ 52 * (d * u * S)) in H4 by ring.
    replace (d * (r + 1) * B) with c by (unfold c; ring).
    lia.
  - assert (r = 0).
    { assert (V * S < 2 ^ 52 * 2 ^ 40) by nia. nia. }
    subst r.
    assert (H1 : 2 * (n * B) <= d * (2 * V + 1)) by lia.
    assert (H2 : 2 * (n * B) * S <= d * (2 * V + 1) * S)
      by (apply Z.mul_le_mono_nonneg_r; lia).
    assert (H3 : (2 * V + 1) * S <= 2 ^ 53 * 2 ^ 40) by nia.
    assert (H4 : d * ((2 * V + 1) * S) <= d * (2 ^ 53 * 2 ^ 40))
      by (apply Z.mul_le_mono_nonneg_l; lia).
    assert (H5 : d * 2 ^ 93 <= d * B)
      by (apply Z.mul_le_mono_nonneg_l; lia).
    apply (Z.mul_lt_mono_pos_r B); [lia|].
    replace (2 ^ 53 * (n * S - (0 + 1) * d) * B)
      with (2 ^ 52 * (2 * (n * B) * S) - 2 ^ 53 * (d * B)) by ring.
    replace (d * (2 * V + 1) * S) with (d * ((2 * V + 1) * S)) in H2 by ring.
    replace (d * (0 + 1) * B) with (d * B) by ring.
    lia.
Qed.

Lemma floor_exact : d * V = n * B -> r = n * S / d.
Proof.
  intros Hex. destruct Hr as [Hr1 Hr2].
  assert (H1 : d * (B * r) <= d * (V * S))
    by (apply Z.mul_le_mono_nonneg_l; lia).
  assert (H2 : d * (V * S) < d * (B * r + B))
    by (apply Z.mul_lt_mono_pos_l; lia).
  replace (d * (V * S)) with (n * S * B) in H1, H2
    by (replace (n * S * B) with (n * B * S) by ring; rewrite <- Hex; ring).
  assert (H3 : d * r * B <= n * S * B) by (replace (d * r * B) with (d * (B * r)) by ring; exact H1).
  assert (H4 : n * S * B < (d * r + d) * B)
    by (replace ((d * r + d) * B) with (d * (B * r + B)) by ring; exact H2).
  apply Z.mul_le_mono_pos_r in H3; [|lia].
  apply Z.mul_lt_mono_pos_r in H4; [|lia].
  apply (Z.div_unique (n * S) d r (n * S - d * r)); lia.
Qed.

End Arithmetic.

End Magnitude.

Module Shape.
Import Str.

Lemma split_some (s : string) : split "." s <> [].
Proof.
  destruct s as [|c t]; cbn [split]; [discriminate|].
  destruct (Ascii.eqb c "."); [discriminate|].
  destruct (split "." t); discriminate.
Qed.

Lemma split_one (s : string) :
  forall ip, split "." s = [ip] -> s = ip.
Proof.
  induction s as [|c t IH]; intros ip; cbn [split].
  - now intros [= <-].
  - destruct (Ascii.eqb c ".").
    + pose proof (split_some t). destruct (split "." t); [congruence|discriminate].
    + destruct (split "." t) as [|h r] eqn:Ht; [now destruct (split_some t)|].
      intros [= <- ->]. now rewrite (IH h eq_refl).
Qed.

Lemma split_two (s : string) :
  forall ip fp, split "." s = [ip; fp] -> s = ip ++ "." ++ fp.
Proof.
  induction s as [|c t IH]; intros ip fp; cbn [split]; [discriminate|].
  destruct (Ascii.eqb_spec c ".") as [->|Hc].
  - intros [= <- Ht]. now rewrite (split_one t fp Ht).
  - destruct (split "." t) as [|h r] eqn:Ht; [discriminate|].
    intros [= <- ->]. now rewrite (IH h fp eq_refl).
Qed.

Lemma digits_value_digits (s : string) :
  forall acc n, digits_value acc s = Some n -> all is_digit s = true.
Proof.
  induction s as [|c t IH]; intros acc n; cbn [digits_value all];
    [reflexivity|].
  destruct (is_digit c); [|discriminate]. apply IH.
Qed.

Lemma digits_class (s : string) :
  all is_digit s = true -> all is_digit_or_dot s = true.
Proof.
  induction s as [|c t IH]; cbn [all]; [reflexivity|].
  intros H. apply andb_true_iff in H as [Hc Ht].
  now rewrite (StrFacts.digit_is_class c Hc), IH.
Qed.

(** A token that spells a decimal is a non-empty run of digits and
    dots. *)
Lemma decimal_of_class (num : string) (n d : Z) :
  decimal_of num = Some (n, d) ->
  num <> "" /\ all is_digit_or_dot num = true.
Proof.
  unfold decimal_of.
  destruct (split "." num) as [|ip [|fp [|? ?]]] eqn:Hs; try discriminate.
  - apply split_one in Hs. subst ip.
    destruct num; [discriminate|]. cbn [is_empty].
    destruct (digits_value 0 _) eqn:Hv; [|discriminate]. intros _.
    split; [discriminate|].
    now apply digits_class, (digits_value_digits _ _ _ Hv).
  - apply split_two in Hs. subst num.
    destruct (is_empty ip && is_empty fp); [discriminate|].
    destruct (digits_value 0 (ip ++ fp)) eqn:Hv; [|discriminate]. intros _.
    apply digits_value_digits in Hv. rewrite StrFacts.all_append in Hv.
    apply andb_true_iff in Hv as [Hi Hf].
    split; [destruct ip; discriminate|].
    rewrite !StrFacts.all_append, (digits_class _ Hi), (digits_class _ Hf).
    reflexivity.
Qed.

End Shape.

Module Nearest.
Import Rounding.

Lemma near_floor_literal (num U : string) (n d : Z) :
  decimal_of num = Some (n, d) ->
  In U units ->
  near_floor n d (1024 ^ unit_exponent U) (convert_parts num U).
Proof.
  intros Hdec HU.
  destruct (Magnitude.decimal_of_sign _ _ _ Hdec) as [Hn Hd].
  pose proof (Magnitude.of_str_decimal num) as Hof. rewrite Hdec in Hof.
  pose proof (Magnitude.unit_scale U HU) as HS.
  set (S := 1024 ^ unit_exponent U) in *.
  pose proof B_pos as HB.
  assert (HB93 : 2 ^ 93 <= B) by (unfold B; apply pow2_le; lia).
  destruct (Z.eq_dec n 0) as [->|Hnz].
  - change (Float.round_ratio 0 d) with (Float.Finite 0 0) in Hof.
    rewrite (Scaling.convert_parts_spec num U 0 0 HU Hof). cbv zeta. fold S.
    assert (E0 : scaled_floor 0 0 S = 0) by (unfold scaled_floor; cbn; lia).
    rewrite E0. change (0 <? 2 ^ 1024) with true. cbn [near_floor].
    split; [|split; [|split]].
    + exists 0, 0. split; [reflexivity | now rewrite E0].
    + lia.
    + lia.
    + intros _ _ _ _ _. reflexivity.
  - pose proof (round_ratio_spec n d ltac:(lia) Hd) as Hspec.
    destruct (Float.round_ratio n d) as [m e| |] eqn:Hrr; [| |contradiction].
    + destruct Hspec as (He & Hm & Hnm & Herr & Hfin).
      rewrite (Scaling.convert_parts_spec num U m e HU Hof). cbv zeta. fold S.
      rewrite FloatOps.scaled_floor_fixed by assumption.
      set (u := 2 ^ (e + 1074)) in *. set (V := m * u) in *.
      assert (Hu : 0 < u) by (apply pow2_pos; lia).
      assert (HV : 0 <= V) by (unfold V; nia).
      assert (Hnorm : 2 ^ 52 * u <= V \/ (u = 1 /\ V < 2 ^ 52)).
      { destruct (Z.le_gt_cases (2 ^ 52) m) as [Hge|Hlt].
        - left. unfold V. apply Z.mul_le_mono_nonneg_r; lia.
        - right. assert (e = -1074) by lia. subst e.
          unfold V, u. change (2 ^ (-1074 + 1074)) with 1. lia. }
      destruct (Z.ltb_spec (V * S / B) (2 ^ 1024)) as [Hok|Hov].
      * set (r := V * S / B).
        assert (Hr : B * r <= V * S < B * r + B).
        { split; [apply Z.mul_div_le; lia|].
          pose proof (Z.mul_succ_div_gt (V * S) B ltac:(lia)).
          unfold r. lia. }
        cbn [near_floor]. split; [|split; [|split]].
        -- exists m, e. split; [exact Hrr|].
           rewrite FloatOps.scaled_floor_fixed by assumption. reflexivity.
        -- eapply (Magnitude.floor_above) with (V := V) (u := u) (B := B);
             eassumption.
        -- eapply (Magnitude.floor_below) with (V := V) (u := u) (B := B);
             eassumption.
        -- intros m0 e0 Hm0 He0 Hex. fold B in Hex.
           destruct (round_ratio_exact n d m0 e0 ltac:(lia) Hd Hm0 He0 Hex)
             as [Hfin0 Hinf0].
           destruct (Z.lt_ge_cases (m0 * 2 ^ (e0 + 1074)) (2 ^ 1024 * B))
             as [Hc|Hc].
           ++ destruct (Hfin0 Hc) as (m' & e' & Hr' & _ & HV').
              rewrite Hrr in Hr'. injection Hr' as <- <-.
              eapply (Magnitude.floor_exact) with (V := V) (B := B);
                try eassumption.
              unfold V, u. rewrite HV'. lia.
           ++ rewrite (Hinf0 Hc) in Hrr. discriminate.
      * cbn [near_floor]. split; [reflexivity|].
        eapply (Magnitude.overflow_decimal) with (V := V) (u := u) (B := B);
          try eassumption.
        apply Z.le_trans with (B * (V * S / B)); [|apply Z.mul_div_le; lia].
        rewrite (Z.mul_comm B). apply Z.mul_le_mono_nonneg_r; lia.
    + rewrite (Magnitude.convert_parts_infinite num U HU Hof).
      cbn [near_floor]. split; [reflexivity|].
      assert (2 ^ 1023 * d * 1 <= 2 ^ 1023 * d * S)
        by (apply Z.mul_le_mono_nonneg_l; [assert (0 < 2 ^ 1023) by reflexivity; nia | lia]).
      assert (n * 1 <= n * S) by (apply Z.mul_le_mono_nonneg_l; lia).
      lia.
Qed.

End Nearest.

(** * The claims *)

(** ** C1: the conversion and malformed numbers *)

(** C1.  The claim is that the conversion never raises and turns every
    unparseable literal into zero, the tokens "1.2.3 KB" and ". B"
    included.  On these two the pattern matches (its first group takes any
    run of digits and dots) and [float] then raises ValueError. *)
Theorem C1_malformed_number_raises :
  convert_bandwidth_to_bytes "1.2.3 KB" = Raise ValueError
  /\ convert_bandwidth_to_bytes ". B" = Raise ValueError.
Proof. split; vm_compute; reflexivity. Qed.

(** ** C2, C3: the address classifier *)

(** C2, as stated, fails: "10.300.1.1" is no IPv4 address, and it is
    classified as private. *)
Lemma C2_octet_range_not_checked :
  well_formed_ipv4 "10.300.1.1" = false
  /\ is_private_ip "10.300.1.1" = Ok true.
Proof. split; vm_compute; reflexivity. Qed.

(** C2, amended.  A text that does not end in a newline and is not made of
    four dot-separated groups of one to three digits is never private. *)
Theorem C2_not_dotted_quad_not_private (s : string) :
  dotted_quad s = false ->
  ends_with_newline s = false ->
  is_private_ip s = Ok false.
Proof.
  intros Hq Hnl. destruct (ip_shape s) eqn:Hshape.
  - exfalso. apply Quad.ip_shape_spec in Hshape
      as (a & b & c & d & e & -> & Ha & Hb & Hc & Hd & [->| ->]).
    + rewrite StrFacts.append_nil_r in Hq.
      rewrite PrivateIp.dotted_quad_intro in Hq by assumption. discriminate.
    + rewrite PrivateIp.ends_with_newline_append in Hnl. discriminate.
  - now apply PrivateIp.is_private_ip_no_shape.
Qed.

Lemma C2_not_dotted_quad_witness :
  dotted_quad "10.0.0" = false
  /\ ends_with_newline "10.0.0" = false
  /\ is_private_ip "10.0.0" = Ok false.
Proof.
  split; [reflexivity|]. split; [reflexivity|].
  apply (C2_not_dotted_quad_not_private "10.0.0"); reflexivity.
Defined.

(** C3.  The claim is that every text other than four dot-separated
    numeric groups, trailing text included, is classified as not private.
    A dotted quad followed by one newline is accepted: [$] matches before
    a final newline, and [int] skips it. *)
Theorem C3_trailing_newline_accepted :
  dotted_quad ("10.0.0.1" ++ nl) = false
  /\ is_private_ip ("10.0.0.1" ++ nl) = Ok true.
Proof. split; vm_compute; reflexivity. Qed.

(** ** C4: bandwidth literals *)

(** C4, as stated, fails when the decimal is not a double: the product is
    taken with the double nearest to it, which may be the next integer. *)
Lemma C4_double_rounding :
  decimal_of "1.9999999999999999" = Some (19999999999999999, 10 ^ 16)
  /\ 19999999999999999 * 1024 ^ 0 / 10 ^ 16 = 1
  /\ convert_bandwidth_to_bytes "1.9999999999999999 B" = Ok 2
  /\ decimal_of "9007199254740993" = Some (9007199254740993, 1)
  /\ convert_bandwidth_to_bytes "9007199254740993 B" = Ok 9007199254740992.
Proof.
  split; [reflexivity|]. split; [reflexivity|].
  split; [vm_compute; reflexivity|]. split; [reflexivity|].
  vm_compute. reflexivity.
Qed.

(** C4, amended.  For a token that spells the decimal [n / d], blanks and
    a unit in any letter case, the conversion multiplies the double
    nearest to [n / d] by the power of 1024 of the unit (the first of TB,
    GB, MB, KB, B that matches) and truncates: the result is the floor of
    [n / d] times the scale up to a relative error of [2^-53], and that
    floor itself when [n / d] is a double; it raises OverflowError only
    when the product reaches [2^1023].  The six values of the
    specification follow. *)
Theorem C4_scales_nearest_double :
  (forall num ws u n d,
      decimal_of num = Some (n, d) ->
      Str.all Str.is_space ws = true ->
      In (Str.upper u) units ->
      near_floor n d (1024 ^ unit_exponent (Str.upper u))
        (convert_bandwidth_to_bytes (num ++ ws ++ u)))
  /\ (forall ip,
         ip <> "" -> Str.all Str.is_digit ip = true ->
         decimal_of ip = Some (number ip, 1))
  /\ (forall ip fp,
         ip <> "" \/ fp <> "" ->
         Str.all Str.is_digit ip = true -> Str.all Str.is_digit fp = true ->
         decimal_of (ip ++ "." ++ fp)
         = Some (number (ip ++ fp), 10 ^ Z.of_nat (String.length fp)))
  /\ map unit_exponent units = [4; 3; 2; 1; 0]
  /\ convert_bandwidth_to_bytes "12 KB" = Ok 12288
  /\ convert_bandwidth_to_bytes "2.5 MB" = Ok 2621440
  /\ convert_bandwidth_to_bytes "1 GB" = Ok 1073741824
  /\ convert_bandwidth_to_bytes "0.5 TB" = Ok 549755813888
  /\ convert_bandwidth_to_bytes "garbage" = Ok 0
  /\ convert_bandwidth_to_bytes "" = Ok 0
  /\ convert_bandwidth_to_bytes "2.5 mb" = Ok 2621440
  /\ convert_bandwidth_to_bytes "3 kB" = Ok 3072.
Proof.
  split; [|split; [|split]].
  - intros num ws u n d Hdec Hws Hu.
    destruct (Shape.decimal_of_class num n d Hdec) as [Hne Hcls].
    replace (num ++ ws ++ u) with (num ++ ws ++ u ++ "")
      by now rewrite StrFacts.append_nil_r.
    rewrite Literal.convert_literal by assumption.
    now apply Nearest.near_floor_literal.
  - exact Magnitude.decimal_of_whole.
  - exact Magnitude.decimal_of_point.
  - split; [reflexivity|]. repeat (split; [vm_compute; reflexivity|]).
    vm_compute. reflexivity.
Qed.

Lemma C4_scales_witness :
  near_floor 25 10 (1024 ^ 2) (convert_bandwidth_to_bytes "2.5 MB")
  /\ convert_bandwidth_to_bytes "2.5 MB" = Ok (25 * 1024 ^ 2 / 10).
Proof.
  split.
  - exact (proj1 C4_scales_nearest_double "2.5" " " "MB" 25 10
             eq_refl eq_refl ltac:(vm_compute; tauto)).
  - vm_compute. reflexivity.
Defined.

(** ** C5: the extractor *)

(** C5.  On a page with a table, the extractor requests the page once and
    returns the sum of the conversions of cell 5 over the rows that come
    after the first two, have six cells or more, and whose cell 0 is the
    word Others or a private address (an exception of a conversion is the
    outcome); without a table it returns 0.  The table of the
    specification, whatever its header rows and its middle cells, gives
    1073754112. *)
Theorem C5_sums_included_rows :
  (forall url rows,
      parse_awstats_monthly_page (fun _ => Page (Some rows)) url
      = ([Get url],
         vals <- map_result convert_bandwidth_to_bytes
                   (map bandwidth_cell (filter included (skipn 2 rows))) ;;
         Ok (zsum vals)))
  /\ (forall url,
         parse_awstats_monthly_page (fun _ => Page None) url
         = ([Get url;
             Print "Unable to find the data table. Adjust your selector."],
            Ok 0))
  /\ (forall cols,
         included cols = true
         <-> (6 <= List.length cols)%nat
             /\ (token cols = "Others" \/ is_private_ip (token cols) = Ok true))
  /\ (forall h1 h2 a1 a2 a3 a4 b1 b2 b3 b4 c1 c2 c3 c4,
         extract_private_bandwidth
           (Some [h1; h2;
                  ["10.0.0.5"; a1; a2; a3; a4; "12 KB"];
                  ["8.8.8.8"; b1; b2; b3; b4; "5 MB"];
                  ["Others"; c1; c2; c3; c4; "1 GB"]])
         = ([], Ok 1073754112)).
Proof.
  split; [|split; [|split]].
  - intros url rows. unfold parse_awstats_monthly_page, extract_private_bandwidth.
    rewrite Extractor.sum_rows_spec. reflexivity.
  - reflexivity.
  - intros cols. unfold included. rewrite andb_true_iff, orb_true_iff.
    rewrite Nat.leb_le, String.eqb_eq.
    rewrite (Extractor.is_private_ip_is_private (token cols)).
    split.
    + intros [H1 [H2|H2]]; (split; [assumption|]);
        [left; assumption | right; now rewrite H2].
    + intros [H1 [H2|H2]]; (split; [assumption|]);
        [left; assumption | right; congruence].
  - intros. vm_compute. reflexivity.
Qed.

(** ** C6: formatting *)

(** C6, as stated, fails on a byte count whose quotient by the unit is not
    a double: the division raises. *)
Lemma C6_quotient_overflows :
  unit_of (2 ^ 1100) = "TB"
  /\ format_bandwidth (2 ^ 1100) = Raise OverflowError.
Proof. split; vm_compute; reflexivity. Qed.

(** C6, amended.  For a byte count [x] below [2^1064 - 2^1010] (and above
    the negative integers of more than 4300 digits): below 1024 the text
    is the integer and the suffix B; from 1024 on the unit is the largest
    of TB, GB, MB, KB whose scale [S] is at most [x], and the text is
    [n / 100], a dot, the two digits of [n mod 100], a blank and the unit,
    where [n] is [100 * x / S] within half a hundredth and the rounding of
    one double, and exactly the nearest integer (ties to even) below
    [2^53].  From [2^1064 - 2^1010] on, where the quotient by [1024^4]
    rounds to no double, the function raises OverflowError; on a negative
    integer of more than 4300 digits it raises ValueError.  The three
    values of the specification follow. *)
Theorem C6_unit_and_two_decimals :
  (forall x,
      - Str.int_limit < x < 2 ^ 1064 - 2 ^ 1010 ->
      let U := unit_of x in
      let S := 1024 ^ unit_exponent U in
      In U units
      /\ (x < 1024 ->
          U = "B" /\ format_bandwidth x = Ok (Str.of_int x ++ " B"))
      /\ (1024 <= x ->
          U <> "B" /\ S <= x
          /\ (forall V, In V units ->
                        1024 ^ unit_exponent V <= x ->
                        1024 ^ unit_exponent V <= S)
          /\ exists n,
               0 <= n
               /\ format_bandwidth x = Ok (render_hundredths n ++ " " ++ U)
               /\ 2 ^ 45 * (2 * Z.abs (n * S - 100 * x) - S) <= x
               /\ (x < 2 ^ 53 -> n = Float.rhe (100 * x) S)))
  /\ (forall n,
         render_hundredths n
         = Str.of_int (n / 100) ++ "."
           ++ String (Str.digit_char (n mod 100 / 10))
                (String (Str.digit_char (n mod 100 mod 10)) ""))
  /\ (forall x,
         2 ^ 1064 - 2 ^ 1010 <= x -> format_bandwidth x = Raise OverflowError)
  /\ (forall x,
         x <= - Str.int_limit -> format_bandwidth x = Raise ValueError)
  /\ format_bandwidth 0 = Ok "0 B"
  /\ format_bandwidth 1536 = Ok "1.50 KB"
  /\ format_bandwidth 1073741824 = Ok "1.00 GB".
Proof.
  split; [|split; [reflexivity | split; [|split]]].
  4:{ split; [|split]; vm_compute; reflexivity. }
  - intros x [Hlow Hhi] U S.
    destruct (Z.lt_ge_cases x 1024) as [Hsmall|Hlarge].
    + assert (HU : U = "B").
      { unfold U, unit_of.
        replace (1024 ^ 4 <=? x) with false by (symmetry; apply Z.leb_gt; lia).
        replace (1024 ^ 3 <=? x) with false by (symmetry; apply Z.leb_gt; lia).
        replace (1024 ^ 2 <=? x) with false by (symmetry; apply Z.leb_gt; lia).
        replace (1024 <=? x) with false by (symmetry; apply Z.leb_gt; lia).
        reflexivity. }
      split; [rewrite HU; unfold units; simpl; tauto|].
      split; [|lia]. intros _. split; [exact HU|].
      apply Format.format_small. lia.
    + destruct (Format.unit_of_cases x Hlarge) as (k & Hk & Hexp & HU & HSx & Hup).
      fold U in Hexp, HU. split; [exact HU|]. split; [lia|]. intros _.
      pose proof (Format.format_render x Hlarge) as Hfmt. cbv zeta in Hfmt.
      fold U in Hfmt. fold S in Hfmt.
      assert (HSk : S = 1024 ^ k) by (unfold S; now rewrite Hexp).
      destruct (Format.scale_pow2 k Hk) as [HS2 _]. rewrite <- HSk in HS2, HSx.
      split; [intros E; rewrite E in Hexp; cbn in Hexp; lia|].
      split; [exact HSx|]. split.
      * intros V HV HVx. rewrite HSk. unfold units in HV. simpl in HV.
        destruct HV as [<-|[<-|[<-|[<-|[<-|[]]]]]];
          change (unit_exponent "TB") with 4 in *;
          change (unit_exponent "GB") with 3 in *;
          change (unit_exponent "MB") with 2 in *;
          change (unit_exponent "KB") with 1 in *;
          change (unit_exponent "B") with 0 in *;
          destruct Hk as [->|[->|[->| ->]]]; lia.
      * destruct (format_bandwidth x) as [s|err] eqn:Hf.
        2:{ exfalso. destruct Hfmt as [-> _].
            destruct (FormatLimits.format_overflow x Hlarge) as [Hiff _].
            apply Hiff in Hf. lia. }
        destruct Hfmt as (m & e & Hdiv & He & Hm & Herr & Hnn & ->).
        exists (Float.rhe (100 * (m * 2 ^ (e + 1074))) Rounding.B).
        split; [exact Hnn|]. split; [reflexivity|].
        pose proof Rounding.B_pos as HB.
        assert (Hu : 0 < 2 ^ (e + 1074)) by (apply Rounding.pow2_pos; lia).
        split.
        -- apply (Format.hundredths_accuracy x (m * 2 ^ (e + 1074))
                    (2 ^ (e + 1074)) _ Rounding.B S HS2 HB HSx Hu Herr).
           ++ apply Z.mul_le_mono_nonneg_r; lia.
           ++ assert (Hnn1 : 0 <= 100 * (m * 2 ^ (e + 1074)))
                by (apply Z.mul_nonneg_nonneg; [lia|];
                    apply Z.mul_nonneg_nonneg; lia).
              pose proof (Rounding.rhe_bounds _ Rounding.B Hnn1 HB). lia.
        -- intros H53. rewrite HSk in *.
           apply (Format.hundredths_exact x k m e Hk); [lia | exact Hdiv].
  - intros x Hx.
    destruct (FormatLimits.format_overflow x ltac:(lia)) as [Hiff _].
    now apply Hiff.
  - exact Format.format_refused.
Qed.

Lemma C6_unit_and_two_decimals_witness :
  unit_of 1610612736 = "GB"
  /\ exists n,
       format_bandwidth 1610612736 = Ok (render_hundredths n ++ " GB")
       /\ n = 150.
Proof.
  split; [reflexivity|].
  pose proof Format.int_limit_large as Hlim.
  destruct (proj1 C6_unit_and_two_decimals 1610612736 ltac:(lia))
    as (_ & _ & Hlarge).
  destruct (Hlarge ltac:(lia)) as (_ & _ & _ & n & _ & Hfmt & _ & Hn).
  exists n. split; [exact Hfmt|].
  rewrite (Hn ltac:(lia)). vm_compute. reflexivity.
Defined.

(** ** C7: formatting, then parsing *)

(** C7, as stated, fails on large byte counts: what comes back differs by
    more than the two decimals lose (here by 64 units, the double nearest
    to the quotient being that far), or nothing comes back. *)
Lemma C7_large_counts_differ :
  round_trip (2 ^ 100 + 2 ^ 46) = Ok (2 ^ 100)
  /\ format_bandwidth (2 ^ 100 + 2 ^ 46) = Ok "1152921504606846976.00 TB"
  /\ round_trip (2 ^ 1024 - 1) = Raise OverflowError.
Proof. split; [|split]; vm_compute; reflexivity. Qed.

(** C7, amended.  For a byte count [x] with [0 <= x < 2^1023], parsing
    what was formatted returns; below 1024 it returns [x]; from 1024 on
    it returns [x] within half a hundredth of the unit, one byte, and the
    rounding of the doubles involved (less than [x / 2^51]). *)
Theorem C7_round_trip (x : Z) :
  0 <= x < 2 ^ 1023 ->
  exists r,
    round_trip x = Ok r
    /\ (x < 1024 -> r = x)
    /\ 2 ^ 44 * (200 * Z.abs (r - x))
       <= 2 ^ 44 * (1024 ^ unit_exponent (unit_of x) + 201) + x.
Proof.
  intros [Hlo Hhi]. destruct (Z.lt_ge_cases x 1024) as [Hsmall|Hlarge].
  - exists x. split; [apply Format.round_trip_small; lia|].
    split; [reflexivity|].
    replace (x - x) with 0 by lia.
    pose proof (Z.pow_nonneg 1024 (unit_exponent (unit_of x)) ltac:(lia)).
    cbn [Z.abs]. lia.
  - destruct (Format.round_trip_large x (conj Hlarge Hhi)) as (r & Hr & Hb).
    exists r. split; [exact Hr|]. split; [lia | exact Hb].
Qed.

Lemma C7_round_trip_witness :
  exists r,
    round_trip 1536 = Ok r
    /\ 2 ^ 44 * (200 * Z.abs (r - 1536)) <= 2 ^ 44 * (1024 + 201) + 1536.
Proof.
  destruct (C7_round_trip 1536 ltac:(lia)) as (r & Hr & _ & Hb).
  exists r. split; [exact Hr | exact Hb].
Defined.

(** ** C8: one entry per calendar month *)



(** ** C9: a failed request ends the run *)

(** C9.  A request that fails is the last event of the run: the outcome
    is its exception, and nothing is written to the CSV file.  The CSV
    file is written once, as the last event of a run that returns, after
    every period of the loops has been requested and no request has
    failed. *)
Theorem C9_failed_request_ends_run
  (server : string -> response)
  (start_year start_month end_year end_month : Z) :
  let run :=
    fetch_and_save_monthly_data server start_year start_month
      end_year end_month in
  (forall before url after,
      fst run = (before ++ Get url :: after)%list ->
      server url = Failed ->
      after = []
      /\ snd run = Raise RequestException
      /\ forall rows, ~ In (WriteCsv rows) (fst run))
  /\ (forall rows,
         In (WriteCsv rows) (fst run) ->
         exists t d,
           run = ((t ++ [WriteCsv rows])%list, Ok d)
           /\ rows = csv_rows d
           /\ (forall rows', ~ In (WriteCsv rows') t)
           /\ (forall url, In (Get url) t -> server url <> Failed)
           /\ (forall year month,
                  In (year, month)
                    (loop_periods start_year start_month end_year end_month) ->
                  In (Get (period_url year month)) t)).
Proof.
  intros run.
  destruct (Trace.run_cases server start_year start_month end_year end_month)
    as [(t0 & d & Hrun & Hp & Hc) | (t0 & e & Hrun & Hfs)];
    fold run in Hrun; rewrite Hrun; cbn [fst snd].
  - split.
    + intros before url after Ht Hu. exfalso.
      assert (Hin : In (Get url) (t0 ++ [WriteCsv (csv_rows d)]))
        by (rewrite Ht; apply in_elt).
      apply in_app_or in Hin as [Hin|[Hin|[]]]; [|discriminate Hin].
      now apply (Trace.clean_no_failed_get server t0 url Hc Hin).
    + intros rows Hin. apply in_app_or in Hin as [Hin|[Hin|[]]].
      * exfalso. now apply (Trace.clean_no_write server t0 rows Hc).
      * injection Hin as <-. exists t0, d. repeat split.
        -- intros rows'. now apply (Trace.clean_no_write server).
        -- intros url. now apply (Trace.clean_no_failed_get server).
        -- intros year month. now apply (Trace.process_periods_gets server _ _ _ _ Hp).
  - assert (Hnw : forall rows, ~ In (WriteCsv rows) t0).
    { intros rows. destruct Hfs as [Hc | [Hs _]];
        [now apply (Trace.clean_no_write server)
        | now apply (Trace.stopped_no_write server)]. }
    split.
    + intros before url after Ht Hu.
      destruct (Trace.fail_stop_last server (A := dict) t0 (Raise e)
                  before url after Hfs Ht Hu) as [-> ->].
      auto.
    + intros rows Hin. exfalso. exact (Hnw rows Hin).
Qed.

Lemma C9_failed_request_witness :
  let run := fetch_and_save_monthly_data (failing_at 2023 12) 2023 11 2024 2 in
  In (Get (period_url 2023 12)) (fst run)
  /\ ~ In (Get (period_url 2024 1)) (fst run)
  /\ snd run = Raise RequestException
  /\ forall rows, ~ In (WriteCsv rows) (fst run).
Proof.
  intros run.
  destruct (proj1 (C9_failed_request_ends_run (failing_at 2023 12)
                     2023 11 2024 2)
              (firstn 5 (fst run)) (period_url 2023 12) []
              ltac:(vm_compute; reflexivity) ltac:(vm_compute; reflexivity))
    as (_ & Hexn & Hnw).
  split; [|split; [|split]].
  - vm_compute. tauto.
  - vm_compute. intuition discriminate.
  - exact Hexn.
  - exact Hnw.
Defined.

(** ** C10: what follows the unit *)

(** C10.  Whatever follows the unit is ignored, and a first character
    (after leading blanks) that is neither a digit nor a dot leaves nothing
    to match. *)
Theorem C10_trailing_text_ignored :
  (forall num ws u trailing,
      num <> "" ->
      Str.all is_digit_or_dot num = true ->
      Str.all Str.is_space ws = true ->
      In (Str.upper u) units ->
      convert_bandwidth_to_bytes (num ++ ws ++ u ++ trailing)
      = convert_bandwidth_to_bytes (num ++ ws ++ u))
  /\ (forall lead c t,
         Str.all Str.is_space lead = true ->
         Str.is_space c = false ->
         is_digit_or_dot c = false ->
         convert_bandwidth_to_bytes (lead ++ String c t) = Ok 0).
Proof.
  split.
  - intros num ws u trailing Hne Hnum Hws Hu.
    rewrite Literal.convert_literal by assumption.
    replace (num ++ ws ++ u) with (num ++ ws ++ u ++ "")
      by now rewrite StrFacts.append_nil_r.
    now rewrite Literal.convert_literal by assumption.
  - intros lead c t. apply Literal.convert_no_match.
Qed.

Lemma C10_trailing_text_witness :
  convert_bandwidth_to_bytes "5 MBs" = convert_bandwidth_to_bytes "5 MB"
  /\ convert_bandwidth_to_bytes "12 KB/s" = convert_bandwidth_to_bytes "12 KB"
  /\ convert_bandwidth_to_bytes " x5 MB" = Ok 0.
Proof.
  split; [|split].
  - exact (proj1 C10_trailing_text_ignored "5" " " "MB" "s"
             ltac:(discriminate) eq_refl eq_refl ltac:(vm_compute; tauto)).
  - exact (proj1 C10_trailing_text_ignored "12" " " "KB" "/s"
             ltac:(discriminate) eq_refl eq_refl ltac:(vm_compute; tauto)).
  - exact (proj2 C10_trailing_text_ignored " " "x"%char "5 MB"
             eq_refl eq_refl eq_refl).
Defined.

(** * Further properties of the script *)

(** ** Addresses *)

(** X1.  [is_private_ip] never raises: the pattern lets only digits reach
    [int]. *)
Theorem X1_is_private_ip_never_raises (ip : string) :
  exists b, is_private_ip ip = Ok b.
Proof.
  destruct (ip_shape ip) eqn:Hshape.
  - apply Quad.ip_shape_spec in Hshape
      as (a & b & c & d & e & -> & Ha & Hb & Hc & Hd & He).
    rewrite PrivateIp.is_private_quad by assumption. eauto.
  - rewrite PrivateIp.is_private_ip_no_shape by assumption. eauto.
Qed.

(** X2.  The texts [is_private_ip] accepts are exactly the four groups of
    one to three digits joined by dots, with or without one final line
    feed, whose first two numbers are in a private range: 10, 172 with
    16..31, or 192 with 168.  Leading zeros and numbers above 255 are
    read as they are; the last two groups do not matter. *)
Theorem X2_private_addresses (ip : string) :
  is_private_ip ip = Ok true
  <-> exists a b c d e,
        ip = quad a b c d ++ e
        /\ octet_text a = true /\ octet_text b = true
        /\ octet_text c = true /\ octet_text d = true
        /\ (e = "" \/ e = nl)
        /\ (number a = 10
            \/ (number a = 172 /\ 16 <= number b <= 31)
            \/ (number a = 192 /\ number b = 168)).
Proof.
  assert (Hoct : forall p0 p1,
             private_octets p0 p1 = true
             <-> (p0 = 10 \/ (p0 = 172 /\ 16 <= p1 <= 31)
                  \/ (p0 = 192 /\ p1 = 168))).
  { intros p0 p1. unfold private_octets.
    rewrite !orb_true_iff, !andb_true_iff, !Z.eqb_eq, !Z.leb_le. tauto. }
  split.
  - intros Hp. destruct (ip_shape ip) eqn:Hshape.
    + apply Quad.ip_shape_spec in Hshape
        as (a & b & c & d & e & -> & Ha & Hb & Hc & Hd & He).
      rewrite PrivateIp.is_private_quad in Hp by assumption.
      injection Hp as Hp. apply Hoct in Hp.
      exists a, b, c, d, e. tauto.
    + rewrite PrivateIp.is_private_ip_no_shape in Hp by assumption.
      discriminate.
  - intros (a & b & c & d & e & -> & Ha & Hb & Hc & Hd & He & Hp).
    rewrite PrivateIp.is_private_quad by assumption.
    apply Hoct in Hp. now rewrite Hp.
Qed.

(** ** Number tokens *)

Module NumberToken.
Import Str StrFacts.

Lemma split_not_nil (s : string) : split "." s <> [].
Proof.
  destruct s as [|c t]; cbn [split]; [discriminate|].
  destruct (Ascii.eqb c "."); [discriminate|].
  destruct (split "." t); discriminate.
Qed.

(** A text of digits and dots is all digits, or digits, a dot and a text
    of digits and dots. *)
Lemma class_cases (s : string) :
  all is_digit_or_dot s = true ->
  (all is_digit s = true /\ dots s = 0%nat)
  \/ exists a r,
       s = a ++ String "." r
       /\ all is_digit a = true
       /\ all is_digit_or_dot r = true
       /\ dots s = S (dots r).
Proof.
  induction s as [|c t IH]; cbn [all]; [intros _; left; split; reflexivity|].
  intros H. apply andb_true_iff in H as [Hc Ht]. specialize (IH Ht).
  unfold is_digit_or_dot in Hc. apply orb_true_iff in Hc as [Hd|Hd].
  - pose proof (PrivateIp.digit_nodot c Hd) as Hnd.
    destruct IH as [[Hall Hz] | (a & r & -> & Ha & Hr & Hn)].
    + left. unfold dots in *. cbn [count]. rewrite Hd, Hnd, Hz, Hall.
      split; reflexivity.
    + right. exists (String c a), r. cbn [all append]. rewrite Hd, Ha.
      repeat split; try assumption.
      unfold dots in *. cbn [count append]. rewrite Hnd. exact Hn.
  - apply Ascii.eqb_eq in Hd as ->. right. exists "", t.
    repeat split; try assumption.
Qed.

Lemma of_str_raise (s : string) (e : exn) :
  Float.of_str s = Raise e -> e = ValueError.
Proof.
  unfold Float.of_str.
  destruct (split "." s) as [|ip [|fp [|x l]]]; try congruence.
  - destruct (is_empty ip); [congruence|].
    destruct (digits_value 0 ip); congruence.
  - destruct (is_empty ip && is_empty fp); [congruence|].
    destruct (digits_value 0 (ip ++ fp)); congruence.
Qed.

(** [float] on a token of digits and dots: an error for a lone dot and
    for two dots or more, a value otherwise. *)
Lemma of_str_cases (s : string) :
  s <> "" ->
  all is_digit_or_dot s = true ->
  (Float.of_str s = Raise ValueError /\ (s = "." \/ (2 <= dots s)%nat))
  \/ ((exists x, Float.of_str s = Ok x) /\ s <> "." /\ (dots s <= 1)%nat).
Proof.
  intros Hne Hcls. unfold Float.of_str.
  destruct (class_cases s Hcls) as [[Hall Hz] | (a & r & -> & Ha & Hr & Hn)].
  - right. rewrite PrivateIp.split_nodot by now apply PrivateIp.digits_nodot.
    destruct s as [|c t]; [congruence|]. cbn [is_empty].
    destruct (PrivateIp.digits_value_total _ Hall 0) as [n ->].
    split; [eauto|]. split; [|lia].
    intros E. rewrite E in Hz. discriminate Hz.
  - rewrite PrivateIp.split_cons by now apply PrivateIp.digits_nodot.
    destruct (class_cases r Hr) as [[Hall Hz] | (a' & r' & -> & Ha' & Hr' & Hn')].
    + rewrite PrivateIp.split_nodot by now apply PrivateIp.digits_nodot.
      destruct (is_empty a && is_empty r) eqn:Hemp.
      * left. split; [reflexivity|]. left.
        apply andb_true_iff in Hemp as [E1 E2].
        destruct a; [|discriminate]. destruct r; [|discriminate]. reflexivity.
      * right.
        assert (Hboth : all is_digit (a ++ r) = true)
          by (rewrite all_append, Ha, Hall; reflexivity).
        destruct (PrivateIp.digits_value_total _ Hboth 0) as [n ->].
        split; [eauto|]. split; [|lia].
        intros E. destruct a as [|x a]; cbn [append] in E.
        -- injection E as ->. discriminate Hemp.
        -- injection E as _ E. destruct a; discriminate E.
    + left. rewrite PrivateIp.split_cons by now apply PrivateIp.digits_nodot.
      pose proof (split_not_nil r') as Hnil.
      destruct (split "." r') as [|x l]; [congruence|].
      split; [reflexivity|]. right. lia.
Qed.

(** What [scan_bandwidth] finds: a non-empty token of digits and dots and
    one of the five units. *)
Lemma scan_some (s num u : string) :
  scan_bandwidth s = Some (num, u) ->
  num <> "" /\ all is_digit_or_dot num = true /\ In u units.
Proof.
  unfold scan_bandwidth.
  destruct (Nat.eqb_spec (span_len is_digit_or_dot s) 0) as [|Hj];
    [discriminate|].
  destruct (find_unit _) as [u'|] eqn:Hu; [|discriminate].
  intros [= <- <-].
  destruct (Quad.take_span is_digit_or_dot (span_len is_digit_or_dot s) s
              (le_n _)) as [Hall Hlen].
  split; [|split].
  - intros E. rewrite E in Hlen. cbn in Hlen. lia.
  - exact Hall.
  - unfold find_unit in Hu. apply find_some in Hu. tauto.
Qed.

(** The outcome of the conversion once token and unit are known. *)
Lemma convert_parts_outcome (num u : string) :
  In u units ->
  match convert_parts num u with
  | Ok n => 0 <= n /\ exists x, Float.of_str num = Ok x
  | Raise e =>
      (e = ValueError /\ Float.of_str num = Raise ValueError)
      \/ (e = OverflowError /\ exists x, Float.of_str num = Ok x)
  end.
Proof.
  intros Hu. destruct (Float.of_str num) as [[m e| |]|err] eqn:Hof.
  - rewrite (Scaling.convert_parts_spec num u m e Hu Hof). cbv zeta.
    pose proof (Tokens.of_str_wf _ _ Hof) as (He & Hm & _).
    destruct (_ <? _); [|right; eauto].
    split; [|eauto]. rewrite FloatOps.scaled_floor_fixed by assumption.
    pose proof Rounding.B_pos.
    assert (0 < 2 ^ (e + 1074)) by (apply Rounding.pow2_pos; lia).
    assert (0 <= 1024 ^ unit_exponent u) by (apply Z.pow_nonneg; lia).
    apply Z.div_pos; [|assumption].
    apply Z.mul_nonneg_nonneg; [|assumption].
    apply Z.mul_nonneg_nonneg; lia.
  - unfold convert_parts. rewrite Hof. cbn [bind].
    unfold units in Hu. simpl in Hu.
    destruct Hu as [<-|[<-|[<-|[<-|[<-|[]]]]]]; vm_compute; right; eauto.
  - apply Tokens.of_str_wf in Hof. contradiction.
  - unfold convert_parts. rewrite Hof. cbn [bind].
    left. apply of_str_raise in Hof. subst err. split; reflexivity.
Qed.

(** The conversion returns a byte count that is not negative, or raises
    one of two exceptions. *)
Lemma convert_outcome (s : string) :
  match convert_bandwidth_to_bytes s with
  | Ok n => 0 <= n
  | Raise e => e = ValueError \/ e = OverflowError
  end.
Proof.
  rewrite Literal.convert_scan.
  destruct (scan_bandwidth _) as [[num u]|] eqn:Hscan; [|lia].
  apply scan_some in Hscan as (_ & _ & Hu).
  pose proof (convert_parts_outcome num u Hu) as H.
  destruct (convert_parts num u) as [n|e]; [tauto|].
  destruct H as [[-> _]|[-> _]]; auto.
Qed.

End NumberToken.

(** ** The conversion *)

(** X3.  The conversion returns a byte count that is not negative, or
    raises ValueError or OverflowError; no other exception leaves it. *)
Theorem X3_convert_outcomes (bandwidth_str : string) :
  match convert_bandwidth_to_bytes bandwidth_str with
  | Ok n => 0 <= n
  | Raise e => e = ValueError \/ e = OverflowError
  end.
Proof. exact (NumberToken.convert_outcome bandwidth_str). Qed.

(** X4.  The conversion raises ValueError exactly when the pattern
    matches and the run of digits and dots it takes as the number is a
    lone dot or holds two dots or more. *)
Theorem X4_convert_value_error (bandwidth_str : string) :
  convert_bandwidth_to_bytes bandwidth_str = Raise ValueError
  <-> exists num u,
        scan_bandwidth (Str.upper (Str.strip bandwidth_str)) = Some (num, u)
        /\ (num = "." \/ (2 <= dots num)%nat).
Proof.
  rewrite Literal.convert_scan.
  destruct (scan_bandwidth _) as [[num u]|] eqn:Hscan.
  - destruct (NumberToken.scan_some _ _ _ Hscan) as (Hne & Hcls & Hu).
    pose proof (NumberToken.convert_parts_outcome num u Hu) as H.
    destruct (NumberToken.of_str_cases num Hne Hcls)
      as [[Hof Hbad] | [[x Hof] [Hnd Hle]]].
    + split; [intros _; exists num, u; auto|]. intros _.
      destruct (convert_parts num u) as [n|e].
      * destruct H as [_ [x Hx]]. congruence.
      * destruct H as [[-> _]|[_ [x Hx]]]; [reflexivity | congruence].
    + split.
      * intros E. rewrite E in H.
        destruct H as [[_ Hx]|[Hx _]]; [congruence | discriminate].
      * intros (num' & u' & [= <- <-] & [E|E]); [contradiction | lia].
  - split; [discriminate|]. intros (num & u & E & _). discriminate.
Qed.

Module Blanks.
Import Str StrFacts.

Lemma is_space_upper_char (c : ascii) : is_space (upper_char c) = is_space c.
Proof. destruct c as [[] [] [] [] [] [] [] []]; reflexivity. Qed.

Lemma upper_char_idem (c : ascii) : upper_char (upper_char c) = upper_char c.
Proof. destruct c as [[] [] [] [] [] [] [] []]; reflexivity. Qed.

Lemma upper_idem (s : string) : upper (upper s) = upper s.
Proof.
  induction s as [|c t IH]; cbn [upper]; [reflexivity|].
  now rewrite upper_char_idem, IH.
Qed.

Lemma lstrip_upper (s : string) : lstrip (upper s) = upper (lstrip s).
Proof.
  induction s as [|c t IH]; cbn [upper lstrip]; [reflexivity|].
  rewrite is_space_upper_char. destruct (is_space c); [exact IH | reflexivity].
Qed.

Lemma is_empty_upper (s : string) : is_empty (upper s) = is_empty s.
Proof. destruct s; reflexivity. Qed.

Lemma rstrip_upper (s : string) : rstrip (upper s) = upper (rstrip s).
Proof.
  induction s as [|c t IH]; cbn [upper rstrip]; [reflexivity|].
  rewrite is_space_upper_char, IH, is_empty_upper.
  destruct (is_space c && is_empty (rstrip t)); reflexivity.
Qed.

Lemma strip_upper (s : string) : strip (upper s) = upper (strip s).
Proof. unfold strip. now rewrite lstrip_upper, rstrip_upper. Qed.

Lemma rstrip_blank (b : string) : all is_space b = true -> rstrip b = "".
Proof.
  induction b as [|c t IH]; cbn [all rstrip]; [reflexivity|].
  intros H. apply andb_true_iff in H as [Hc Ht].
  now rewrite (IH Ht), Hc.
Qed.

Lemma rstrip_blank_tail (a b : string) :
  all is_space b = true -> rstrip (a ++ b) = rstrip a.
Proof.
  intros Hb. induction a as [|c t IH]; cbn [append rstrip].
  - now apply rstrip_blank.
  - now rewrite IH.
Qed.

Lemma strip_blank_tail (a b : string) :
  all is_space b = true -> strip (a ++ b) = strip a.
Proof.
  intros Hb. unfold strip. induction a as [|c t IH]; cbn [append lstrip].
  - rewrite <- (append_nil_r b), lstrip_spaces by assumption.
    reflexivity.
  - destruct (is_space c); [exact IH|].
    change (String c (t ++ b)) with (String c t ++ b).
    now apply rstrip_blank_tail.
Qed.

Lemma strip_blanks (a s b : string) :
  all is_space a = true -> all is_space b = true ->
  strip (a ++ s ++ b) = strip s.
Proof.
  intros Ha Hb. unfold strip at 1. rewrite lstrip_spaces by assumption.
  now apply strip_blank_tail.
Qed.

End Blanks.

(** X5.  The conversion does not see the blanks around its argument nor
    its letter case: lower-case units are read as the upper-case ones. *)
Theorem X5_convert_blanks_and_case :
  (forall lead s trail,
      Str.all Str.is_space lead = true ->
      Str.all Str.is_space trail = true ->
      convert_bandwidth_to_bytes (lead ++ s ++ trail)
      = convert_bandwidth_to_bytes s)
  /\ (forall s,
         convert_bandwidth_to_bytes (Str.upper s)
         = convert_bandwidth_to_bytes s).
Proof.
  split.
  - intros lead s trail Hl Ht. rewrite !Literal.convert_scan.
    now rewrite Blanks.strip_blanks.
  - intros s. rewrite !Literal.convert_scan.
    now rewrite Blanks.strip_upper, Blanks.upper_idem.
Qed.

Lemma X5_convert_blanks_witness :
  convert_bandwidth_to_bytes ("  " ++ "3 kb" ++ " ")
  = convert_bandwidth_to_bytes "3 kb".
Proof.
  exact (proj1 X5_convert_blanks_and_case "  " "3 kb" " " eq_refl eq_refl).
Defined.

(** X6.  A whole number of units below [2^53], written in decimal, is
    converted exactly: the number times the power of 1024 of the unit. *)
Theorem X6_convert_whole_numbers (n : Z) (ws u : string) :
  0 <= n < 2 ^ 53 ->
  Str.all Str.is_space ws = true ->
  In (Str.upper u) units ->
  convert_bandwidth_to_bytes (Str.of_int n ++ ws ++ u)
  = Ok (n * 1024 ^ unit_exponent (Str.upper u)).
Proof.
  intros Hn Hws Hu.
  destruct (Tokens.of_int_class n ltac:(lia)) as [Hne Hcls].
  replace (Str.of_int n ++ ws ++ u) with (Str.of_int n ++ ws ++ u ++ "")
    by now rewrite StrFacts.append_nil_r.
  rewrite Literal.convert_literal by assumption.
  set (k := unit_exponent (Str.upper u)).
  assert (Hk : 0 <= k <= 4).
  { unfold k. destruct (Scaling.unit_exponent_cases _ Hu) as [[_ ->]|[_ H]]; lia. }
  assert (HS : 1 <= 1024 ^ k <= 2 ^ 40).
  { split; [pose proof (Z.pow_pos_nonneg 1024 k); lia|].
    change (2 ^ 40) with (1024 ^ 4). apply Z.pow_le_mono_r; lia. }
  assert (Hprod : n * 1024 ^ k < 2 ^ 1024).
  { assert (n * 1024 ^ k <= 2 ^ 53 * 2 ^ 40) by nia. lia. }
  pose proof Rounding.B_pos as HB.
  destruct (Z.eq_dec n 0) as [->|Hnz].
  - rewrite (Scaling.convert_parts_spec _ _ 0 0 Hu)
      by (rewrite Tokens.of_str_int by lia; reflexivity).
    cbv zeta. fold k. unfold scaled_floor. cbn [Z.leb Z.compare Z.mul].
    reflexivity.
  - assert (Heq : n * Rounding.B = 1 * (n * 2 ^ (0 + 1074)))
      by (unfold Rounding.B; cbn [Z.add]; lia).
    destruct (Rounding.round_ratio_exact n 1 n 0 ltac:(lia) ltac:(lia)
                ltac:(lia) ltac:(lia) Heq) as [Hfin _].
    assert (Hside : n * 2 ^ (0 + 1074) < 2 ^ 1024 * Rounding.B).
    { change (2 ^ (0 + 1074)) with Rounding.B.
      apply Z.mul_lt_mono_pos_r; lia. }
    destruct (Hfin Hside) as (m & e & Hr & He & HV).
    rewrite (Scaling.convert_parts_spec _ _ m e Hu)
      by (rewrite Tokens.of_str_int by lia; now rewrite Hr).
    cbv zeta. fold k. rewrite FloatOps.scaled_floor_fixed by assumption.
    rewrite HV. change (2 ^ (0 + 1074)) with Rounding.B.
    replace (n * Rounding.B * 1024 ^ k) with (n * 1024 ^ k * Rounding.B) by ring.
    rewrite Z.div_mul by lia.
    now replace (_ <? _) with true by (symmetry; now apply Z.ltb_lt).
Qed.

Lemma X6_convert_whole_numbers_witness :
  convert_bandwidth_to_bytes "123 gb" = Ok (123 * 1024 ^ 3).
Proof.
  exact (X6_convert_whole_numbers 123 " " "gb" ltac:(lia) eq_refl
           ltac:(vm_compute; tauto)).
Defined.

(** ** Formatting *)

(** X7.  From 1024 bytes up to one terabyte the number shown is the
    quotient by the unit in hundredths, [100 * x / S] rounded to the
    nearest integer (ties to even); it is between 1.00 and 1024.00, and
    1024.00 is shown just below the next unit. *)
Theorem X7_shown_number_range :
  (forall x,
      1024 <= x < 1024 ^ 4 ->
      let S := 1024 ^ unit_exponent (unit_of x) in
      let n := Float.rhe (100 * x) S in
      format_bandwidth x = Ok (render_hundredths n ++ " " ++ unit_of x)
      /\ - S <= 2 * (n * S - 100 * x) <= S
      /\ 100 <= n <= 102400)
  /\ format_bandwidth 1048575 = Ok "1024.00 KB"
  /\ format_bandwidth 1048576 = Ok "1.00 MB".
Proof.
  split; [|split; vm_compute; reflexivity].
  intros x [Hlo Hhi].
  destruct (Format.unit_of_cases x Hlo) as (k & Hk & Hexp & HU & HSx & Hup).
  pose proof (Format.format_render x Hlo) as Hfmt. cbv zeta in Hfmt.
  rewrite Hexp in *. cbv zeta.
  assert (Hk3 : k < 4).
  { destruct Hk as [->|[->|[->| ->]]]; lia. }
  specialize (Hup Hk3).
  destruct (format_bandwidth x) as [s|err].
  2:{ exfalso. destruct Hfmt as [_ Hov].
      assert (1 * 2 ^ 1023 <= 1024 ^ k * 2 ^ 1023)
        by (apply Z.mul_le_mono_nonneg_r;
            destruct Hk as [->|[->|[->| ->]]]; lia).
      lia. }
  destruct Hfmt as (m & e & Hdiv & _ & _ & _ & _ & ->).
  rewrite (Format.hundredths_exact x k m e Hk ltac:(lia) Hdiv).
  split; [reflexivity|].
  assert (HS : 0 < 1024 ^ k) by (destruct Hk as [->|[->|[->| ->]]]; lia).
  pose proof (Rounding.rhe_bounds (100 * x) (1024 ^ k) ltac:(lia) HS) as Hb.
  replace (1024 ^ (k + 1)) with (1024 * 1024 ^ k) in Hup
    by (rewrite Z.pow_add_r by lia; lia).
  set (n := Float.rhe (100 * x) (1024 ^ k)) in *.
  set (S := 1024 ^ k) in *. clearbody n S. split; [lia | nia].
Qed.

Lemma X7_shown_number_witness :
  let n := Float.rhe (100 * 5000000) (1024 ^ 2) in
  format_bandwidth 5000000 = Ok (render_hundredths n ++ " MB")
  /\ - 1024 ^ 2 <= 2 * (n * 1024 ^ 2 - 100 * 5000000) <= 1024 ^ 2
  /\ 100 <= n <= 102400.
Proof.
  exact (proj1 X7_shown_number_range 5000000 ltac:(lia)).
Defined.

(** X8.  A negative byte count of at most 4300 digits is printed with its
    sign and the suffix B, and parsing that text gives 0: the pattern
    finds no number at a minus sign.  With more digits the function
    raises the ValueError of the conversion of the integer to text. *)
Theorem X8_negative_counts (x : Z) :
  x < 0 ->
  (- Str.int_limit < x ->
   format_bandwidth x = Ok ("-" ++ Str.of_int (- x) ++ " B")
   /\ round_trip x = Ok 0)
  /\ (x <= - Str.int_limit ->
      format_bandwidth x = Raise ValueError
      /\ round_trip x = Raise ValueError).
Proof.
  intros Hx. unfold round_trip. split; intros Hlim.
  - rewrite Format.format_small by lia.
    rewrite Decimal.of_int_neg by assumption.
    split; [reflexivity|]. cbn [bind append].
    exact (Literal.convert_no_match "" "-"%char _ eq_refl eq_refl eq_refl).
  - rewrite Format.format_refused by assumption. split; reflexivity.
Qed.

Lemma X8_negative_counts_witness :
  format_bandwidth (-5) = Ok "-5 B" /\ round_trip (-5) = Ok 0.
Proof.
  pose proof Format.int_limit_large as Hlim.
  exact (proj1 (X8_negative_counts (-5) ltac:(lia)) ltac:(lia)).
Defined.

(** ** The rows of a page *)

Module Rows.

(** The loop adds to its total, and raises what the conversion raises. *)
Lemma sum_rows_outcome (rows : table) :
  forall total,
    match sum_rows rows total with
    | Ok n => total <= n
    | Raise e => e = ValueError \/ e = OverflowError
    end.
Proof.
  induction rows as [|cols rows IH]; intros total; cbn [sum_rows]; [lia|].
  destruct (List.length cols <? 6)%nat; [apply IH|].
  rewrite Extractor.is_private_ip_is_private. cbn [bind].
  destruct (negb _ && negb _); [apply IH|].
  pose proof (NumberToken.convert_outcome (Str.strip (nth 5 cols ""))) as Hc.
  destruct (convert_bandwidth_to_bytes _) as [b|e]; cbn [bind]; [|exact Hc].
  specialize (IH (total + b)).
  destruct (sum_rows rows (total + b)); [lia | exact IH].
Qed.

Lemma sum_rows_app (r1 r2 : table) :
  forall total,
    sum_rows (r1 ++ r2)%list total = (t <- sum_rows r1 total ;; sum_rows r2 t).
Proof.
  induction r1 as [|cols r1 IH]; intros total; cbn [app sum_rows bind];
    [reflexivity|].
  destruct (List.length cols <? 6)%nat; [apply IH|].
  destruct (is_private_ip _) as [p|e]; cbn [bind]; [|reflexivity].
  destruct (negb p && negb _); [apply IH|].
  destruct (convert_bandwidth_to_bytes _) as [b|e]; cbn [bind]; [|reflexivity].
  apply IH.
Qed.

Lemma sum_rows_shift (rows : table) (total : Z) :
  sum_rows rows total = (n <- sum_rows rows 0 ;; Ok (total + n)).
Proof.
  rewrite !Extractor.sum_rows_spec.
  destruct (map_result _ _) as [vals|e]; cbn [bind]; reflexivity.
Qed.

(** Converting a list in another order: the values in that order, or an
    exception on both sides. *)
Lemma map_result_perm {A B} (f : A -> result B) (l l' : list A) :
  Permutation l l' ->
  match map_result f l, map_result f l' with
  | Ok a, Ok b => Permutation a b
  | Raise _, Raise _ => True
  | _, _ => False
  end.
Proof.
  induction 1 as [|x l l' _ IH|x y l|l l' l'' _ IH1 _ IH2]; cbn [map_result].
  - constructor.
  - destruct (f x); cbn [bind]; [|exact I].
    destruct (map_result f l), (map_result f l'); cbn [bind];
      try contradiction; auto.
  - destruct (f x), (f y); cbn [bind]; try exact I;
      destruct (map_result f l); cbn [bind]; try exact I.
    apply perm_swap.
  - destruct (map_result f l), (map_result f l'), (map_result f l'');
      try contradiction; try exact I.
    eapply Permutation_trans; eassumption.
Qed.

Lemma zsum_perm (a b : list Z) : Permutation a b -> zsum a = zsum b.
Proof.
  unfold zsum.
  induction 1 as [| | |? ? ? _ IH1 _ IH2]; cbn [fold_right]; lia.
Qed.

Lemma filter_perm {A} (p : A -> bool) (l l' : list A) :
  Permutation l l' -> Permutation (filter p l) (filter p l').
Proof.
  induction 1 as [|x l l' _ IH|x y l|l l' l'' _ IH1 _ IH2]; cbn [filter].
  - constructor.
  - destruct (p x); [now constructor | assumption].
  - destruct (p x), (p y); try apply Permutation_refl. apply perm_swap.
  - eapply Permutation_trans; eassumption.
Qed.

Lemma sum_rows_perm (rows rows' : table) :
  Permutation rows rows' ->
  same_total (sum_rows rows 0) (sum_rows rows' 0).
Proof.
  intros Hp. rewrite !Extractor.sum_rows_spec.
  pose proof (map_result_perm convert_bandwidth_to_bytes _ _
                (Permutation_map bandwidth_cell (filter_perm included _ _ Hp)))
    as H.
  destruct (map_result _ _) as [a|e], (map_result _ _) as [b|e'];
    cbn [bind same_total]; try contradiction; try exact I.
  f_equal. now apply zsum_perm.
Qed.

End Rows.

(** X9.  The total of a table is the total of its first data rows plus the
    total of the rest; an exception in either part is the outcome. *)
Theorem X9_total_of_parts (h1 h2 : list string) (rows1 rows2 : table) :
  snd (extract_private_bandwidth (Some (h1 :: h2 :: rows1 ++ rows2)%list))
  = (a <- snd (extract_private_bandwidth (Some (h1 :: h2 :: rows1))) ;;
     b <- snd (extract_private_bandwidth (Some (h1 :: h2 :: rows2))) ;;
     Ok (a + b)).
Proof.
  cbn [extract_private_bandwidth skipn lift snd].
  rewrite Rows.sum_rows_app.
  destruct (sum_rows rows1 0) as [a|e]; cbn [bind]; [|reflexivity].
  apply Rows.sum_rows_shift.
Qed.

(** X10.  One call of [parse_awstats_monthly_page] makes one request, the
    first thing it does, and writes no file.  It returns a total that is
    not negative; it raises RequestException exactly when the request
    fails, having done nothing else, and otherwise only the ValueError or
    OverflowError of a conversion. *)
Theorem X10_page_outcomes (server : string -> response) (url : string) :
  let run := parse_awstats_monthly_page server url in
  (exists t, fst run = Get url :: t
             /\ forall ev, In ev t -> exists line, ev = Print line)
  /\ match snd run with
     | Ok n => 0 <= n /\ server url <> Failed
     | Raise e =>
         (e = RequestException /\ server url = Failed /\ fst run = [Get url])
         \/ ((e = ValueError \/ e = OverflowError) /\ server url <> Failed)
     end.
Proof.
  unfold parse_awstats_monthly_page, emit. cbn [bindM].
  destruct (server url) as [|[rows|]]; cbn [lift extract_private_bandwidth].
  - cbn [app fst snd]. split; [exists []; split; [reflexivity | intros ? []]|].
    left. auto.
  - pose proof (Rows.sum_rows_outcome (skipn 2 rows) 0) as H.
    destruct (sum_rows (skipn 2 rows) 0) as [n|e]; cbn [app fst snd].
    + split; [exists []; split; [reflexivity | intros ? []]|].
      split; [lia | discriminate].
    + split; [exists []; split; [reflexivity | intros ? []]|].
      right. split; [exact H | discriminate].
  - cbn [emit bindM ret app fst snd]. split.
    + eexists. split; [reflexivity|]. intros ev [<-|[]]. eauto.
    + split; [lia | discriminate].
Qed.

(** X11.  The order of the data rows of a table does not change the
    total; it can only change which exception is raised when some cell
    does not convert. *)
Theorem X11_row_order (h1 h2 : list string) (rows rows' : table) :
  Permutation rows rows' ->
  same_total
    (snd (extract_private_bandwidth (Some (h1 :: h2 :: rows))))
    (snd (extract_private_bandwidth (Some (h1 :: h2 :: rows')))).
Proof.
  intros Hp. cbn [extract_private_bandwidth skipn lift snd].
  now apply Rows.sum_rows_perm.
Qed.

Lemma X11_row_order_witness :
  same_total
    (snd (extract_private_bandwidth
            (Some [[]; [];
                   ["10.0.0.5"; ""; ""; ""; ""; "12 KB"];
                   ["Others"; ""; ""; ""; ""; "1 GB"]])))
    (snd (extract_private_bandwidth
            (Some [[]; [];
                   ["Others"; ""; ""; ""; ""; "1 GB"];
                   ["10.0.0.5"; ""; ""; ""; ""; "12 KB"]]))).
Proof.
  apply (X11_row_order [] []
           [["10.0.0.5"; ""; ""; ""; ""; "12 KB"];
            ["Others"; ""; ""; ""; ""; "1 GB"]]
           [["Others"; ""; ""; ""; ""; "1 GB"];
            ["10.0.0.5"; ""; ""; ""; ""; "12 KB"]]).
  apply perm_swap.
Defined.

(** ** The range of the aggregator *)

Module Bounds.

(** The months of a year depend on the four arguments through the two
    tests of the inner loop only. *)
Lemma months_of_ext (sy sm ey em sy' sm' ey' em' y : Z) (months : list Z) :
  (forall month,
      In month months ->
      (y =? sy) && (month <? sm) = (y =? sy') && (month <? sm')
      /\ (y =? ey) && (em <? month) = (y =? ey') && (em' <? month)) ->
  months_of sy sm ey em y months = months_of sy' sm' ey' em' y months.
Proof.
  induction months as [|month months IH]; intros H; cbn [months_of];
    [reflexivity|].
  destruct (H month (or_introl eq_refl)) as [-> ->].
  rewrite IH by (intros ? ?; apply H; now right).
  reflexivity.
Qed.

(** Months before the start month are passed over. *)
Lemma months_of_skipped (sy sm ey em : Z) (months : list Z) :
  (forall month, In month months -> month < sm) ->
  months_of sy sm ey em sy months = [].
Proof.
  induction months as [|month months IH]; intros H; cbn [months_of];
    [reflexivity|].
  rewrite Z.eqb_refl.
  replace (month <? sm) with true
    by (symmetry; apply Z.ltb_lt, H; now left).
  cbn [andb]. apply IH. intros ? ?. apply H. now right.
Qed.

(** In one year, an end month before the start month leaves nothing. *)
Lemma months_of_reversed (sy sm em : Z) (months : list Z) :
  em < sm -> months_of sy sm sy em sy months = [].
Proof.
  intros Hlt. induction months as [|month months IH]; cbn [months_of];
    [reflexivity|].
  rewrite Z.eqb_refl. cbn [andb].
  destruct (Z.ltb_spec month sm) as [H|H]; [exact IH|].
  now replace (em <? month) with true by (symmetry; apply Z.ltb_lt; lia).
Qed.

Lemma loop_periods_reversed (sy sm ey em : Z) :
  ey < sy \/ (sy = ey /\ em < sm) -> loop_periods sy sm ey em = [].
Proof.
  unfold loop_periods. intros [H|[<- H]].
  - rewrite (Calendar.range_nil sy (ey + 1)) by lia. reflexivity.
  - rewrite Calendar.range_one. cbn [flat_map].
    rewrite months_of_reversed by assumption. reflexivity.
Qed.

Lemma loop_periods_clamp (sy sm ey em : Z) :
  loop_periods sy sm ey em = loop_periods sy (Z.max 1 sm) ey (Z.min 12 em).
Proof.
  unfold loop_periods. apply Calendar.flat_map_ext_in. intros y _.
  apply months_of_ext. intros month Hin.
  apply Calendar.in_range in Hin. split; f_equal.
  - destruct (Z.ltb_spec month sm), (Z.ltb_spec month (Z.max 1 sm));
      try reflexivity; lia.
  - destruct (Z.ltb_spec em month), (Z.ltb_spec (Z.min 12 em) month);
      try reflexivity; lia.
Qed.

Lemma loop_periods_late_start (sy sm ey em : Z) :
  12 < sm -> sy < ey ->
  loop_periods sy sm ey em = loop_periods (sy + 1) 1 ey em.
Proof.
  intros Hsm Hy. unfold loop_periods.
  rewrite (Calendar.range_cons sy) by lia. cbn [flat_map].
  rewrite months_of_skipped
    by (intros month Hin; apply Calendar.in_range in Hin; lia).
  cbn [app]. apply Calendar.flat_map_ext_in. intros y Hy'.
  apply Calendar.in_range in Hy'.
  apply months_of_ext. intros month Hin. apply Calendar.in_range in Hin.
  split; [|reflexivity].
  replace (y =? sy) with false by (symmetry; apply Z.eqb_neq; lia).
  replace (month <? 1) with false by (symmetry; apply Z.ltb_ge; lia).
  now rewrite andb_false_r.
Qed.

Lemma loop_periods_early_end (sy sm ey em : Z) :
  em < 1 -> sy < ey ->
  loop_periods sy sm ey em = loop_periods sy sm (ey - 1) 12.
Proof.
  intros Hem Hy.
  assert (Hlast : months_of sy sm ey em ey (range 1 13) = []).
  { rewrite (Calendar.range_cons 1 13) by lia. cbn [months_of].
    replace (ey =? sy) with false by (symmetry; apply Z.eqb_neq; lia).
    rewrite Z.eqb_refl.
    now replace (em <? 1) with true by (symmetry; apply Z.ltb_lt; lia). }
  unfold loop_periods.
  rewrite (Calendar.range_app sy ey (ey + 1)) by lia.
  rewrite Calendar.range_one, flat_map_app. cbn [flat_map].
  rewrite Hlast. cbn [app]. rewrite app_nil_r.
  replace (ey - 1 + 1) with ey by lia.
  apply Calendar.flat_map_ext_in. intros y Hy'.
  apply Calendar.in_range in Hy'.
  apply months_of_ext. intros month Hin. apply Calendar.in_range in Hin.
  split; [reflexivity|].
  replace (y =? ey) with false by (symmetry; apply Z.eqb_neq; lia).
  replace (12 <? month) with false by (symmetry; apply Z.ltb_ge; lia).
  now rewrite andb_false_r.
Qed.

(** Two ranges with the same periods give the same run. *)
Lemma same_periods (server : string -> response) (sy sm ey em sy' sm' ey' em' : Z) :
  loop_periods sy sm ey em = loop_periods sy' sm' ey' em' ->
  fetch_and_save_monthly_data server sy sm ey em
  = fetch_and_save_monthly_data server sy' sm' ey' em'.
Proof. intros H. rewrite !Loops.fetch_and_save_flat. now rewrite H. Qed.

End Bounds.

(** X12.  When the end period is before the start period (an earlier
    year, or the same year and an earlier month) the run requests no page
    and prints nothing: it writes a CSV file that holds the header row
    only and returns an empty dictionary. *)
Theorem X12_reversed_range
  (server : string -> response)
  (start_year start_month end_year end_month : Z) :
  end_year < start_year
  \/ (start_year = end_year /\ end_month < start_month) ->
  fetch_and_save_monthly_data server start_year start_month end_year end_month
  = ([WriteCsv [["Year-Month"; "Bandwidth (Bytes)"]]], Ok []).
Proof.
  intros H. rewrite Loops.fetch_and_save_flat.
  now rewrite Bounds.loop_periods_reversed.
Qed.

Lemma X12_reversed_range_witness :
  fetch_and_save_monthly_data (fun _ => Failed) 2024 3 2024 2
  = ([WriteCsv [["Year-Month"; "Bandwidth (Bytes)"]]], Ok []).
Proof.
  apply (X12_reversed_range (fun _ => Failed) 2024 3 2024 2). right. lia.
Defined.

(** X13.  Months outside 1..12 are not refused.  A start month below 1
    acts as 1 and an end month above 12 as 12; a start month above 12
    passes over the whole start year, and an end month below 1 over the
    whole end year. *)
Theorem X13_months_out_of_range
  (server : string -> response)
  (start_year start_month end_year end_month : Z) :
  fetch_and_save_monthly_data server start_year start_month end_year end_month
  = fetch_and_save_monthly_data server
      start_year (Z.max 1 start_month) end_year (Z.min 12 end_month)
  /\ (12 < start_month -> start_year < end_year ->
      fetch_and_save_monthly_data server
        start_year start_month end_year end_month
      = fetch_and_save_monthly_data server
          (start_year + 1) 1 end_year end_month)
  /\ (end_month < 1 -> start_year < end_year ->
      fetch_and_save_monthly_data server
        start_year start_month end_year end_month
      = fetch_and_save_monthly_data server
          start_year start_month (end_year - 1) 12).
Proof.
  split; [|split].
  - apply Bounds.same_periods, Bounds.loop_periods_clamp.
  - intros H1 H2. now apply Bounds.same_periods, Bounds.loop_periods_late_start.
  - intros H1 H2. now apply Bounds.same_periods, Bounds.loop_periods_early_end.
Qed.

Lemma X13_months_out_of_range_witness :
  fetch_and_save_monthly_data (fun _ => Page None) 2023 0 2023 40
     = fetch_and_save_monthly_data (fun _ => Page None) 2023 1 2023 12
  /\ fetch_and_save_monthly_data (fun _ => Page None) 2022 13 2023 2
     = fetch_and_save_monthly_data (fun _ => Page None) 2023 1 2023 2.
Proof.
  split.
  - exact (proj1 (X13_months_out_of_range (fun _ => Page None) 2023 0 2023 40)).
  - exact (proj1 (proj2 (X13_months_out_of_range (fun _ => Page None)
                           2022 13 2023 2)) ltac:(lia) ltac:(lia)).
Defined.

(** ** What a run stores, requests and raises *)

Module Run.

Section WithServer.
Variable server : string -> response.

Lemma format_raise (x : Z) (e : exn) :
  format_bandwidth x = Raise e -> e = OverflowError \/ e = ValueError.
Proof.
  intros H. destruct (Z.lt_ge_cases x 1024) as [Hs|Hl].
  - rewrite Format.format_below_1024 in H by assumption.
    unfold Str.str_int in H.
    destruct (Str.int_limit <=? Z.abs x); cbn [bind] in H;
      [injection H as <-; now right | discriminate].
  - pose proof (Format.format_render x Hl) as Hf. cbv zeta in Hf.
    rewrite H in Hf. tauto.
Qed.

(** One period: what is stored is the total of its page. *)
Lemma process_month_total (y m : Z) (d d' : dict) (t : list event) :
  process_month server y m d = (t, Ok d') ->
  exists bw,
    page_total server (y, m) = Ok bw
    /\ d' = dict_set (period_key y m) bw d.
Proof.
  unfold process_month, page_total, url_of. cbn [fst snd].
  unfold emit at 1. cbn [bindM].
  destruct (parse_awstats_monthly_page server (period_url y m))
    as [t1 [bw|e]]; cbn [bindM snd]; [|discriminate].
  unfold lift. destruct (format_bandwidth bw) as [s|e];
    cbn [bindM emit ret app]; [|discriminate].
  intros [= _ <-]. eauto.
Qed.

Lemma process_periods_entries (ps : list (Z * Z)) :
  forall d d' t,
    NoDup (map key_of ps) ->
    (forall q, In q ps -> ~ In (key_of q) (map fst d)) ->
    process_periods server ps d = (t, Ok d') ->
    exists vals,
      map_result (page_total server) ps = Ok vals
      /\ d' = (d ++ combine (map key_of ps) vals)%list.
Proof.
  induction ps as [|[y0 m0] ps IH]; intros d d' t Hnd Hfresh H.
  - cbn [process_periods ret] in H. injection H as _ <-.
    exists []. cbn [map_result map combine]. now rewrite app_nil_r.
  - cbn [process_periods] in H.
    destruct (process_month server y0 m0 d) as [t1 [d1|e]] eqn:H1;
      cbn [bindM] in H; [|discriminate].
    destruct (process_periods server ps d1) as [t2 r2] eqn:H2.
    injection H as <- ->.
    apply process_month_total in H1 as (bw & Hbw & ->).
    cbn [map] in Hnd. apply NoDup_cons_iff in Hnd as [Hnotin Hnd].
    rewrite (Trace.dict_set_fresh server) in H2
      by (apply (Hfresh (y0, m0)); now left).
    apply IH in H2; [| assumption |].
    + destruct H2 as (vals & Hvals & ->). exists (bw :: vals).
      cbn [map_result map combine]. rewrite Hbw, Hvals. cbn [bind].
      split; [reflexivity|]. now rewrite <- app_assoc.
    + intros q Hq Hin. rewrite map_app in Hin.
      apply in_app_or in Hin as [Hin|Hin].
      * apply (Hfresh q); [now right | assumption].
      * cbn [map fst In] in Hin. destruct Hin as [Hin|[]].
        apply Hnotin. unfold key_of at 1. cbn [fst snd]. rewrite Hin.
        now apply in_map.
Qed.

(** Requests *)

Lemma requested_app (t1 t2 : list event) :
  requested (t1 ++ t2) = (requested t1 ++ requested t2)%list.
Proof. apply flat_map_app. Qed.

Lemma page_requests (url : string) :
  requested (fst (parse_awstats_monthly_page server url)) = [url].
Proof.
  unfold parse_awstats_monthly_page, emit. cbn [bindM].
  destruct (server url) as [|[rows|]];
    cbn [lift extract_private_bandwidth emit bindM ret app];
    reflexivity.
Qed.

Lemma process_month_requests (y m : Z) (d : dict) :
  requested (fst (process_month server y m d)) = [period_url y m].
Proof.
  unfold process_month. unfold emit at 1. cbn [bindM].
  pose proof (page_requests (period_url y m)) as Hp.
  destruct (parse_awstats_monthly_page server (period_url y m))
    as [t1 [bw|e]]; cbn [bindM fst] in *; [|exact Hp].
  unfold lift. destruct (format_bandwidth bw) as [s|e];
    cbn [bindM emit ret app fst].
  - change (Print ?a :: ?t) with ([Print a] ++ t)%list.
    rewrite !requested_app, Hp. reflexivity.
  - rewrite app_nil_r. exact Hp.
Qed.

Lemma process_periods_requests (ps : list (Z * Z)) :
  forall d,
    exists n,
      requested (fst (process_periods server ps d))
      = map url_of (firstn n ps)
      /\ (forall d', snd (process_periods server ps d) = Ok d' ->
                     requested (fst (process_periods server ps d))
                     = map url_of ps).
Proof.
  induction ps as [|[y m] ps IH]; intros d; cbn [process_periods].
  - exists 0%nat. split; [reflexivity|]. reflexivity.
  - pose proof (process_month_requests y m d) as Hm.
    destruct (process_month server y m d) as [t1 [d1|e]]; cbn [bindM fst] in *.
    + destruct (IH d1) as (n & Hn & Hall).
      destruct (process_periods server ps d1) as [t2 r2]; cbn [fst snd] in *.
      exists (S n). rewrite requested_app, Hm. split.
      * rewrite Hn. reflexivity.
      * intros d' Hd'. rewrite (Hall d' Hd'). reflexivity.
    + exists 1%nat. cbn [fst snd firstn map]. split; [exact Hm|].
      discriminate.
Qed.

(** Causes *)

(** A RequestException comes from a request that failed. *)
Definition caused {A} (c : M A) : Prop :=
  snd c = Raise RequestException ->
  exists u, In (Get u) (fst c) /\ server u = Failed.

Lemma caused_bind {A B} (m : M A) (f : A -> M B) :
  caused m -> (forall a, caused (f a)) -> caused (bindM m f).
Proof.
  unfold caused. destruct m as [t [a|e]]; cbn [bindM fst snd]; intros Hm Hf;
    [|intros [= ->]; now apply Hm].
  specialize (Hf a). destruct (f a) as [t' r]; cbn [fst snd] in *.
  intros Hr. destruct (Hf Hr) as (u & Hin & Hu).
  exists u. split; [apply in_or_app; now right | assumption].
Qed.

Lemma caused_page (url : string) :
  caused (parse_awstats_monthly_page server url).
Proof.
  unfold caused, parse_awstats_monthly_page, emit. cbn [bindM].
  destruct (server url) as [|[rows|]] eqn:Hs;
    cbn [lift extract_private_bandwidth emit bindM ret app fst snd].
  - intros _. exists url. split; [now left | assumption].
  - pose proof (Rows.sum_rows_outcome (skipn 2 rows) 0) as H.
    destruct (sum_rows _ _) as [n|e]; cbn [fst snd]; [discriminate|].
    intros [= ->]. destruct H; discriminate.
  - discriminate.
Qed.

Lemma caused_process_month (y m : Z) (d : dict) :
  caused (process_month server y m d).
Proof.
  unfold process_month.
  apply caused_bind; [discriminate | intros _].
  apply caused_bind; [apply caused_page | intros bw].
  apply caused_bind; [| intros s; apply caused_bind; discriminate].
  unfold caused, lift. cbn [fst snd]. intros H.
  apply format_raise in H. destruct H; discriminate.
Qed.

Lemma caused_process_periods (ps : list (Z * Z)) :
  forall d, caused (process_periods server ps d).
Proof.
  induction ps as [|[y m] ps IH]; intros d; cbn [process_periods].
  - discriminate.
  - apply caused_bind; [apply caused_process_month | apply IH].
Qed.

End WithServer.

End Run.

(** X14.  For a start period not after the end period (months in 1..12),
    the dictionary a run returns pairs the key of each calendar month of
    the range, in order, with the total of the page of that month, and
    the last thing the run does is write the CSV file: the header row,
    then one row per entry, the key and the total in decimal. *)
Theorem X14_stored_totals
  (server : string -> response)
  (start_year start_month end_year end_month : Z)
  (t : list event) (d : dict) :
  1 <= start_month <= 12 ->
  1 <= end_month <= 12 ->
  start_year < end_year
  \/ (start_year = end_year /\ start_month <= end_month) ->
  fetch_and_save_monthly_data server start_year start_month end_year end_month
  = (t, Ok d) ->
  let periods := period_range start_year start_month end_year end_month in
  exists vals,
    map_result (page_total server) periods = Ok vals
    /\ d = combine (map key_of periods) vals
    /\ exists t0,
         t = (t0 ++ [WriteCsv (["Year-Month"; "Bandwidth (Bytes)"]
                               :: map (fun kv => [fst kv; Str.of_int (snd kv)])
                                    d)])%list.
Proof.
  intros Hsm Hem Hle Hrun periods.
  rewrite Loops.fetch_and_save_flat in Hrun.
  rewrite Calendar.loop_periods_range in Hrun by assumption. fold periods in Hrun.
  destruct (process_periods server periods []) as [t0 [d0|e]] eqn:Hp;
    cbn [bindM emit ret app] in Hrun; [|discriminate].
  injection Hrun as <- <-.
  apply Run.process_periods_entries in Hp.
  - destruct Hp as (vals & Hvals & ->). exists vals.
    split; [exact Hvals|]. split; [reflexivity|].
    exists t0. reflexivity.
  - apply Keys.periods_from_keys_nodup. assumption.
  - auto.
Qed.

Lemma X14_stored_totals_witness :
  let server := same_page [[]; []; ["10.0.0.5"; ""; ""; ""; ""; "12 KB"]] in
  exists t,
    fetch_and_save_monthly_data server 2023 12 2024 1
    = (t, Ok [("2023-12", 12288); ("2024-01", 12288)])
    /\ exists vals,
         map_result (page_total server) (period_range 2023 12 2024 1) = Ok vals
         /\ [("2023-12", 12288); ("2024-01", 12288)]
            = combine (map key_of (period_range 2023 12 2024 1)) vals.
Proof.
  intros server.
  exists (fst (fetch_and_save_monthly_data server 2023 12 2024 1)).
  assert (Hrun : fetch_and_save_monthly_data server 2023 12 2024 1
                 = (fst (fetch_and_save_monthly_data server 2023 12 2024 1),
                    Ok [("2023-12", 12288); ("2024-01", 12288)]))
    by (vm_compute; reflexivity).
  split; [exact Hrun|].
  destruct (X14_stored_totals server 2023 12 2024 1 _ _
              ltac:(lia) ltac:(lia) ltac:(lia) Hrun)
    as (vals & Hvals & Hd & _).
  exists vals. split; assumption.
Defined.

(** X15.  A run requests the pages of the periods of its loops in order,
    each once, and nothing else: the URLs requested are those of the
    first periods, and of all the periods when the run returns.  No
    request is repeated after a failure. *)
Theorem X15_one_request_per_period
  (server : string -> response)
  (start_year start_month end_year end_month : Z) :
  let run :=
    fetch_and_save_monthly_data server start_year start_month
      end_year end_month in
  let periods := loop_periods start_year start_month end_year end_month in
  (exists n, requested (fst run) = map url_of (firstn n periods))
  /\ (forall d, snd run = Ok d -> requested (fst run) = map url_of periods).
Proof.
  intros run periods. unfold run. rewrite Loops.fetch_and_save_flat.
  fold periods.
  destruct (Run.process_periods_requests server periods []) as (n & Hn & Hall).
  destruct (process_periods server periods []) as [t0 [d0|e]];
    cbn [bindM emit ret app fst snd] in *.
  - rewrite Run.requested_app. cbn [requested flat_map app].
    rewrite app_nil_r. split; [eauto|]. intros d _. now apply (Hall d0).
  - split; [eauto | discriminate].
Qed.

(** X16.  A run that raises has written no CSV file.  It raises
    RequestException only when its last event is a request that failed;
    when it raises something else (a cell that does not convert, a total
    too large to format) every request it made had succeeded. *)
Theorem X16_raising_run
  (server : string -> response)
  (start_year start_month end_year end_month : Z) (e : exn) :
  let run :=
    fetch_and_save_monthly_data server start_year start_month
      end_year end_month in
  snd run = Raise e ->
  (forall rows, ~ In (WriteCsv rows) (fst run))
  /\ (e = RequestException ->
      exists t0 u, fst run = (t0 ++ [Get u])%list /\ server u = Failed)
  /\ (e <> RequestException ->
      forall u, In (Get u) (fst run) -> server u <> Failed).
Proof.
  intros run. unfold run. rewrite Loops.fetch_and_save_flat.
  set (ps := loop_periods start_year start_month end_year end_month).
  pose proof (Trace.fail_stop_process_periods server ps []) as Hfs.
  pose proof (Run.caused_process_periods server ps []) as Hc.
  destruct (process_periods server ps []) as [t0 [d0|e0]];
    cbn [bindM emit ret app fst snd Trace.fail_stop] in *; [discriminate|].
  unfold Run.caused in Hc. cbn [fst snd] in Hc.
  intros [= ->]. split; [|split].
  - intros rows. destruct Hfs as [Hcl | [Hst _]];
      [now apply (Trace.clean_no_write server)
      | now apply (Trace.stopped_no_write server)].
  - intros ->. destruct Hfs as [Hcl | [(t1 & u & -> & _ & Hu) _]]; [|eauto].
    exfalso. destruct (Hc eq_refl) as (u & Hin & Hu).
    now apply (Trace.clean_no_failed_get server t0 u Hcl Hin).
  - intros Hne u Hin. destruct Hfs as [Hcl | [_ ->]]; [|congruence].
    now apply (Trace.clean_no_failed_get server t0 u Hcl Hin).
Qed.

Lemma X16_raising_run_witness :
  let run :=
    fetch_and_save_monthly_data
      (same_page [[]; []; ["10.0.0.5"; ""; ""; ""; ""; "1.2.3 KB"]])
      2024 1 2024 2 in
  snd run = Raise ValueError
  /\ requested (fst run) = [period_url 2024 1]
  /\ forall rows, ~ In (WriteCsv rows) (fst run).
Proof.
  intros run.
  assert (Hr : snd run = Raise ValueError) by (vm_compute; reflexivity).
  split; [exact Hr|]. split; [vm_compute; reflexivity|].
  exact (proj1 (X16_raising_run _ 2024 1 2024 2 ValueError Hr)).
Defined.
